(** * satori-video-sdk-cpp: the bot instance and the RTM channel position

    A shallow embedding of [src/bot_instance.cpp] (class [bot_instance]) and
    of [channel_position] from [src/rtm_client.h], with the properties the
    specification states about them. *)

From Stdlib Require Import ZArith NArith Ascii String List Lia Bool.
From stdpp Require Import base option list gmap strings fin_maps.

Local Open Scope Z_scope.
Local Set Warnings "-register-all".

(** ** JSON values ([nlohmann::json])

    An object is a [std::map<std::string, json>]: unique keys, and two
    objects with the same entries are equal; [gmap] has exactly these
    properties.  Only integer numbers occur in the code under study
    (frame identifiers are [int64_t]). *)

Inductive json : Type :=
| JNull
| JBool (b : bool)
| JInt (z : Z)
| JStr (s : string)
| JArr (l : list json)
| JObj (m : gmap string json).

Definition is_null (j : json) : bool :=
  match j with JNull => true | _ => false end.

Definition is_object (j : json) : bool :=
  match j with JObj _ => true | _ => false end.

Definition is_array (j : json) : bool :=
  match j with JArr _ => true | _ => false end.

(** [j.find(k) != j.end()] on an object. *)
Definition has_key (k : string) (j : json) : bool :=
  match j with
  | JObj m => bool_decide (is_Some (m !! k))
  | _ => false
  end.

(** [j[k]] read on an object that has the key. *)
Definition get_field (k : string) (j : json) : option json :=
  match j with
  | JObj m => m !! k
  | _ => None
  end.

(** [j[k] = v] on an object: the entry is created or overwritten.  The
    callers below only assign into values already checked to be objects. *)
Definition set_field (k : string) (v : json) (j : json) : json :=
  match j with
  | JObj m => JObj (<[k := v]> m)
  | _ => j
  end.

(** [j == s] for a [std::string] [s]: the string is converted to a JSON
    string, and values of different types are unequal. *)
Definition eq_string (j : json) (s : string) : bool :=
  match j with
  | JStr t => bool_decide (t = s)
  | _ => false
  end.

(** ** Fatal exits and the result of a call

    [CHECK(c)] and [ABORT()] (from [logging.h]) terminate the process when
    they fire, and calling an empty [std::function] throws; a call that may
    end this way returns an [outcome]. *)

Inductive failure : Type :=
| CheckFailed
| Aborted
| BadFunctionCall.

Inductive outcome (A : Type) : Type :=
| Ok (a : A)
| Fatal (f : failure).
Arguments Ok {A} a.
Arguments Fatal {A} f.

#[global] Instance outcome_ret : MRet outcome := fun _ a => Ok a.
#[global] Instance outcome_bind : MBind outcome := fun _ _ k m =>
  match m with
  | Ok a => k a
  | Fatal f => Fatal f
  end.

(** ** Data model of the bot instance *)

(** [frame_id]: two [int64_t] sequence numbers. *)
Record frame_id : Type := mk_frame_id { i1 : Z; i2 : Z }.

Inductive bot_message_kind : Type := ANALYSIS | DEBUG | CONTROL.

(** [struct bot_message { data, kind, id }]. *)
Record bot_message : Type := mk_bot_message {
  msg_data : json;
  msg_kind : bot_message_kind;
  msg_id : frame_id }.

(** Modelled from the spec: the header declaring [max_image_planes] is not
    part of the sources; the specification gives frames up to 4 planes. *)
Definition max_image_planes : nat := 4.

(** [owned_image_frame]: the fields [extract_frames] reads.  The plane
    arrays hold [max_image_planes] entries; a plane is a [std::string] of
    bytes. *)
Record owned_image_frame : Type := mk_owned_image_frame {
  f_id : frame_id;
  f_width : N;
  f_height : N;
  f_plane_strides : list N;
  f_plane_data : list string }.

(** [image_metadata], the member [_image_metadata]. *)
Record image_metadata : Type := mk_image_metadata {
  md_width : N;
  md_height : N;
  md_plane_strides : list N }.

(** [image_frame], the view handed to the image callback: the frame id and
    one pointer per plane, [nullptr] ([None]) for an string_empty plane and else a
    pointer to the plane's bytes. *)
Record image_frame : Type := mk_image_frame {
  if_id : frame_id;
  if_plane_data : list (option string) }.

(** The process-wide counters and the batch-size histogram the instance
    feeds.  Counters are labelled by [message_type]; the histogram of
    processing times depends on the clock and is left out. *)
Record metrics : Type := mk_metrics {
  messages_sent : gmap string nat;
  messages_received : gmap string nat;
  frame_batch_processed_total : nat;
  frame_size : list nat }.

Definition increment (label : string) (c : gmap string nat) : gmap string nat :=
  <[label := S (default 0%nat (c !! label))]> c.

(** What a user callback may do to the instance it is handed: the two
    mutators [bot_instance] offers.  Both return [void], so a callback's
    effect on the instance is the sequence of its calls. *)
Inductive api_call : Type :=
| QueueMessage (kind : bot_message_kind) (message : json) (id : frame_id)
| SetCurrentFrameId (id : frame_id).

Section BotInstance.

(** [U] is the state the user's callbacks keep between calls;
    [owned_image_metadata] is the non-frame alternative of
    [owned_image_packet], declared in a header outside the sources and
    never inspected by the instance. *)
Context {U owned_image_metadata : Type}.

(** [owned_image_packet = variant<owned_image_metadata, owned_image_frame>] *)
Inductive owned_image_packet : Type :=
| PacketMetadata (m : owned_image_metadata)
| PacketFrame (f : owned_image_frame).

(** [bot_output]: a packet alternative or a [bot_message]. *)
Inductive bot_output : Type :=
| OutMetadata (m : owned_image_metadata)
| OutFrame (f : owned_image_frame)
| OutMessage (m : bot_message).

(** [bot_input = variant<std::queue<owned_image_packet>, nlohmann::json>] *)
Inductive bot_input : Type :=
| InPackets (pp : list owned_image_packet)
| InControl (msg : json).

(** [multiframe_bot_descriptor].  A callback is handed the bot context, from
    which it reaches its own state and the image metadata, and its argument;
    it yields its new state, the calls it made on the instance, and (for
    the control callback) its response.  [ctrl_callback] may be empty. *)
Record multiframe_bot_descriptor : Type := mk_descriptor {
  img_callback : U → image_metadata → list image_frame → U * list api_call;
  ctrl_callback : option (U → image_metadata → json → U * list api_call * json) }.

(** The members of [bot_instance], the user state behind the context, the
    metrics, and two observation logs: the arguments of every invocation of
    the control callback and of the image callback, oldest first. *)
Record bot_instance : Type := mk_bot_instance {
  _bot_id : string;
  _descriptor : multiframe_bot_descriptor;
  _image_metadata : image_metadata;
  _message_buffer : list bot_message;
  _current_frame_id : frame_id;
  instance_data : U;
  stats : metrics;
  ctrl_calls : list json;
  img_calls : list (list image_frame) }.

Definition with_image_metadata (md : image_metadata) (b : bot_instance) :=
  mk_bot_instance (_bot_id b) (_descriptor b) md (_message_buffer b)
    (_current_frame_id b) (instance_data b) (stats b) (ctrl_calls b) (img_calls b).

Definition with_message_buffer (buf : list bot_message) (b : bot_instance) :=
  mk_bot_instance (_bot_id b) (_descriptor b) (_image_metadata b) buf
    (_current_frame_id b) (instance_data b) (stats b) (ctrl_calls b) (img_calls b).

Definition with_current_frame_id (id : frame_id) (b : bot_instance) :=
  mk_bot_instance (_bot_id b) (_descriptor b) (_image_metadata b) (_message_buffer b)
    id (instance_data b) (stats b) (ctrl_calls b) (img_calls b).

Definition with_instance_data (u : U) (b : bot_instance) :=
  mk_bot_instance (_bot_id b) (_descriptor b) (_image_metadata b) (_message_buffer b)
    (_current_frame_id b) u (stats b) (ctrl_calls b) (img_calls b).

Definition with_stats (s : metrics) (b : bot_instance) :=
  mk_bot_instance (_bot_id b) (_descriptor b) (_image_metadata b) (_message_buffer b)
    (_current_frame_id b) (instance_data b) s (ctrl_calls b) (img_calls b).

Definition log_ctrl_call (msg : json) (b : bot_instance) :=
  mk_bot_instance (_bot_id b) (_descriptor b) (_image_metadata b) (_message_buffer b)
    (_current_frame_id b) (instance_data b) (stats b) (ctrl_calls b ++ [msg]) (img_calls b).

Definition log_img_call (frames : list image_frame) (b : bot_instance) :=
  mk_bot_instance (_bot_id b) (_descriptor b) (_image_metadata b) (_message_buffer b)
    (_current_frame_id b) (instance_data b) (stats b) (ctrl_calls b) (img_calls b ++ [frames]).

(** [std::string::empty] *)
Definition string_empty (s : string) : bool :=
  match s with EmptyString => true | String _ _ => false end.

(** *** [build_configure_command], [build_shutdown_command] *)

Definition build_configure_command (config : json) : json :=
  set_field "body" config (set_field "action" (JStr "configure") (JObj ∅)).

Definition build_shutdown_command : json :=
  JObj {[ "action" := JStr "shutdown" ]}.

(** *** [bot_instance::queue_message] *)

Definition queue_message (kind : bot_message_kind) (message : json) (id : frame_id)
    (b : bot_instance) : outcome bot_instance :=
  if is_object message then
    let effective_frame_id :=
      if (i1 id =? 0) && (i2 id =? 0)
         && negb (i1 (_current_frame_id b) =? 0)
         && negb (i2 (_current_frame_id b) =? 0)
      then _current_frame_id b
      else id in
    let newmsg := mk_bot_message message kind effective_frame_id in
    Ok (with_message_buffer (_message_buffer b ++ [newmsg]) b)
  else Fatal CheckFailed.

(** *** [bot_instance::set_current_frame_id] *)

Definition set_current_frame_id (id : frame_id) (b : bot_instance) : bot_instance :=
  with_current_frame_id id b.

(** The calls a callback made, replayed on the instance in order. *)
Definition run_call (c : api_call) (b : bot_instance) : outcome bot_instance :=
  match c with
  | QueueMessage kind message id => queue_message kind message id b
  | SetCurrentFrameId id => Ok (set_current_frame_id id b)
  end.

Fixpoint run_calls (cs : list api_call) (b : bot_instance) : outcome bot_instance :=
  match cs with
  | [] => Ok b
  | c :: cs' => b' ← run_call c b; run_calls cs' b'
  end.

(** The call of [_descriptor.ctrl_callback] on the instance and [cmd]: the
    response and the instance after the call. *)
Definition call_ctrl_callback (cmd : json) (b : bot_instance)
    : outcome (json * bot_instance) :=
  match ctrl_callback (_descriptor b) with
  | None => Fatal BadFunctionCall
  | Some cb =>
      let '(u, calls, response) := cb (instance_data b) (_image_metadata b) cmd in
      b' ← run_calls calls (with_instance_data u (log_ctrl_call cmd b));
      Ok (response, b')
  end.

(** The call of [_descriptor.img_callback] on the instance and the span. *)
Definition call_img_callback (frames : list image_frame) (b : bot_instance)
    : outcome bot_instance :=
  let '(u, calls) :=
    img_callback (_descriptor b) (instance_data b) (_image_metadata b) frames in
  run_calls calls (with_instance_data u (log_img_call frames b)).

(** *** [bot_instance::prepare_message_buffer_for_downstream] *)

Definition kind_label (k : bot_message_kind) : string :=
  match k with
  | ANALYSIS => "analysis"
  | DEBUG => "debug"
  | CONTROL => "control"
  end.

(** The two assignments of the loop body, on a message whose data passed
    the object check. *)
Definition stamp (bot_id : string) (msg : bot_message) : bot_message :=
  let d := msg_data msg in
  let d :=
    if 0 <=? i1 (msg_id msg)
    then set_field "i" (JArr [JInt (i1 (msg_id msg)); JInt (i2 (msg_id msg))]) d
    else d in
  let d := if negb (string_empty bot_id) then set_field "from" (JStr bot_id) d else d in
  mk_bot_message d (msg_kind msg) (msg_id msg).

(** The loop over [_message_buffer]: count the message as sent, check its
    data, stamp it in place. *)
Fixpoint prepare_messages (bot_id : string) (msgs : list bot_message)
    (sent : gmap string nat) : outcome (list bot_message * gmap string nat) :=
  match msgs with
  | [] => Ok ([], sent)
  | msg :: rest =>
      let sent := increment (kind_label (msg_kind msg)) sent in
      if is_object (msg_data msg) then
        '(rest', sent') ← prepare_messages bot_id rest sent;
        Ok (stamp bot_id msg :: rest', sent')
      else Fatal CheckFailed
  end.

Definition prepare_message_buffer_for_downstream (b : bot_instance)
    : outcome bot_instance :=
  '(buf, sent) ← prepare_messages (_bot_id b) (_message_buffer b)
                   (messages_sent (stats b));
  Ok (with_message_buffer buf
        (with_stats (mk_metrics sent (messages_received (stats b))
                       (frame_batch_processed_total (stats b))
                       (frame_size (stats b))) b)).

(** *** [bot_instance::extract_frames] *)

Definition plane_pointer (plane : string) : option string :=
  if string_empty plane then None else Some plane.

Definition latch_metadata (frame : owned_image_frame) (b : bot_instance)
    : outcome bot_instance :=
  if negb (f_width frame =? md_width (_image_metadata b))%N
     || negb (f_height frame =? md_height (_image_metadata b))%N
  then
    if (md_width (_image_metadata b) =? 0)%N then
      Ok (with_image_metadata
            (mk_image_metadata (f_width frame) (f_height frame)
               (take max_image_planes (f_plane_strides frame))) b)
    else Fatal CheckFailed
  else Ok b.

Fixpoint extract_frames (packets : list bot_output) (b : bot_instance)
    : outcome (list image_frame * bot_instance) :=
  match packets with
  | [] => Ok ([], b)
  | OutFrame frame :: rest =>
      b1 ← latch_metadata frame b;
      let bframe :=
        mk_image_frame (f_id frame)
          (map plane_pointer (take max_image_planes (f_plane_data frame))) in
      '(result, b2) ← extract_frames rest b1;
      Ok (bframe :: result, b2)
  | _ :: rest => extract_frames rest b
  end.

(** *** [bot_instance::operator()] on a queue of packets *)

Definition packet_output (p : owned_image_packet) : bot_output :=
  match p with
  | PacketMetadata m => OutMetadata m
  | PacketFrame f => OutFrame f
  end.

Definition observe_frame_size (n : nat) (b : bot_instance) : bot_instance :=
  with_stats (mk_metrics (messages_sent (stats b)) (messages_received (stats b))
                (frame_batch_processed_total (stats b))
                (frame_size (stats b) ++ [n])) b.

Definition count_batch (b : bot_instance) : bot_instance :=
  with_stats (mk_metrics (messages_sent (stats b)) (messages_received (stats b))
                (S (frame_batch_processed_total (stats b)))
                (frame_size (stats b))) b.

Definition operator_call_packets (pp : list owned_image_packet) (b : bot_instance)
    : outcome (list bot_output * bot_instance) :=
  let b := observe_frame_size (length pp) b in
  let result := map packet_output pp in
  '(bframes, b) ← extract_frames result b;
  match bframes with
  | [] => Ok (result, b)
  | _ :: _ =>
      b ← call_img_callback bframes b;
      let b := count_batch b in
      b ← prepare_message_buffer_for_downstream b;
      Ok (result ++ map OutMessage (_message_buffer b), with_message_buffer [] b)
  end.

(** *** [bot_instance::operator()] on a control message *)

Definition count_received (b : bot_instance) : bot_instance :=
  with_stats (mk_metrics (messages_sent (stats b))
                (increment "control" (messages_received (stats b)))
                (frame_batch_processed_total (stats b))
                (frame_size (stats b))) b.

(** [if (msg.find("request_id") != msg.end()) response["request_id"] =
    msg["request_id"];] *)
Definition copy_request_id (msg response : json) : json :=
  if has_key "request_id" msg
  then set_field "request_id" (default JNull (get_field "request_id" msg)) response
  else response.

(** The part of the function below the array case. *)
Definition control_single (msg : json) (b : bot_instance)
    : outcome (list bot_output * bot_instance) :=
  if negb (is_object msg) || negb (has_key "to" msg) then Ok ([], b)
  else if string_empty (_bot_id b)
          || negb (eq_string (default JNull (get_field "to" msg)) (_bot_id b))
  then Ok ([], b)
  else
    '(response, b) ← call_ctrl_callback msg b;
    b ← (if negb (is_null response) then
           if is_object response then
             queue_message CONTROL (copy_request_id msg response) (mk_frame_id 0 0) b
           else Fatal CheckFailed
         else Ok b);
    b ← prepare_message_buffer_for_downstream b;
    Ok (map OutMessage (_message_buffer b), with_message_buffer [] b).

(** The loop of the array case: [handle] on each element in turn, the
    outputs spliced to the end of [aggregated]. *)
Definition each_element
    (handle : json → bot_instance → outcome (list bot_output * bot_instance))
    : list json → bot_instance → outcome (list bot_output * bot_instance) :=
  fix each (els : list json) (b : bot_instance) {struct els} :=
    match els with
    | [] => Ok ([], b)
    | el :: rest =>
        '(out, b1) ← handle el b;
        '(aggregated, b2) ← each rest b1;
        Ok (out ++ aggregated, b2)
    end.

Fixpoint operator_call_json (msg : json) (b : bot_instance)
    : outcome (list bot_output * bot_instance) :=
  let b := count_received b in
  match msg with
  | JArr elements => each_element operator_call_json elements b
  | _ => control_single msg b
  end.

(** The visitor [boost::apply_visitor(this, input)]. *)
Definition apply_visitor (p : bot_input) (b : bot_instance)
    : outcome (list bot_output * bot_instance) :=
  match p with
  | InPackets pp => operator_call_packets pp b
  | InControl msg => operator_call_json msg b
  end.

(** *** [bot_instance::configure] *)

Definition configure (config : json) (b : bot_instance) : outcome bot_instance :=
  match ctrl_callback (_descriptor b) with
  | None => if is_null config then Ok b else Fatal Aborted
  | Some _ =>
      let cmd :=
        build_configure_command (if negb (is_null config) then config else JObj ∅) in
      '(response, b) ← call_ctrl_callback cmd b;
      if negb (is_null response)
      then queue_message DEBUG response (mk_frame_id 0 0) b
      else Ok b
  end.

End BotInstance.

Arguments owned_image_packet : clear implicits.
Arguments bot_output : clear implicits.
Arguments bot_input : clear implicits.
Arguments multiframe_bot_descriptor : clear implicits.
Arguments bot_instance : clear implicits.

(** ** The stream operators [run_bot] is built from *)

Section Streams.

Context {State T : Type}.

(** What a pump hands to its sink in one invocation. *)
Inductive signal : Type :=
| OnNext (t : T)
| OnComplete.

(** Modelled from the spec: [streams::generators<T>::stateful(init, pump)]
    is declared in a header outside the sources.  The specification: "init
    produces a state the first time demand arrives; each request invokes
    pump(state, sink); pump may emit via sink.on_next then either return to
    await more demand, or call sink.on_complete()".  The functions passed in
    [run_bot] keep their state in the instance, here [State]; a pull is one
    unit of demand. *)
Record stateful : Type := mk_stateful {
  gen_init : State → outcome State;
  gen_pump : State → outcome (signal * State) }.

Inductive phase : Type := NotStarted | Active | Completed.

Definition pump_once (g : stateful) (s : State)
    : outcome (option signal * phase * State) :=
  '(sig, s') ← gen_pump g s;
  Ok (Some sig, match sig with OnNext _ => Active | OnComplete => Completed end, s').

Definition pull (g : stateful) (ph : phase) (s : State)
    : outcome (option signal * phase * State) :=
  match ph with
  | NotStarted => s' ← gen_init g s; pump_once g s'
  | Active => pump_once g s
  | Completed => Ok (None, Completed, s)
  end.

(** [n] successive pulls: the elements emitted, in order, and where the
    generator stands afterwards. *)
Fixpoint pulls (g : stateful) (n : nat) (ph : phase) (s : State)
    : outcome (list T * phase * State) :=
  match n with
  | O => Ok ([], ph, s)
  | S n' =>
      '(sig, ph', s') ← pull g ph s;
      '(out, ph'', s'') ← pulls g n' ph' s';
      Ok (match sig with Some (OnNext t) => t :: out | _ => out end, ph'', s'')
  end.

(** Modelled from the spec: [map(f) >> flatten()] over a source that emits
    the elements of [src] and completes, for an [f] that returns the list
    of elements to emit: "apply f per element", then forward each inner
    stream in turn. *)
Fixpoint map_flatten {I : Type} (f : I → State → outcome (list T * State))
    (src : list I) (s : State) : outcome (list T * State) :=
  match src with
  | [] => Ok ([], s)
  | p :: rest =>
      '(out, s1) ← f p s;
      '(outs, s2) ← map_flatten f rest s1;
      Ok (out ++ outs, s2)
  end.

(** Modelled from the spec: [streams::publishers::concat(A, B)], "subscribe
    to A; on A's on_complete, subscribe to B": the elements of [A], then
    those [B] emits in [n] pulls. *)
Definition publishers_concat (a : State → outcome (list T * State)) (b : stateful)
    (n : nat) (s : State) : outcome (list T * phase * State) :=
  '(out_a, s1) ← a s;
  '(out_b, ph, s2) ← pulls b n NotStarted s1;
  Ok (out_a ++ out_b, ph, s2).

End Streams.

Arguments signal : clear implicits.
Arguments stateful : clear implicits.

Section RunBot.

Context {U owned_image_metadata : Type}.

Local Abbreviation instance := (bot_instance U).
Local Abbreviation output := (bot_output owned_image_metadata).

(** *** [bot_instance::run_bot] *)

(** The first function given to [stateful]. *)
Definition shutdown_init (b : instance) : outcome instance :=
  b ← match ctrl_callback (_descriptor b) with
      | Some _ =>
          '(response, b) ← call_ctrl_callback build_shutdown_command b;
          if negb (is_null response)
          then queue_message DEBUG response (mk_frame_id 0 0) b
          else Ok b
      | None => Ok b
      end;
  prepare_message_buffer_for_downstream b.

(** The second function given to [stateful]. *)
Definition shutdown_pump (b : instance) : outcome (signal output * instance) :=
  match _message_buffer b with
  | [] => Ok (OnComplete, b)
  | msg :: rest => Ok (OnNext (OutMessage msg), with_message_buffer rest b)
  end.

Definition shutdown_stream : stateful instance output :=
  mk_stateful shutdown_init shutdown_pump.

Definition main_stream (src : list (bot_input owned_image_metadata)) (b : instance)
    : outcome (list output * instance) :=
  map_flatten apply_visitor src b.

(** The publisher [run_bot] builds from a source emitting [src]: its
    output when the subscriber pulls [n] times after the main stream. *)
Definition run_bot (src : list (bot_input owned_image_metadata)) (n : nat) (b : instance)
    : outcome (list output * phase * instance) :=
  publishers_concat (main_stream src) shutdown_stream n b.

End RunBot.

(** ** [rtm::channel_position] *)

Module channel_position.

Local Open Scope N_scope.

(** [gen] is a [uint32_t] and [pos] a [uint64_t]. *)
Record t : Type := mk { gen : N; pos : N }.

Definition UINT32_MAX : N := 2 ^ 32 - 1.
Definition UINT64_MAX : N := 2 ^ 64 - 1.
Definition LLONG_MAX : Z := (2 ^ 63 - 1)%Z.
Definition LLONG_MIN : Z := (- 2 ^ 63)%Z.

Definition valid (p : t) : Prop := gen p <= UINT32_MAX ∧ pos p <= UINT64_MAX.

(** *** [std::to_string] on an unsigned value: its decimal digits *)

Definition digit_char (d : N) : ascii := ascii_of_N (48 + d).

Fixpoint to_digits (fuel : nat) (n : N) (acc : list ascii) : list ascii :=
  match fuel with
  | O => acc
  | S fuel' =>
      let acc' := digit_char (n mod 10) :: acc in
      if n / 10 =? 0 then acc' else to_digits fuel' (n / 10) acc'
  end.

(** A number below [2 ^ fuel] has at most [fuel] decimal digits. *)
Definition to_string (n : N) : list ascii :=
  to_digits (S (N.to_nat (N.log2 n))) n [].

(** *** [str] *)

Definition str (p : t) : string :=
  string_of_list_ascii (to_string (gen p) ++ ":"%char :: to_string (pos p)).

(** *** [strtoll] and [strtoull] of the C library, base 10

    Both skip white space, take an optional sign and then the longest run
    of decimal digits; without a digit nothing is converted, the value is 0
    and the end pointer is the start pointer.  A value out of range is
    clamped.  The result is the value together with the number of
    characters between the start pointer and the end pointer. *)

Definition isspace (c : ascii) : bool :=
  let n := N_of_ascii c in (n =? 32) || ((9 <=? n) && (n <=? 13)).

Definition isdigit (c : ascii) : bool :=
  let n := N_of_ascii c in (48 <=? n) && (n <=? 57).

Definition digit_value (c : ascii) : N := N_of_ascii c - 48.

Fixpoint count_spaces (s : list ascii) : nat :=
  match s with
  | c :: rest => if isspace c then S (count_spaces rest) else O
  | [] => O
  end.

(** Whether a minus sign is present, and the length of the sign. *)
Definition read_sign (s : list ascii) : bool * nat :=
  match s with
  | c :: _ =>
      if Ascii.eqb c "-" then (true, 1%nat)
      else if Ascii.eqb c "+" then (false, 1%nat)
      else (false, O)
  | [] => (false, O)
  end.

(** The value of the leading digits, continuing from [acc], and their
    number. *)
Fixpoint read_digits (s : list ascii) (acc : N) : N * nat :=
  match s with
  | c :: rest =>
      if isdigit c then
        let '(v, k) := read_digits rest (acc * 10 + digit_value c) in
        (v, S k)
      else (acc, O)
  | [] => (acc, O)
  end.

(** Sign, magnitude and length of the number at the start of [s]; the
    length is 0 when there is no digit. *)
Definition read_number (s : list ascii) : bool * N * nat :=
  let ws := count_spaces s in
  let '(neg, sg) := read_sign (drop ws s) in
  let '(v, k) := read_digits (drop (ws + sg) s) 0 in
  match k with
  | O => (false, 0, O)
  | _ => (neg, v, (ws + sg + k)%nat)
  end.

Definition strtoll (s : list ascii) : Z * nat :=
  let '(neg, v, len) := read_number s in
  let value := if neg then (- Z.of_N v)%Z else Z.of_N v in
  (Z.max LLONG_MIN (Z.min LLONG_MAX value), len).

Definition strtoull (s : list ascii) : N * nat :=
  let '(neg, v, len) := read_number s in
  let value :=
    if UINT64_MAX <? v then UINT64_MAX
    else if neg then (2 ^ 64 - v) mod 2 ^ 64
    else v in
  (value, len).

(** [std::string::c_str]: the characters up to the first NUL. *)
Fixpoint c_str (s : string) : list ascii :=
  match s with
  | EmptyString => []
  | String c rest => if Ascii.eqb c zero then [] else c :: c_str rest
  end.

(** The character a pointer [i] characters into the C string designates;
    the terminating NUL at its end. *)
Definition deref (s : list ascii) (i : nat) : ascii := nth i s zero.

(** *** [parse]

    [str_pos] is kept as its distance from [str.c_str()]; both library
    functions always store an end pointer, so it is never null. *)
Definition parse (str : string) : outcome t :=
  let s := c_str str in
  let '(gen, str_pos) := strtoll s in
  if (gen <=? Z.of_N UINT32_MAX)%Z then
    if Nat.eqb str_pos 0 || negb (Ascii.eqb (deref s str_pos) ":") then
      Ok (mk 0 0)
    else
      let '(pos, len) := strtoull (drop (str_pos + 1) s) in
      let str_pos := (str_pos + 1 + len)%nat in
      if pos <=? UINT64_MAX then
        if negb (Ascii.eqb (deref s str_pos) zero) then Ok (mk 0 0)
        else Ok (mk (Z.to_N (gen mod 2 ^ 32)) (pos mod 2 ^ 64))
      else Fatal CheckFailed
  else Fatal CheckFailed.

(** *** Notions the properties are stated with *)

(** The value of a run of digits, continuing from [acc]. *)
Definition digits_value (acc : N) (ds : list ascii) : N :=
  fold_left (λ a c, a * 10 + digit_value c) ds acc.

(** The text of a number as the library functions accept it: white space,
    an optional sign, at least one digit. *)
Definition is_sign (sg : list ascii) : Prop :=
  sg = [] ∨ sg = ["+"%char] ∨ sg = ["-"%char].

Definition number (ws sg ds : list ascii) : Prop :=
  Forall (λ c, isspace c = true) ws
  ∧ is_sign sg
  ∧ Forall (λ c, isdigit c = true) ds
  ∧ ds ≠ [].

Definition is_minus (sg : list ascii) : bool :=
  match sg with
  | c :: _ => Ascii.eqb c "-"
  | [] => false
  end.

(** The text starts with a number. *)
Definition starts_with_number (s : list ascii) : Prop :=
  ∃ ws sg ds rest, s = ws ++ sg ++ ds ++ rest ∧ number ws sg ds.

(** The text is a number and nothing else. *)
Definition is_number (s : list ascii) : Prop :=
  ∃ ws sg ds, s = ws ++ sg ++ ds ∧ number ws sg ds.

(** No further digit follows. *)
Definition digits_end (rest : list ascii) : Prop :=
  match rest with
  | c :: _ => isdigit c = false
  | [] => True
  end.

(** The number is one [parse] lets pass its first check: negative, or at
    most [UINT32_MAX]. *)
Definition passes_check (sg ds : list ascii) : Prop :=
  sg = ["-"%char] ∨ digits_value 0 ds <= UINT32_MAX.

(** A string of the form "<gen>:<pos>": the rendering of a valid position. *)
Definition well_formed (s : string) : Prop := ∃ p, valid p ∧ s = str p.

End channel_position.

(** ** The recorder ([recorder.cpp]) *)

Module recorder.

(** *** [std::string::find] and [std::string::replace] *)

Fixpoint is_prefix (f s : list ascii) : bool :=
  match f, s with
  | [], _ => true
  | c :: f', d :: s' => Ascii.eqb c d && is_prefix f' s'
  | _ :: _, [] => false
  end.

(** The lowest index at which [f] occurs in [s]. *)
Fixpoint find_first (f s : list ascii) : option nat :=
  if is_prefix f s then Some O
  else match s with
       | [] => None
       | _ :: s' => S <$> find_first f s'
       end.

(** [s.find(f, pos)]: the lowest index not below [pos] at which [f]
    occurs; [npos], here [None], when there is none or [pos] is beyond the
    end. *)
Definition find (f : list ascii) (pos : nat) (s : list ascii) : option nat :=
  if (pos <=? length s)%nat then (λ k, (pos + k)%nat) <$> find_first f (drop pos s)
  else None.

(** [s.replace(pos, len, r)] for a [pos] within [s], as [find] returns it. *)
Definition replace (pos len : nat) (r s : list ascii) : list ascii :=
  take pos s ++ r ++ drop (pos + len) s.

(** *** [escape_slashes] *)

Definition f : list ascii := ["/"%char].
Definition r : list ascii := list_ascii_of_string "{slash}".

(** The [while] loop on [result] and [i]; [None] when [fuel] iterations do
    not end it. *)
Fixpoint escape_loop (fuel : nat) (result : list ascii) (i : nat) : option (list ascii) :=
  match fuel with
  | O => None
  | S fuel' =>
      match find f i result with
      | None => Some result
      | Some j => escape_loop fuel' (replace j (length f) r result) (j + length r)
      end
  end.

(** Every iteration but the last removes a slash of [s], so one iteration
    more than [s] has characters is enough. *)
Definition escape_slashes (s : string) : option string :=
  string_of_list_ascii
    <$> escape_loop (S (String.length s)) (list_ascii_of_string s) O.

(** What the loop is meant to compute: every slash replaced, every other
    character kept. *)
Definition escape_char (c : ascii) : list ascii :=
  if Ascii.eqb c "/" then r else [c].

Definition escaped (s : list ascii) : list ascii := flat_map escape_char s.

Definition slashes (s : list ascii) : nat :=
  length (filter (λ c, c = "/"%char) s).

Definition no_slash (s : list ascii) : Prop := Forall (λ c, c ≠ "/"%char) s.

(** *** [video_stream]

    The class holds two optional references, to the subscription of the
    upstream and to the sink, and forwards the signals of the stream.  What
    it does to its collaborators is recorded as a list of events, oldest
    first.  [packet], [error] and [subscription] stand for
    [encoded_packet], [std::error_condition] and [streams::subscription],
    none of which the class inspects. *)
Section VideoStream.

Context {packet error subscription : Type}.

Inductive event : Type :=
| Subscribe (original : bool)
| Cancel (s : subscription)
| SinkOnSubscribe (s : subscription)
| SinkOnNext (pkt : packet)
| SinkOnComplete
| Done (ec : option error).

(** [_input_config]'s channel and resolution, [_subscription], whether
    [_sink] is initialized, and the events so far. *)
Record video_stream : Type := mk_video_stream {
  input_channel : option string;
  resolution : string;
  _subscription : option subscription;
  _sink : bool;
  events : list event }.

Definition emit (e : event) (v : video_stream) : video_stream :=
  mk_video_stream (input_channel v) (resolution v) (_subscription v) (_sink v)
    (events v ++ [e]).

Definition set_subscription (s : option subscription) (v : video_stream) :=
  mk_video_stream (input_channel v) (resolution v) s (_sink v) (events v).

Definition set_sink (k : bool) (v : video_stream) :=
  mk_video_stream (input_channel v) (resolution v) (_subscription v) k (events v).

(** [video_stream::stop] *)
Definition stop (v : video_stream) : video_stream :=
  let v :=
    match _subscription v with
    | Some s => set_subscription None (emit (Cancel s) v)
    | None => v
    end in
  if _sink v then set_sink false (emit SinkOnComplete v) else v.

(** [video_stream::connect]: the publisher is chosen by the resolution, the
    sink is created, and the stream subscribes itself to the publisher. *)
Definition connect (v : video_stream) : outcome video_stream :=
  match input_channel v with
  | None => Fatal CheckFailed
  | Some _ =>
      match _subscription v with
      | Some _ => Fatal CheckFailed
      | None =>
          if _sink v then Fatal CheckFailed
          else Ok (emit (Subscribe (bool_decide (resolution v = "original"%string)))
                     (set_sink true v))
      end
  end.

(** The constructor: the members as initialized, then [connect]. *)
Definition new (channel : option string) (res : string) : outcome video_stream :=
  connect (mk_video_stream channel res None false []).

(** The two checks at the head of [on_next], [on_error] and [on_complete]. *)
Definition check_live (v : video_stream) : outcome subscription :=
  match _subscription v with
  | Some s => if _sink v then Ok s else Fatal CheckFailed
  | None => Fatal CheckFailed
  end.

Definition on_next (pkt : packet) (v : video_stream) : outcome video_stream :=
  _ ← check_live v; Ok (emit (SinkOnNext pkt) v).

Definition on_error (ec : error) (v : video_stream) : outcome video_stream :=
  _ ← check_live v; Ok (emit (Done (Some ec)) (stop v)).

Definition on_complete (v : video_stream) : outcome video_stream :=
  _ ← check_live v; Ok (emit (Done None) (stop v)).

Definition on_subscribe (s : subscription) (v : video_stream) : outcome video_stream :=
  match _subscription v with
  | Some _ => Fatal CheckFailed
  | None =>
      if _sink v then Ok (emit (SinkOnSubscribe s) (set_subscription (Some s) v))
      else Fatal CheckFailed
  end.

(** What can reach a stream once it is constructed: the four signals of
    the upstream, and [stop] (also run by the destructor). *)
Inductive call : Type :=
| OnSubscribe (s : subscription)
| OnNext (pkt : packet)
| OnError (ec : error)
| OnComplete
| Stop.

Definition handle (c : call) (v : video_stream) : outcome video_stream :=
  match c with
  | OnSubscribe s => on_subscribe s v
  | OnNext pkt => on_next pkt v
  | OnError ec => on_error ec v
  | OnComplete => on_complete v
  | Stop => Ok (stop v)
  end.

Fixpoint run (cs : list call) (v : video_stream) : outcome video_stream :=
  match cs with
  | [] => Ok v
  | c :: cs' => v' ← handle c v; run cs' v'
  end.

(** The events the sink sees. *)
Definition is_sink_event (e : event) : bool :=
  match e with
  | SinkOnSubscribe _ | SinkOnNext _ | SinkOnComplete => true
  | _ => false
  end.

Definition is_cancel (e : event) : bool :=
  match e with Cancel _ => true | _ => false end.

Definition is_sink_complete (e : event) : bool :=
  match e with SinkOnComplete => true | _ => false end.

Definition is_done (e : event) : bool :=
  match e with Done _ => true | _ => false end.

End VideoStream.

Arguments event : clear implicits.
Arguments video_stream : clear implicits.
Arguments call : clear implicits.

End recorder.

(** *** Notions the properties of [video_stream] are stated with *)

Module recorder_notions.
Import recorder.
Section Notions.
Context {packet error subscription : Type}.
Local Abbreviation event := (recorder.event packet error subscription).
Local Abbreviation video_stream := (recorder.video_stream packet error subscription).

(** The events a stream has left since its construction, by the state it
    is in: connected, live, or stopped (before or after it was subscribed,
    with or without a report to the done callback). *)
Definition stopped_trace (body : list event) : Prop :=
  body = [SinkOnComplete]
  ∨ ∃ s pkts fin,
      body = SinkOnSubscribe s :: map SinkOnNext pkts ++ [Cancel s; SinkOnComplete] ++ fin
      ∧ (fin = [] ∨ ∃ ec, fin = [Done ec]).

Definition well_traced (v : video_stream) : Prop :=
  ∃ original body,
    events v = Subscribe original :: body
    ∧ ((_subscription v = None ∧ _sink v = true ∧ body = [])
       ∨ (∃ s pkts, _subscription v = Some s ∧ _sink v = true
                    ∧ body = SinkOnSubscribe s :: map SinkOnNext pkts)
       ∨ (_subscription v = None ∧ _sink v = false ∧ stopped_trace body)).

Definition count_events (p : event → bool) (v : video_stream) : nat :=
  length (List.filter p (events v)).

End Notions.
End recorder_notions.

(** ** Notions the properties are stated with *)

(** A message as it must look once drained for the bot [bot_id]. *)
Definition stamped (bot_id : string) (m : bot_message) : Prop :=
  is_object (msg_data m) = true
  ∧ (string_empty bot_id = false → get_field "from" (msg_data m) = Some (JStr bot_id))
  ∧ (0 ≤ i1 (msg_id m) →
     get_field "i" (msg_data m) = Some (JArr [JInt (i1 (msg_id m)); JInt (i2 (msg_id m))])).

(** [m'] is [m] after the drain: same kind and frame id, stamped, and every
    field the stamp does not write is as before. *)
Definition stamp_of (bot_id : string) (m m' : bot_message) : Prop :=
  msg_kind m' = msg_kind m
  ∧ msg_id m' = msg_id m
  ∧ stamped bot_id m'
  ∧ (∀ k : string, k ≠ "i" → k ≠ "from" → get_field k (msg_data m') = get_field k (msg_data m))
  ∧ (i1 (msg_id m) < 0 → get_field "i" (msg_data m') = get_field "i" (msg_data m))
  ∧ (string_empty bot_id = true → get_field "from" (msg_data m') = get_field "from" (msg_data m)).

(** Every buffered message carries an object. *)
Definition buffer_ok {U} (b : bot_instance U) : Prop :=
  Forall (λ m, is_object (msg_data m) = true) (_message_buffer b).

(** The frame id [queue_message] is specified to record. *)
Definition both_zero (id : frame_id) : Prop := i1 id = 0 ∧ i2 id = 0.
Definition both_nonzero (id : frame_id) : Prop := i1 id ≠ 0 ∧ i2 id ≠ 0.

(** The image frames of a batch, as the callback is to see them. *)
Definition frame_view (f : owned_image_frame) : image_frame :=
  mk_image_frame (f_id f) (map plane_pointer (take max_image_planes (f_plane_data f))).

Fixpoint batch_frames {M} (pp : list (owned_image_packet M)) : list owned_image_frame :=
  match pp with
  | [] => []
  | PacketFrame f :: rest => f :: batch_frames rest
  | PacketMetadata _ :: rest => batch_frames rest
  end.

(** The image frames carried by the batches of a source. *)
Fixpoint source_frames {M} (src : list (bot_input M)) : list owned_image_frame :=
  match src with
  | [] => []
  | InPackets pp :: rest => batch_frames pp ++ source_frames rest
  | InControl _ :: rest => source_frames rest
  end.

(** The image frames among the elements of an output list. *)
Fixpoint output_frames {M} (out : list (bot_output M)) : list owned_image_frame :=
  match out with
  | [] => []
  | OutFrame f :: rest => f :: output_frames rest
  | _ :: rest => output_frames rest
  end.

Definition same_geometry (f : owned_image_frame) (md : image_metadata) : Prop :=
  f_width f = md_width md ∧ f_height f = md_height md.

(** Handling the elements of an array one after the other, each on the
    instance the previous one left: the outputs, element by element, and
    the instance at the end. *)
Inductive element_wise {U M}
    (handle : json → bot_instance U → outcome (list (bot_output M) * bot_instance U))
    : list json → bot_instance U → list (list (bot_output M)) → bot_instance U → Prop :=
| element_wise_nil b : element_wise handle [] b [] b
| element_wise_cons el rest b out b1 outs b2 :
    handle el b = Ok (out, b1) →
    element_wise handle rest b1 outs b2 →
    element_wise handle (el :: rest) b (out :: outs) b2.

(** A control message is dropped: no output, the control callback is not
    invoked, the user state and the buffer are untouched. *)
Definition dropped {U M} (msg : json) (b : bot_instance U) : Prop :=
  ∃ b', operator_call_json msg b = Ok ([] : list (bot_output M), b')
        ∧ ctrl_calls b' = ctrl_calls b
        ∧ instance_data b' = instance_data b
        ∧ _message_buffer b' = _message_buffer b.

(** The bot messages among the elements of an output list, in order. *)
Fixpoint output_messages {M} (out : list (bot_output M)) : list bot_message :=
  match out with
  | [] => []
  | OutMessage m :: rest => m :: output_messages rest
  | _ :: rest => output_messages rest
  end.

(** The value of a labelled counter; a label never incremented counts 0. *)
Definition counter (label : string) (c : gmap string nat) : nat :=
  default 0%nat (c !! label).

Definition kind_eqb (k1 k2 : bot_message_kind) : bool :=
  match k1, k2 with
  | ANALYSIS, ANALYSIS | DEBUG, DEBUG | CONTROL, CONTROL => true
  | _, _ => false
  end.

(** How many of the messages are of kind [k]. *)
Definition count_kind (k : bot_message_kind) (msgs : list bot_message) : nat :=
  length (filter (λ m, kind_eqb (msg_kind m) k = true) msgs).

(** How many times the control overload is entered for a message: once for
    the message, and once more for everything inside an array. *)
Fixpoint control_inputs (msg : json) : nat :=
  match msg with
  | JArr elements => S (list_sum (map control_inputs elements))
  | _ => 1%nat
  end.

(** The callbacks of a descriptor never call [set_current_frame_id]. *)
Definition no_frame_id_call (calls : list api_call) : Prop :=
  ∀ id, SetCurrentFrameId id ∉ calls.

Definition keeps_frame_id {U} (d : multiframe_bot_descriptor U) : Prop :=
  (∀ u md frames, no_frame_id_call (img_callback d u md frames).2)
  ∧ (∀ cb u md msg, ctrl_callback d = Some cb → no_frame_id_call (cb u md msg).1.2).

(** The messages a callback's calls ask to queue: kind and data, in order. *)
Fixpoint queued_by (calls : list api_call) : list (bot_message_kind * json) :=
  match calls with
  | [] => []
  | QueueMessage kind message _ :: rest => (kind, message) :: queued_by rest
  | SetCurrentFrameId _ :: rest => queued_by rest
  end.

Definition kind_and_data (m : bot_message) : bot_message_kind * json :=
  (msg_kind m, msg_data m).

(** What one step of the instance, from [b] to [b'] with output [out],
    keeps: the identity of the bot; the order of the messages (what is
    emitted is a prefix of the buffer followed by the messages queued during
    the step, stamped, and the rest stays buffered); that buffered data are
    objects; the sent counters in step with the emitted messages; and the
    current frame id, when no callback sets it. *)
Definition step_ok {U M} (b : bot_instance U) (out : list (bot_output M))
    (b' : bot_instance U) : Prop :=
  _bot_id b' = _bot_id b
  ∧ _descriptor b' = _descriptor b
  ∧ (∃ emitted queued,
       emitted ++ _message_buffer b' = _message_buffer b ++ queued
       ∧ output_messages out = map (stamp (_bot_id b)) emitted)
  ∧ (buffer_ok b → buffer_ok b')
  ∧ (∀ k, counter (kind_label k) (messages_sent (stats b'))
          = (counter (kind_label k) (messages_sent (stats b))
             + count_kind k (output_messages out))%nat)
  ∧ (keeps_frame_id (_descriptor b) → _current_frame_id b' = _current_frame_id b).

(** [b] is [b0] with the messages [pend] pending in front of its buffer;
    the counters of sent messages, which count the pending ones when they
    are drained, are left open. *)
Definition pending_before {U} (pend : list bot_message) (b0 b : bot_instance U) : Prop :=
  ∃ sent,
    b = with_stats (mk_metrics sent (messages_received (stats b0))
                      (frame_batch_processed_total (stats b0)) (frame_size (stats b0)))
          (with_message_buffer (pend ++ _message_buffer b0) b0).

(** How a step started with [pend] pending, which gives [out] and [b'],
    compares with the same step started with nothing pending, which gives
    [out0] and [b0']: either the pending messages are emitted, stamped and
    in order, in one block in front of the first message of [out0], or they
    are still pending and no message is emitted at all; nothing else
    differs. *)
Definition pending_first {U M} (bot_id : string) (pend : list bot_message)
    (out0 : list (bot_output M)) (b0' : bot_instance U)
    (out : list (bot_output M)) (b' : bot_instance U) : Prop :=
  _message_buffer b0' = []
  ∧ ((_message_buffer b' = [] ∧ pending_before [] b0' b'
      ∧ ∃ pre post,
          out0 = pre ++ post ∧ output_messages pre = []
          ∧ out = pre ++ map OutMessage (map (stamp bot_id) pend) ++ post)
     ∨ (_message_buffer b' = pend ∧ pending_before pend b0' b'
        ∧ out = out0 ∧ output_messages out = [])).

(** A step [f] treats pending messages as [pending_first] says, and keeps
    the id of the bot. *)
Definition frames_pending {U M}
    (f : bot_instance U → outcome (list (bot_output M) * bot_instance U)) : Prop :=
  ∀ pend b0 b out b',
    pending_before pend b0 b → _message_buffer b0 = [] →
    f b = Ok (out, b') →
    ∃ out0 b0', f b0 = Ok (out0, b0') ∧ _bot_id b0' = _bot_id b0
                ∧ pending_first (_bot_id b0) pend out0 b0' out b'.

(** ** Sample instances, for the examples below *)

(** A bot without user state whose image callback queues nothing and whose
    control callback answers [response] to every command. *)
Definition answering (response : json) : multiframe_bot_descriptor unit :=
  mk_descriptor (λ u _ _, (u, [])) (Some (λ u _ _, (u, [], response))).

(** The same without a control callback. *)
Definition without_control : multiframe_bot_descriptor unit :=
  mk_descriptor (λ u _ _, (u, [])) None.

Definition no_metrics : metrics := mk_metrics ∅ ∅ 0 [].

(** A freshly constructed instance: no metadata, nothing buffered. *)
Definition new_instance (bot_id : string) (d : multiframe_bot_descriptor unit)
    : bot_instance unit :=
  mk_bot_instance bot_id d (mk_image_metadata 0 0 [0; 0; 0; 0]%N) []
    (mk_frame_id 0 0) tt no_metrics [] [].

Definition sample_frame (id : frame_id) (w h : N) : owned_image_frame :=
  mk_owned_image_frame id w h [w; 0; 0; 0]%N ["data"; ""; ""; ""]%string.

(** A bot named "b1" in the middle of frame [(20,21)], with one analysis
    message [{"x": 3}] pending. *)
Definition analysis_x3 : bot_message :=
  mk_bot_message (JObj {[ "x" := JInt 3 ]}) ANALYSIS (mk_frame_id 20 21).

Definition busy_b1 : bot_instance unit :=
  with_message_buffer [analysis_x3]
    (with_current_frame_id (mk_frame_id 20 21) (new_instance "b1" without_control)).

(** A bot whose image callback queues [{"x": 3}] for every batch. *)
Definition analysing : multiframe_bot_descriptor unit :=
  mk_descriptor
    (λ u _ _, (u, [QueueMessage ANALYSIS (JObj {[ "x" := JInt 3 ]}) (mk_frame_id 20 21)]))
    None.

(** The control messages of the routing scenario. *)
Definition ping (to : string) : json :=
  JObj {[ "to" := JStr to; "request_id" := JStr "r"; "action" := JStr "ping" ]}.

Definition pong : json := JObj {[ "pong" := JBool true ]}.

(** The same bot with the analysing image callback. *)
Definition busy_analysing : bot_instance unit :=
  with_message_buffer [analysis_x3] (new_instance "b1" analysing).

Definition frame_640x480 : owned_image_frame :=
  sample_frame (mk_frame_id 10 11) 640 480.

(** * Properties *)

(** ** JSON *)

(** Induction over JSON values that descends into arrays. *)
Lemma json_array_ind (P : json → Prop) :
  P JNull → (∀ b, P (JBool b)) → (∀ z, P (JInt z)) → (∀ s, P (JStr s)) →
  (∀ l, Forall P l → P (JArr l)) → (∀ m, P (JObj m)) →
  ∀ j, P j.
Proof.
  intros Hnull Hbool Hint Hstr Harr Hobj.
  fix IH 1. intros [ | b | z | s | l | m ].
  - exact Hnull.
  - exact (Hbool b).
  - exact (Hint z).
  - exact (Hstr s).
  - apply Harr. induction l as [ | j l IHl ]; constructor; [ exact (IH j) | exact IHl ].
  - exact (Hobj m).
Qed.

Lemma get_set_eq k v j : is_object j = true → get_field k (set_field k v j) = Some v.
Proof. destruct j; try discriminate. intros _. simpl. apply lookup_insert_eq. Qed.

Lemma get_set_ne k k' v j : k ≠ k' → get_field k' (set_field k v j) = get_field k' j.
Proof. intros Hne. destruct j; try reflexivity. simpl. by apply lookup_insert_ne. Qed.

Lemma is_object_set k v j : is_object (set_field k v j) = is_object j.
Proof. by destruct j. Qed.

Lemma string_empty_spec s : string_empty s = true ↔ s = ""%string.
Proof. destruct s; simpl; split; congruence. Qed.

(** ** Outcomes *)

Lemma bind_ok {A B} (m : outcome A) (k : A → outcome B) (r : B) :
  m ≫= k = Ok r → ∃ a, m = Ok a ∧ k a = Ok r.
Proof. destruct m as [a | f]; simpl; [ eauto | discriminate ]. Qed.

(** ** The bot instance *)

Section BotInstanceFacts.

Context {U owned_image_metadata : Type}.

Local Abbreviation instance := (bot_instance U).
Local Abbreviation output := (bot_output owned_image_metadata).
Local Abbreviation packet := (owned_image_packet owned_image_metadata).

Implicit Types (b : instance) (m : bot_message) (id : frame_id).

(** *** Stamping *)

Lemma stamp_spec bot_id m :
  is_object (msg_data m) = true → stamp_of bot_id m (stamp bot_id m).
Proof.
  intros Hobj. unfold stamp_of, stamped, stamp. simpl.
  assert (Hi : is_object
                 (if 0 <=? i1 (msg_id m)
                  then set_field "i" (JArr [JInt (i1 (msg_id m)); JInt (i2 (msg_id m))]) (msg_data m)
                  else msg_data m) = true).
  { destruct (0 <=? i1 (msg_id m)); [ by rewrite is_object_set | done ]. }
  repeat split.
  - destruct (negb (string_empty bot_id)); [ by rewrite is_object_set | done ].
  - intros Hne. rewrite Hne. simpl. by apply get_set_eq.
  - intros Hpos. apply Z.leb_le in Hpos. rewrite Hpos.
    destruct (negb (string_empty bot_id)).
    + rewrite get_set_ne by done. by apply get_set_eq.
    + by apply get_set_eq.
  - intros k Hk1 Hk2.
    destruct (negb (string_empty bot_id)); [ rewrite get_set_ne by done | ];
      (destruct (0 <=? i1 (msg_id m)); [ by rewrite get_set_ne | done ]).
  - intros Hneg. apply Z.leb_gt in Hneg. rewrite Hneg.
    destruct (negb (string_empty bot_id)); [ by rewrite get_set_ne | done ].
  - intros Hempty. rewrite Hempty. simpl.
    destruct (0 <=? i1 (msg_id m)); [ by rewrite get_set_ne | done ].
Qed.

Lemma prepare_messages_ok bot_id msgs sent out sent' :
  prepare_messages bot_id msgs sent = Ok (out, sent') →
  out = map (stamp bot_id) msgs
  ∧ Forall (λ m, is_object (msg_data m) = true) msgs.
Proof.
  revert sent out sent'. induction msgs as [ | m msgs IH ]; intros sent out sent' H.
  - simpl in H. injection H as <- <-. by split.
  - simpl in H. destruct (is_object (msg_data m)) eqn:Hobj; [ | discriminate ].
    apply bind_ok in H as ([rest' s'] & Hrest & H). injection H as <- <-.
    apply IH in Hrest as [-> Hall]. split; [ done | by constructor ].
Qed.

Lemma prepare_messages_total bot_id msgs sent :
  Forall (λ m, is_object (msg_data m) = true) msgs →
  ∃ sent', prepare_messages bot_id msgs sent = Ok (map (stamp bot_id) msgs, sent').
Proof.
  intros Hall. revert sent. induction Hall as [ | m msgs Hm _ IH ]; intros sent.
  - by exists sent.
  - simpl. rewrite Hm.
    destruct (IH (increment (kind_label (msg_kind m)) sent)) as [sent' ->].
    by exists sent'.
Qed.

Lemma prepare_messages_fatal bot_id msgs sent :
  Exists (λ m, is_object (msg_data m) = false) msgs →
  prepare_messages bot_id msgs sent = Fatal CheckFailed.
Proof.
  intros Hex. revert sent. induction Hex as [ m msgs Hm | m msgs _ IH ]; intros sent.
  - simpl. by rewrite Hm.
  - simpl. destruct (is_object (msg_data m)); [ | done ]. by rewrite IH.
Qed.

Lemma prepare_ok b b' :
  prepare_message_buffer_for_downstream b = Ok b' →
  _message_buffer b' = map (stamp (_bot_id b)) (_message_buffer b)
  ∧ buffer_ok b
  ∧ _bot_id b' = _bot_id b ∧ _descriptor b' = _descriptor b
  ∧ _image_metadata b' = _image_metadata b
  ∧ _current_frame_id b' = _current_frame_id b
  ∧ instance_data b' = instance_data b
  ∧ ctrl_calls b' = ctrl_calls b ∧ img_calls b' = img_calls b.
Proof.
  unfold prepare_message_buffer_for_downstream. intros H.
  apply bind_ok in H as ([buf sent] & Hp & H). injection H as <-.
  apply prepare_messages_ok in Hp as [-> Hall]. by repeat split.
Qed.

Lemma prepare_total b :
  buffer_ok b → ∃ b', prepare_message_buffer_for_downstream b = Ok b'.
Proof.
  intros Hok. unfold prepare_message_buffer_for_downstream.
  destruct (prepare_messages_total (_bot_id b) _ (messages_sent (stats b)) Hok)
    as [sent' ->].
  simpl. eauto.
Qed.

Lemma stamped_after_prepare b b' :
  prepare_message_buffer_for_downstream b = Ok b' →
  Forall (stamped (_bot_id b)) (_message_buffer b').
Proof.
  intros H. apply prepare_ok in H as (-> & Hall & _).
  apply Forall_map. unfold buffer_ok in Hall.
  eapply Forall_impl; [ exact Hall | ].
  intros m Hm. by destruct (stamp_spec (_bot_id b) m Hm) as (_ & _ & ? & _).
Qed.

(** *** [queue_message] *)

Lemma queue_message_ok kind message id b b' :
  queue_message kind message id b = Ok b' →
  is_object message = true
  ∧ (∃ effective,
       _message_buffer b' = _message_buffer b ++ [mk_bot_message message kind effective])
  ∧ _bot_id b' = _bot_id b ∧ _descriptor b' = _descriptor b
  ∧ _image_metadata b' = _image_metadata b
  ∧ _current_frame_id b' = _current_frame_id b
  ∧ instance_data b' = instance_data b
  ∧ ctrl_calls b' = ctrl_calls b ∧ img_calls b' = img_calls b.
Proof.
  unfold queue_message. intros H.
  destruct (is_object message); [ | discriminate ].
  injection H as <-. simpl. repeat split; eauto.
Qed.

Lemma queue_message_buffer_ok kind message id b b' :
  queue_message kind message id b = Ok b' → buffer_ok b → buffer_ok b'.
Proof.
  intros H Hok. apply queue_message_ok in H as (Hobj & [eff Hbuf] & _).
  unfold buffer_ok. rewrite Hbuf. apply Forall_app. split; [ done | ].
  by constructor.
Qed.

(** C3 (amended).  For every call [queue_message(kind, data, id)] with an
    object as data, the message is appended to the buffer with kind and data
    as passed.  Its frame id is [_current_frame_id] when [id == (0,0)] and
    both components of [_current_frame_id] are non-zero; in every other case
    it is the passed [id]. *)
Theorem queue_message_effective_frame_id kind message id b :
  is_object message = true →
  ∃ effective,
    queue_message kind message id b
    = Ok (with_message_buffer
            (_message_buffer b ++ [mk_bot_message message kind effective]) b)
    ∧ (both_zero id ∧ both_nonzero (_current_frame_id b) →
       effective = _current_frame_id b)
    ∧ (¬ (both_zero id ∧ both_nonzero (_current_frame_id b)) → effective = id).
Proof.
  intros Hobj. unfold queue_message, both_zero, both_nonzero. rewrite Hobj.
  destruct (i1 id =? 0) eqn:E1, (i2 id =? 0) eqn:E2,
    (i1 (_current_frame_id b) =? 0) eqn:E3, (i2 (_current_frame_id b) =? 0) eqn:E4;
    simpl; eexists; (split; [ reflexivity | ]);
    rewrite ?Z.eqb_eq, ?Z.eqb_neq in *; split; intros; tauto.
Qed.

(** *** The callbacks *)

Lemma run_calls_ok calls b b' :
  run_calls calls b = Ok b' →
  (∃ queued, _message_buffer b' = _message_buffer b ++ queued
             ∧ map kind_and_data queued = queued_by calls)
  ∧ _bot_id b' = _bot_id b ∧ _descriptor b' = _descriptor b
  ∧ _image_metadata b' = _image_metadata b
  ∧ instance_data b' = instance_data b
  ∧ ctrl_calls b' = ctrl_calls b ∧ img_calls b' = img_calls b.
Proof.
  revert b. induction calls as [ | c calls IH ]; intros b H.
  - injection H as <-. repeat split; try done. exists []. by rewrite app_nil_r.
  - simpl in H. apply bind_ok in H as (b1 & Hc & H).
    apply IH in H as ([q [Hq1 Hq2]] & -> & -> & -> & -> & -> & ->).
    destruct c as [kind message id | id]; simpl in Hc.
    + apply queue_message_ok in Hc as (_ & [eff Hbuf] & ? & ? & ? & _ & ? & ? & ?).
      repeat split; try done.
      exists (mk_bot_message message kind eff :: q). split.
      * by rewrite Hq1, Hbuf, <- app_assoc.
      * simpl. by rewrite Hq2.
    + injection Hc as <-. repeat split; try done. by exists q.
Qed.

Lemma run_calls_buffer_ok calls b b' :
  run_calls calls b = Ok b' → buffer_ok b → buffer_ok b'.
Proof.
  revert b. induction calls as [ | c calls IH ]; intros b H Hok.
  - by injection H as <-.
  - simpl in H. apply bind_ok in H as (b1 & Hc & H).
    apply (IH b1); [ done | ].
    destruct c as [kind message id | id]; simpl in Hc.
    + by eapply queue_message_buffer_ok.
    + by injection Hc as <-.
Qed.

Lemma call_img_callback_ok frames b b' :
  call_img_callback frames b = Ok b' →
  (∃ u calls queued,
     img_callback (_descriptor b) (instance_data b) (_image_metadata b) frames = (u, calls)
     ∧ instance_data b' = u
     ∧ _message_buffer b' = _message_buffer b ++ queued
     ∧ map kind_and_data queued = queued_by calls)
  ∧ img_calls b' = img_calls b ++ [frames]
  ∧ ctrl_calls b' = ctrl_calls b
  ∧ _bot_id b' = _bot_id b ∧ _descriptor b' = _descriptor b
  ∧ _image_metadata b' = _image_metadata b
  ∧ (buffer_ok b → buffer_ok b').
Proof.
  unfold call_img_callback. intros H.
  destruct (img_callback _ _ _ _) as [u calls] eqn:Hcb.
  pose proof (run_calls_buffer_ok _ _ _ H) as Hbuf.
  apply run_calls_ok in H as ([q [Hq1 Hq2]] & ? & ? & ? & ? & ? & ?).
  repeat split; try done. by exists u, calls, q.
Qed.

Lemma call_ctrl_callback_ok cmd b response b' :
  call_ctrl_callback cmd b = Ok (response, b') →
  (∃ cb u calls queued,
     ctrl_callback (_descriptor b) = Some cb
     ∧ cb (instance_data b) (_image_metadata b) cmd = (u, calls, response)
     ∧ instance_data b' = u
     ∧ _message_buffer b' = _message_buffer b ++ queued
     ∧ map kind_and_data queued = queued_by calls)
  ∧ ctrl_calls b' = ctrl_calls b ++ [cmd]
  ∧ img_calls b' = img_calls b
  ∧ _bot_id b' = _bot_id b ∧ _descriptor b' = _descriptor b
  ∧ _image_metadata b' = _image_metadata b
  ∧ (buffer_ok b → buffer_ok b').
Proof.
  unfold call_ctrl_callback. intros H.
  destruct (ctrl_callback (_descriptor b)) as [cb | ] eqn:Hcb; [ | discriminate ].
  destruct (cb _ _ _) as [[u calls] resp] eqn:Hcall.
  apply bind_ok in H as (b1 & Hrun & H). injection H as <- <-.
  pose proof (run_calls_buffer_ok _ _ _ Hrun) as Hbuf.
  apply run_calls_ok in Hrun as ([q [Hq1 Hq2]] & ? & ? & ? & ? & ? & ?).
  repeat split; try done. by exists cb, u, calls, q.
Qed.

(** *** [extract_frames] *)

Lemma latch_metadata_ok frame b b' :
  latch_metadata frame b = Ok b' →
  md_width (_image_metadata b') = f_width frame
  ∧ md_height (_image_metadata b') = f_height frame
  ∧ ((md_width (_image_metadata b) ≠ 0)%N → b' = b)
  ∧ _bot_id b' = _bot_id b ∧ _descriptor b' = _descriptor b
  ∧ _message_buffer b' = _message_buffer b
  ∧ _current_frame_id b' = _current_frame_id b
  ∧ instance_data b' = instance_data b ∧ stats b' = stats b
  ∧ ctrl_calls b' = ctrl_calls b ∧ img_calls b' = img_calls b.
Proof.
  unfold latch_metadata. intros H.
  destruct (f_width frame =? md_width (_image_metadata b))%N eqn:Ew;
    destruct (f_height frame =? md_height (_image_metadata b))%N eqn:Eh; simpl in H;
    rewrite ?N.eqb_eq, ?N.eqb_neq in *.
  1: { injection H as <-. by repeat split. }
  all: destruct (md_width (_image_metadata b) =? 0)%N eqn:E0; [ | discriminate ];
    apply N.eqb_eq in E0; injection H as <-; simpl; repeat split; try done;
    intros Hne; by destruct Hne.
Qed.

Lemma extract_frames_ok (packets : list output) b frames b' :
  extract_frames packets b = Ok (frames, b') →
  _bot_id b' = _bot_id b ∧ _descriptor b' = _descriptor b
  ∧ _message_buffer b' = _message_buffer b
  ∧ _current_frame_id b' = _current_frame_id b
  ∧ instance_data b' = instance_data b ∧ stats b' = stats b
  ∧ ctrl_calls b' = ctrl_calls b ∧ img_calls b' = img_calls b
  ∧ ((md_width (_image_metadata b) ≠ 0)%N → _image_metadata b' = _image_metadata b).
Proof.
  revert b frames. induction packets as [ | p packets IH ]; intros b frames H.
  - injection H as <- <-. by repeat split.
  - destruct p as [ meta | frame | msg ]; simpl in H; try by apply IH in H.
    apply bind_ok in H as (b1 & Hl & H).
    apply bind_ok in H as ([result b2] & Hrest & H). injection H as <- <-.
    apply IH in Hrest as (-> & -> & -> & -> & -> & -> & -> & -> & Hmd).
    apply latch_metadata_ok in Hl as (_ & _ & Hsame & ? & ? & ? & ? & ? & ? & ? & ?).
    repeat split; try done.
    intros Hne. specialize (Hsame Hne). subst b1. by apply Hmd.
Qed.

Lemma extract_frames_views (pp : list packet) b frames b' :
  extract_frames (map packet_output pp) b = Ok (frames, b') →
  frames = map frame_view (batch_frames pp).
Proof.
  revert b frames b'. induction pp as [ | p pp IH ]; [ intros b frames b' H | ].
  - by injection H as <- _.
  - intros b frames b' H.
    destruct p as [ meta | frame ]; simpl in H; [ by apply IH in H | ].
    apply bind_ok in H as (b1 & _ & H).
    apply bind_ok in H as ([result b2] & Hrest & H). injection H as <- _.
    apply IH in Hrest as ->. done.
Qed.

Lemma extract_frames_without_frames (pp : list packet) b :
  batch_frames pp = [] → extract_frames (map packet_output pp) b = Ok ([], b).
Proof.
  induction pp as [ | p pp IH ]; [ done | ].
  destruct p as [ meta | frame ]; simpl; [ exact IH | discriminate ].
Qed.

Lemma message_not_packet (pp : list packet) m :
  OutMessage m ∉ map packet_output pp.
Proof.
  intros Hin. apply list_elem_of_fmap in Hin as (p & Hp & _). by destruct p.
Qed.

(** *** [operator()] on a queue of packets *)

(** C10.  A batch without image frames passes through to the output
    unchanged; the image callback is not invoked and the message buffer is
    not drained: the buffered messages stay as they are, none is counted as
    sent and none is part of the output. *)
Theorem operator_call_packets_without_frames (pp : list packet) b :
  batch_frames pp = [] →
  ∃ b', operator_call_packets pp b = Ok (map packet_output pp, b')
        ∧ img_calls b' = img_calls b
        ∧ instance_data b' = instance_data b
        ∧ _message_buffer b' = _message_buffer b
        ∧ messages_sent (stats b') = messages_sent (stats b)
        ∧ ∀ m, OutMessage m ∉ map packet_output pp.
Proof.
  intros Hnone. unfold operator_call_packets.
  rewrite (extract_frames_without_frames pp _ Hnone). simpl.
  eexists. split; [ reflexivity | ]. simpl. repeat split; try done.
  apply message_not_packet.
Qed.

(** C4 (amended).  For every batch with at least one image frame that the
    instance processes without a fatal check, the image callback is
    dispatched once, with exactly the image frames of the batch in order
    (non-frame packets are not in its span), and the output is all packets
    of the batch in arrival order followed by the whole message buffer,
    stamped: the messages pending before the call, then those queued
    during the callback, as one flat list.  The buffer is left empty. *)
Theorem operator_call_packets_with_frames (pp : list packet) b out b' :
  batch_frames pp ≠ [] →
  operator_call_packets pp b = Ok (out, b') →
  ∃ u calls queued,
    img_callback (_descriptor b) (instance_data b) (_image_metadata b')
      (map frame_view (batch_frames pp)) = (u, calls)
    ∧ img_calls b' = img_calls b ++ [map frame_view (batch_frames pp)]
    ∧ instance_data b' = u
    ∧ map kind_and_data queued = queued_by calls
    ∧ out = map packet_output pp
            ++ map OutMessage (map (stamp (_bot_id b)) (_message_buffer b ++ queued))
    ∧ _message_buffer b' = [].
Proof.
  intros Hsome H. unfold operator_call_packets in H.
  apply bind_ok in H as ([bframes b1] & Hex & H).
  pose proof (extract_frames_views _ _ _ _ Hex) as ->.
  apply extract_frames_ok in Hex as (Hid & Hd & Hbuf & _ & Hu & _ & _ & Himg & _).
  destruct (map frame_view (batch_frames pp)) as [ | v views ] eqn:Hviews.
  { destruct (batch_frames pp); [ done | discriminate ]. }
  apply bind_ok in H as (b2 & Hcb & H).
  apply bind_ok in H as (b3 & Hprep & H). injection H as <- <-.
  apply call_img_callback_ok in Hcb
    as ((u & calls & q & Hcall & Hu' & Hq1 & Hq2) & Himg' & _ & Hid' & Hd' & Hmd' & _).
  apply prepare_ok in Hprep as (Hb3 & _ & Hid3 & _ & Hmd3 & _ & Hu3 & _ & Himg3).
  simpl in *. exists u, calls, q. repeat split.
  - rewrite Hmd3, Hmd'. by rewrite <- Hd, <- Hu.
  - by rewrite Himg3, Himg', Himg.
  - by rewrite Hu3.
  - done.
  - by rewrite Hb3, Hq1, Hid', Hid, Hbuf.
Qed.

(** *** Image metadata *)

Lemma elem_of_output_frames (packets : list output) f :
  f ∈ output_frames packets ↔ OutFrame f ∈ packets.
Proof.
  induction packets as [ | p packets IH ]; simpl.
  - split; intros H; by apply elem_of_nil in H.
  - destruct IH as [IH1 IH2].
    destruct p as [ meta | frame | msg ]; split; intros H.
    + apply elem_of_cons. right. auto.
    + apply elem_of_cons in H as [H | H]; [ discriminate | auto ].
    + apply elem_of_cons in H as [H | H]; apply elem_of_cons; [ left | right ].
      * by rewrite H.
      * auto.
    + apply elem_of_cons in H as [H | H]; apply elem_of_cons; [ left | right ].
      * by injection H.
      * auto.
    + apply elem_of_cons. right. auto.
    + apply elem_of_cons in H as [H | H]; [ discriminate | auto ].
Qed.

Lemma extract_frames_geometry (packets : list output) b frames b' :
  (∀ f, f ∈ output_frames packets → f_width f ≠ 0%N) →
  extract_frames packets b = Ok (frames, b') →
  ∀ f, f ∈ output_frames packets → same_geometry f (_image_metadata b').
Proof.
  revert b frames. induction packets as [ | p packets IH ]; intros b frames Hnz H f Hf.
  - by apply elem_of_nil in Hf.
  - destruct p as [ meta | frame | msg ]; simpl in *; try by eapply IH.
    apply bind_ok in H as (b1 & Hl & H).
    apply bind_ok in H as ([result b2] & Hrest & H). injection H as <- <-.
    apply elem_of_cons in Hf as [-> | Hf].
    + apply latch_metadata_ok in Hl as (Hw & Hh & _).
      apply extract_frames_ok in Hrest as (_ & _ & _ & _ & _ & _ & _ & _ & Hmd).
      unfold same_geometry. rewrite Hmd; [ done | ].
      rewrite Hw. apply Hnz. by left.
    + eapply IH; [ | exact Hrest | exact Hf ].
      intros g Hg. apply Hnz. by right.
Qed.

Lemma extract_frames_first (packets : list output) b frames b' f :
  md_width (_image_metadata b) = 0%N →
  head (output_frames packets) = Some f → f_width f ≠ 0%N →
  extract_frames packets b = Ok (frames, b') →
  _image_metadata b'
  = mk_image_metadata (f_width f) (f_height f) (take max_image_planes (f_plane_strides f)).
Proof.
  intros Hunset. revert b frames Hunset.
  induction packets as [ | p packets IH ]; intros b frames Hunset Hhead Hnz H.
  - discriminate.
  - destruct p as [ meta | frame | msg ]; simpl in *; try by eapply IH.
    injection Hhead as ->.
    apply bind_ok in H as (b1 & Hl & H).
    apply bind_ok in H as ([result b2] & Hrest & H). injection H as <- <-.
    apply extract_frames_ok in Hrest as (_ & _ & _ & _ & _ & _ & _ & _ & Hmd).
    unfold latch_metadata in Hl. rewrite Hunset in Hl.
    assert ((f_width f =? 0)%N = false) as Hw by by apply N.eqb_neq.
    rewrite Hw in Hl. simpl in Hl. injection Hl as <-. simpl in Hmd.
    by rewrite Hmd.
Qed.

Lemma extract_frames_mismatch (packets : list output) b :
  md_width (_image_metadata b) ≠ 0%N →
  (∃ f, f ∈ output_frames packets ∧ ¬ same_geometry f (_image_metadata b)) →
  extract_frames packets b = Fatal CheckFailed.
Proof.
  intros Hset (f & Hf & Hdiff).
  induction packets as [ | p packets IH ]; [ by apply elem_of_nil in Hf | ].
  destruct p as [ meta | frame | msg ]; simpl in *; try by apply IH.
  unfold latch_metadata.
  destruct (f_width frame =? md_width (_image_metadata b))%N eqn:Ew;
    destruct (f_height frame =? md_height (_image_metadata b))%N eqn:Eh; simpl;
    try (apply N.eqb_neq in Hset; by rewrite Hset).
  apply elem_of_cons in Hf as [-> | Hf].
  - apply N.eqb_eq in Ew, Eh. by destruct Hdiff.
  - by rewrite IH.
Qed.

(** *** What every call of the visitor preserves and emits *)

Lemma output_frames_app (o1 o2 : list output) :
  output_frames (o1 ++ o2) = output_frames o1 ++ output_frames o2.
Proof.
  induction o1 as [ | o o1 IH ]; [ done | ].
  destruct o; simpl; by rewrite ?IH.
Qed.

Lemma output_frames_messages (msgs : list bot_message) :
  output_frames (map (OutMessage (owned_image_metadata := owned_image_metadata)) msgs) = [].
Proof. by induction msgs. Qed.

Lemma output_frames_packets (pp : list packet) :
  output_frames (map packet_output pp) = batch_frames pp.
Proof.
  induction pp as [ | p pp IH ]; [ done | ]. destruct p; simpl; by rewrite IH.
Qed.

Lemma messages_of_buffer (msgs : list bot_message) m :
  OutMessage (owned_image_metadata := owned_image_metadata) m ∈ map OutMessage msgs →
  m ∈ msgs.
Proof.
  intros H. apply list_elem_of_fmap in H as (m' & Heq & Hin). by injection Heq as ->.
Qed.

Lemma control_single_ok msg b (out : list output) b' :
  control_single msg b = Ok (out, b') →
  _bot_id b' = _bot_id b ∧ _descriptor b' = _descriptor b
  ∧ _image_metadata b' = _image_metadata b
  ∧ output_frames out = []
  ∧ ∀ m, OutMessage m ∈ out → stamped (_bot_id b) m.
Proof.
  unfold control_single. intros H.
  destruct (negb (is_object msg) || negb (has_key "to" msg)).
  { injection H as <- <-. split_and!; try done. intros m Hm. by apply elem_of_nil in Hm. }
  destruct (string_empty (_bot_id b) || _).
  { injection H as <- <-. split_and!; try done. intros m Hm. by apply elem_of_nil in Hm. }
  apply bind_ok in H as ([response b1] & Hcb & H).
  apply bind_ok in H as (b2 & Hq & H).
  apply bind_ok in H as (b3 & Hprep & H). injection H as <- <-.
  apply call_ctrl_callback_ok in Hcb as (_ & _ & _ & Hid1 & Hd1 & Hmd1 & _).
  assert (_bot_id b2 = _bot_id b1 ∧ _descriptor b2 = _descriptor b1
          ∧ _image_metadata b2 = _image_metadata b1) as (Hid2 & Hd2 & Hmd2).
  { destruct (negb (is_null response)); [ | by injection Hq as <- ].
    destruct (is_object response); [ | discriminate ].
    by apply queue_message_ok in Hq as (_ & _ & ? & ? & ? & _). }
  pose proof (stamped_after_prepare _ _ Hprep) as Hst.
  apply prepare_ok in Hprep as (_ & _ & Hid3 & Hd3 & Hmd3 & _).
  simpl. split_and!.
  - by rewrite Hid3, Hid2, Hid1.
  - by rewrite Hd3, Hd2, Hd1.
  - by rewrite Hmd3, Hmd2, Hmd1.
  - apply output_frames_messages.
  - intros m Hm. apply messages_of_buffer in Hm.
    rewrite Hid2, Hid1 in Hst. rewrite Forall_forall in Hst. by apply Hst.
Qed.

Lemma operator_call_json_ok msg :
  ∀ b (out : list output) b',
    operator_call_json msg b = Ok (out, b') →
    _bot_id b' = _bot_id b ∧ _descriptor b' = _descriptor b
    ∧ _image_metadata b' = _image_metadata b
    ∧ output_frames out = []
    ∧ ∀ m, OutMessage m ∈ out → stamped (_bot_id b) m.
Proof.
  induction msg as [ | v | z | s | elements IH | obj ] using json_array_ind;
    intros b out b' H; simpl in H; try by apply control_single_ok in H.
  enough (∀ b0 (out : list output) b',
            each_element operator_call_json elements b0 = Ok (out, b') →
            _bot_id b' = _bot_id b0 ∧ _descriptor b' = _descriptor b0
            ∧ _image_metadata b' = _image_metadata b0
            ∧ output_frames out = []
            ∧ ∀ m, OutMessage m ∈ out → stamped (_bot_id b0) m) as Hall
    by exact (Hall _ _ _ H).
  clear b out b' H.
  induction IH as [ | el rest Hel _ IHrest ]; intros b out b' H; simpl in H.
  - injection H as <- <-. split_and!; try done. intros m Hm. by apply elem_of_nil in Hm.
  - apply bind_ok in H as ([o1 b1] & H1 & H).
    apply bind_ok in H as ([o2 b2] & H2 & H). injection H as <- <-.
    apply Hel in H1 as (Hid1 & Hd1 & Hmd1 & Hf1 & Hst1).
    apply IHrest in H2 as (Hid2 & Hd2 & Hmd2 & Hf2 & Hst2).
    split_and!.
    + by rewrite Hid2.
    + by rewrite Hd2.
    + by rewrite Hmd2.
    + by rewrite output_frames_app, Hf1, Hf2.
    + intros m Hm. apply elem_of_app in Hm as [Hm | Hm]; [ by apply Hst1 | ].
      rewrite <- Hid1. by apply Hst2.
Qed.

Lemma operator_call_packets_ok (pp : list packet) b out b' :
  operator_call_packets pp b = Ok (out, b') →
  _bot_id b' = _bot_id b ∧ _descriptor b' = _descriptor b
  ∧ ((md_width (_image_metadata b) ≠ 0)%N → _image_metadata b' = _image_metadata b)
  ∧ output_frames out = batch_frames pp
  ∧ (∀ m, OutMessage m ∈ out → stamped (_bot_id b) m)
  ∧ ((∀ f, f ∈ batch_frames pp → f_width f ≠ 0%N) →
     ∀ f, f ∈ batch_frames pp → same_geometry f (_image_metadata b')).
Proof.
  unfold operator_call_packets. intros H.
  apply bind_ok in H as ([bframes b1] & Hex & H).
  assert (Hgeo : (∀ f, f ∈ batch_frames pp → f_width f ≠ 0%N) →
                 ∀ f, f ∈ batch_frames pp → same_geometry f (_image_metadata b1)).
  { rewrite <- output_frames_packets. intros Hnz. by eapply extract_frames_geometry. }
  apply extract_frames_ok in Hex as (Hid & Hd & _ & _ & _ & _ & _ & _ & Hmd).
  simpl in Hid, Hd, Hmd.
  destruct bframes as [ | v views ].
  - injection H as <- <-. split_and!; try done.
    + apply output_frames_packets.
    + intros m Hm. by apply message_not_packet in Hm.
  - apply bind_ok in H as (b2 & Hcb & H).
    apply bind_ok in H as (b3 & Hprep & H). injection H as <- <-.
    apply call_img_callback_ok in Hcb as (_ & _ & _ & Hid2 & Hd2 & Hmd2 & _).
    pose proof (stamped_after_prepare _ _ Hprep) as Hst.
    apply prepare_ok in Hprep as (_ & _ & Hid3 & Hd3 & Hmd3 & _).
    simpl in *. split_and!.
    + by rewrite Hid3, Hid2.
    + by rewrite Hd3, Hd2.
    + intros Hne. rewrite Hmd3, Hmd2. by apply Hmd.
    + by rewrite output_frames_app, output_frames_messages, app_nil_r,
        output_frames_packets.
    + intros m Hm. apply elem_of_app in Hm as [Hm | Hm].
      * by apply message_not_packet in Hm.
      * apply messages_of_buffer in Hm. rewrite Hid2, Hid in Hst.
        rewrite Forall_forall in Hst. by apply Hst.
    + intros Hnz f Hf. rewrite Hmd3, Hmd2. by apply Hgeo.
Qed.

Lemma apply_visitor_ok (p : bot_input owned_image_metadata) b out b' :
  apply_visitor p b = Ok (out, b') →
  _bot_id b' = _bot_id b ∧ _descriptor b' = _descriptor b
  ∧ ((md_width (_image_metadata b) ≠ 0)%N → _image_metadata b' = _image_metadata b)
  ∧ (∀ m, OutMessage m ∈ out → stamped (_bot_id b) m).
Proof.
  destruct p as [ pp | msg ]; simpl; intros H.
  - by apply operator_call_packets_ok in H as (? & ? & ? & _ & ? & _).
  - apply operator_call_json_ok in H as (? & ? & Hmd & _ & ?). split_and!; try done.
Qed.

Lemma main_stream_ok (src : list (bot_input owned_image_metadata)) b out b' :
  main_stream src b = Ok (out, b') →
  _bot_id b' = _bot_id b ∧ _descriptor b' = _descriptor b
  ∧ ((md_width (_image_metadata b) ≠ 0)%N → _image_metadata b' = _image_metadata b)
  ∧ (∀ m, OutMessage m ∈ out → stamped (_bot_id b) m).
Proof.
  unfold main_stream. revert b out.
  induction src as [ | p src IH ]; intros b out H; simpl in H.
  - injection H as <- <-. split_and!; try done. intros m Hm. by apply elem_of_nil in Hm.
  - apply bind_ok in H as ([o1 b1] & H1 & H).
    apply bind_ok in H as ([o2 b2] & H2 & H). injection H as <- <-.
    apply apply_visitor_ok in H1 as (Hid1 & Hd1 & Hmd1 & Hst1).
    apply IH in H2 as (Hid2 & Hd2 & Hmd2 & Hst2).
    split_and!.
    + by rewrite Hid2.
    + by rewrite Hd2.
    + intros Hne. rewrite <- (Hmd1 Hne). apply Hmd2. by rewrite (Hmd1 Hne).
    + intros m Hm. apply elem_of_app in Hm as [Hm | Hm]; [ by apply Hst1 | ].
      rewrite <- Hid1. by apply Hst2.
Qed.

Lemma main_stream_geometry (src : list (bot_input owned_image_metadata)) b out b' :
  (∀ f, f ∈ source_frames src → f_width f ≠ 0%N) →
  main_stream src b = Ok (out, b') →
  output_frames out = source_frames src
  ∧ ∀ f, f ∈ source_frames src → same_geometry f (_image_metadata b').
Proof.
  unfold main_stream. revert b out.
  induction src as [ | p src IH ]; intros b out Hnz H; simpl in H.
  - injection H as <- <-. split; [ done | ]. intros f Hf. by apply elem_of_nil in Hf.
  - apply bind_ok in H as ([o1 b1] & H1 & H).
    apply bind_ok in H as ([o2 b2] & H2 & H). injection H as <- <-.
    rewrite output_frames_app.
    pose proof (main_stream_ok _ _ _ _ H2) as (_ & _ & Hmd2 & _).
    destruct p as [ pp | msg ]; simpl in *.
    + apply operator_call_packets_ok in H1 as (_ & _ & _ & Hf1 & _ & Hgeo).
      apply IH in H2 as [Hf2 Hgeo2].
      2: { intros f Hf. apply Hnz. apply elem_of_app. by right. }
      split; [ by rewrite Hf1, Hf2 | ].
      intros f Hf. apply elem_of_app in Hf as [Hf | Hf]; [ | by apply Hgeo2 ].
      assert (same_geometry f (_image_metadata b1)) as [Hw Hh].
      { apply Hgeo; [ | done ]. intros g Hg. apply Hnz. apply elem_of_app. by left. }
      unfold same_geometry. rewrite Hmd2; [ done | ].
      rewrite <- Hw. apply Hnz. apply elem_of_app. by left.
    + apply operator_call_json_ok in H1 as (_ & _ & _ & Hf1 & _).
      apply IH in H2 as [Hf2 Hgeo2]; [ | done ].
      split; [ by rewrite Hf1, Hf2 | done ].
Qed.

(** C6 (amended).  For frames of non-zero width the image metadata is
    latched exactly once, by the first image frame processed: while the
    metadata is unset (width 0) the first frame's width, height and plane
    strides are recorded; once set, processing a frame whose width or
    height differs is fatal, and no call of the visitor changes the
    metadata.  So every frame of a batch handed to the image callback, and
    every frame the stream emits, has the width and height of the
    metadata. *)
Theorem image_metadata_latched_once b :
  (∀ (packets : list output) frames b' f,
     md_width (_image_metadata b) = 0%N →
     head (output_frames packets) = Some f → f_width f ≠ 0%N →
     extract_frames packets b = Ok (frames, b') →
     _image_metadata b'
     = mk_image_metadata (f_width f) (f_height f)
         (take max_image_planes (f_plane_strides f)))
  ∧ (∀ packets : list output,
       md_width (_image_metadata b) ≠ 0%N →
       (∃ f, f ∈ output_frames packets ∧ ¬ same_geometry f (_image_metadata b)) →
       extract_frames packets b = Fatal CheckFailed)
  ∧ (∀ p (out : list output) b',
       md_width (_image_metadata b) ≠ 0%N →
       apply_visitor p b = Ok (out, b') → _image_metadata b' = _image_metadata b)
  ∧ (∀ (pp : list packet) out b',
       (∀ f, f ∈ batch_frames pp → f_width f ≠ 0%N) →
       operator_call_packets pp b = Ok (out, b') →
       ∀ f, f ∈ batch_frames pp → same_geometry f (_image_metadata b'))
  ∧ (∀ src (out : list output) b',
       (∀ f, f ∈ source_frames src → f_width f ≠ 0%N) →
       main_stream src b = Ok (out, b') →
       ∀ f, f ∈ output_frames out → same_geometry f (_image_metadata b')).
Proof.
  split_and!.
  - intros packets frames b' f. apply extract_frames_first.
  - intros packets. apply extract_frames_mismatch.
  - intros p out b' Hset H. by apply apply_visitor_ok in H as (_ & _ & Hmd & _); auto.
  - intros pp out b' Hnz H. by apply operator_call_packets_ok in H as (_ & _ & _ & _ & _ & Hgeo); auto.
  - intros src out b' Hnz H f Hf.
    destruct (main_stream_geometry _ _ _ _ Hnz H) as [Hout Hgeo].
    apply Hgeo. by rewrite <- Hout.
Qed.

(** *** The shutdown stream *)

Lemma shutdown_init_ok b b' :
  shutdown_init b = Ok b' →
  _bot_id b' = _bot_id b
  ∧ Forall (stamped (_bot_id b)) (_message_buffer b').
Proof.
  unfold shutdown_init. intros H. apply bind_ok in H as (b1 & H1 & Hprep).
  assert (_bot_id b1 = _bot_id b) as Hid.
  { destruct (ctrl_callback (_descriptor b)); [ | by injection H1 as <- ].
    apply bind_ok in H1 as ([response b0] & Hcb & H1).
    apply call_ctrl_callback_ok in Hcb as (_ & _ & _ & Hid0 & _).
    destruct (negb (is_null response)); [ | by injection H1 as <- ].
    apply queue_message_ok in H1 as (_ & _ & Hid1 & _). by rewrite Hid1. }
  pose proof (stamped_after_prepare _ _ Hprep) as Hst.
  apply prepare_ok in Hprep as (_ & _ & Hid' & _).
  rewrite Hid in Hst. split; [ by rewrite Hid' | done ].
Qed.

Lemma pulls_shutdown_stamped n :
  ∀ ph b (out : list output) ph' b',
    (ph ≠ NotStarted → Forall (stamped (_bot_id b)) (_message_buffer b)) →
    pulls shutdown_stream n ph b = Ok (out, ph', b') →
    ∀ m, OutMessage m ∈ out → stamped (_bot_id b) m.
Proof.
  induction n as [ | n IH ]; intros ph b out ph' b' Hinv H m Hm; simpl in H.
  - injection H as <- _ _. by apply elem_of_nil in Hm.
  - apply bind_ok in H as ([[sig ph1] b1] & Hpull & H).
    apply bind_ok in H as ([[out1 ph2] b2] & Hrest & H). injection H as <- _ _.
    assert (∃ b0, _bot_id b0 = _bot_id b
                  ∧ Forall (stamped (_bot_id b)) (_message_buffer b0)
                  ∧ (ph = Completed ∧ sig = None ∧ ph1 = Completed ∧ b1 = b0
                     ∨ pump_once shutdown_stream b0 = Ok (sig, ph1, b1)))
      as (b0 & Hid0 & Hst0 & Hcase).
    { destruct ph; simpl in Hpull.
      - apply bind_ok in Hpull as (b0 & Hinit & Hpump).
        apply shutdown_init_ok in Hinit as [Hid0 Hst0]. exists b0. auto.
      - exists b. split_and!; auto.
      - injection Hpull as <- <- <-. exists b. split_and!; auto. }
    assert (_bot_id b1 = _bot_id b
            ∧ Forall (stamped (_bot_id b)) (_message_buffer b1)
            ∧ ph1 ≠ NotStarted
            ∧ ∀ t, sig = Some (OnNext t) → ∃ m0, t = OutMessage m0 ∧ stamped (_bot_id b) m0)
      as (Hid1 & Hst1 & Hph1 & Hsig).
    { destruct Hcase as [(_ & -> & -> & ->) | Hpump]; [ by split_and! | ].
      unfold pump_once in Hpump. simpl in Hpump. unfold shutdown_pump in Hpump.
      destruct (_message_buffer b0) as [ | m0 rest ] eqn:Hbuf; simpl in Hpump.
      - injection Hpump as <- <- <-. rewrite Hbuf. by split_and!.
      - injection Hpump as <- <- <-. simpl.
        apply Forall_cons in Hst0 as [Hm0 Htail]. split_and!; try done.
        intros t Ht. injection Ht as <-. eauto. }
    assert (∀ m, OutMessage m ∈ out1 → stamped (_bot_id b) m) as Hout1.
    { intros m1 Hm1. rewrite <- Hid1. eapply IH; [ | exact Hrest | exact Hm1 ].
      intros _. by rewrite Hid1. }
    destruct sig as [ [ t | ] | ]; auto.
    apply elem_of_cons in Hm as [Hm | Hm]; auto.
    destruct (Hsig t eq_refl) as (m0 & -> & Hm0). by injection Hm as ->.
Qed.

(** C1.  Draining the message buffer is fatal when a buffered message's
    data is not an object; otherwise every buffered message is stamped:
    kind and frame id stay, field "i" is set to [[i1, i2]] when
    [frame_id.i1 >= 0], field "from" is set to [bot_id] when [bot_id] is
    non-empty, and nothing else changes.  Consequently every bot message
    emitted by a call of the visitor, and by the whole output stream
    including the shutdown messages, has [data.from == bot_id] when
    [bot_id] is non-empty and [data.i == [i1, i2]] when its frame id has
    [i1 >= 0]. *)
Theorem drained_messages_are_stamped b :
  ((∃ m, m ∈ _message_buffer b ∧ is_object (msg_data m) = false) →
   prepare_message_buffer_for_downstream b = Fatal CheckFailed)
  ∧ (∀ b', prepare_message_buffer_for_downstream b = Ok b' →
           Forall2 (stamp_of (_bot_id b)) (_message_buffer b) (_message_buffer b'))
  ∧ (∀ p (out : list output) b',
       apply_visitor p b = Ok (out, b') →
       ∀ m, OutMessage m ∈ out → stamped (_bot_id b) m)
  ∧ (∀ src n (out : list output) ph b',
       run_bot src n b = Ok (out, ph, b') →
       ∀ m, OutMessage m ∈ out → stamped (_bot_id b) m).
Proof.
  split_and!.
  - intros (m & Hin & Hobj). unfold prepare_message_buffer_for_downstream.
    rewrite prepare_messages_fatal; [ done | ].
    apply Exists_exists. eauto.
  - intros b' H. apply prepare_ok in H as (-> & Hok & _).
    apply Forall2_fmap_r, Forall_Forall2_diag.
    eapply Forall_impl; [ exact Hok | ]. intros m Hm. by apply stamp_spec.
  - intros p out b' H. by apply apply_visitor_ok in H as (_ & _ & _ & Hst).
  - intros src n out ph b' H. unfold run_bot, publishers_concat in H.
    apply bind_ok in H as ([o1 b1] & Hmain & H).
    apply bind_ok in H as ([[o2 ph2] b2] & Hpulls & H). injection H as <- _ _.
    apply main_stream_ok in Hmain as (Hid & _ & _ & Hst).
    intros m Hm. apply elem_of_app in Hm as [Hm | Hm]; [ by apply Hst | ].
    rewrite <- Hid. eapply pulls_shutdown_stamped; [ | exact Hpulls | exact Hm ].
    done.
Qed.

(** *** [operator()] on a control message *)

Lemma each_element_spec
    (handle : json → instance → outcome (list output * instance)) elements :
  ∀ b out b',
    each_element handle elements b = Ok (out, b') ↔
    ∃ outs, element_wise handle elements b outs b' ∧ out = List.concat outs.
Proof.
  induction elements as [ | el rest IH ]; intros b out b'; simpl.
  - split.
    + intros H. injection H as <- <-. exists []. split; [ constructor | done ].
    + intros (outs & Hrun & ->). by inversion Hrun.
  - split.
    + intros H. apply bind_ok in H as ([o1 b1] & H1 & H).
      apply bind_ok in H as ([o2 b2] & H2 & H). injection H as <- <-.
      apply IH in H2 as (outs & Hrun & ->).
      exists (o1 :: outs). split; [ by econstructor | done ].
    + intros (outs & Hrun & ->). inversion Hrun as [ | ? ? ? o1 b1 outs' ? H1 Hrest ]; subst.
      rewrite H1. simpl.
      assert (each_element handle rest b1 = Ok (List.concat outs', b')) as ->
        by (apply IH; eauto).
      done.
Qed.

Lemma control_single_dropped msg b :
  is_object msg = false ∨ has_key "to" msg = false
  ∨ string_empty (_bot_id b) = true
  ∨ (∃ to, get_field "to" msg = Some to ∧ to ≠ JStr (_bot_id b)) →
  control_single msg b = Ok ([] : list output, b).
Proof.
  unfold control_single. intros [-> | [H | [H | (to & Hto & Hne)]]]; [ done | .. ].
  - rewrite H. by rewrite orb_true_r.
  - rewrite H. simpl. by destruct (_ || _).
  - destruct (_ || _); [ done | ]. rewrite Hto. simpl.
    assert (eq_string to (_bot_id b) = false) as ->; [ | by rewrite orb_true_r ].
    destruct to; try done. simpl. apply bool_decide_eq_false. congruence.
Qed.

Lemma copy_request_id_fields msg response :
  is_object msg = true → is_object response = true →
  is_object (copy_request_id msg response) = true
  ∧ (∀ k : string, k ≠ "request_id"%string →
       get_field k (copy_request_id msg response) = get_field k response)
  ∧ (∀ v, get_field "request_id" msg = Some v →
          get_field "request_id" (copy_request_id msg response) = Some v)
  ∧ (get_field "request_id" msg = None → copy_request_id msg response = response).
Proof.
  intros Hmsg Hresp. destruct msg as [ | | | | | obj ]; try discriminate.
  unfold copy_request_id. simpl.
  destruct (obj !! "request_id"%string) as [ v | ] eqn:Hv.
  - rewrite bool_decide_eq_true_2 by eauto. simpl. split_and!.
    + by rewrite is_object_set.
    + intros k Hk. by apply get_set_ne.
    + intros v' [= <-]. by apply get_set_eq.
    + discriminate.
  - rewrite bool_decide_eq_false_2 by (intros [? ?]; discriminate).
    split_and!; try done.
Qed.

(** C2 (amended).  For every control-message input: an array is handled
    element by element, each on the instance the previous one left, and
    the outputs are concatenated; a non-array input that is not an object,
    or has no "to" field, is dropped: no output, no callback invocation; an
    object whose "to" field differs from [bot_id], and any object when
    [bot_id] is empty, is dropped in the same way.  When [bot_id] is
    non-empty and "to" equals it, a call that ends without a fatal exit has
    invoked the control callback once, with the message; a null response
    adds nothing, an object response is enqueued as a CONTROL message whose
    data are the response with the inbound "request_id" (when present)
    written to its field "request_id" and every other field untouched; the
    whole buffer is then stamped and emitted, and left empty. *)
Theorem control_message_routing b :
  (∀ elements (out : list output) b',
     operator_call_json (JArr elements) b = Ok (out, b') ↔
     ∃ outs, element_wise operator_call_json elements (count_received b) outs b'
             ∧ out = List.concat outs)
  ∧ (∀ msg, is_array msg = false →
            is_object msg = false ∨ has_key "to" msg = false →
            dropped (M := owned_image_metadata) msg b)
  ∧ (∀ msg to, is_object msg = true → get_field "to" msg = Some to →
               _bot_id b = ""%string ∨ to ≠ JStr (_bot_id b) →
               dropped (M := owned_image_metadata) msg b)
  ∧ (∀ msg (out : list output) b',
       is_object msg = true → get_field "to" msg = Some (JStr (_bot_id b)) →
       _bot_id b ≠ ""%string →
       operator_call_json msg b = Ok (out, b') →
       ∃ cb u calls response queued reply,
         ctrl_callback (_descriptor b) = Some cb
         ∧ cb (instance_data b) (_image_metadata b) msg = (u, calls, response)
         ∧ ctrl_calls b' = ctrl_calls b ++ [msg]
         ∧ instance_data b' = u
         ∧ map kind_and_data queued = queued_by calls
         ∧ (response = JNull ∧ reply = []
            ∨ is_object response = true
              ∧ ∃ data id,
                  reply = [mk_bot_message data CONTROL id]
                  ∧ is_object data = true
                  ∧ (∀ k : string, k ≠ "request_id"%string →
                       get_field k data = get_field k response)
                  ∧ (∀ v, get_field "request_id" msg = Some v →
                          get_field "request_id" data = Some v)
                  ∧ (get_field "request_id" msg = None → data = response))
         ∧ out = map OutMessage
                   (map (stamp (_bot_id b)) (_message_buffer b ++ queued ++ reply))
         ∧ _message_buffer b' = []).
Proof.
  split_and!.
  - intros elements out b'. simpl. apply each_element_spec.
  - intros msg Harr Hdrop. unfold dropped.
    exists (count_received b). split; [ | done ].
    destruct msg; try discriminate; simpl; apply control_single_dropped; tauto.
  - intros msg to Hobj Hto Hdrop. unfold dropped.
    exists (count_received b). split; [ | done ].
    destruct msg; try discriminate. simpl. apply control_single_dropped.
    right. right. destruct Hdrop as [Hid | Hne].
    + left. simpl. by apply string_empty_spec.
    + right. eauto.
  - intros msg out b' Hobj Hto Hid H.
    destruct msg as [ | | | | | obj ]; try discriminate.
    simpl in H, Hto. unfold control_single in H. simpl in H.
    assert (bool_decide (is_Some (obj !! "to"%string)) = true) as Hhas
      by (apply bool_decide_eq_true; rewrite Hto; eauto).
    rewrite Hhas, Hto in H. simpl in H.
    assert (string_empty (_bot_id b) = false) as Hne.
    { destruct (string_empty (_bot_id b)) eqn:E; [ | done ]. by apply string_empty_spec in E. }
    rewrite Hne, bool_decide_eq_true_2 in H by done. simpl in H.
    apply bind_ok in H as ([response b1] & Hcb & H).
    apply bind_ok in H as (b2 & Hq & H).
    apply bind_ok in H as (b3 & Hprep & H). injection H as <- <-.
    apply call_ctrl_callback_ok in Hcb
      as ((cb & u & calls & q & Hsome & Hcall & Hu & Hq1 & Hq2)
          & Hctrl & _ & Hid1 & _ & _ & _).
    simpl in *.
    assert (∃ reply,
              (response = JNull ∧ reply = []
               ∨ is_object response = true
                 ∧ ∃ data id,
                     reply = [mk_bot_message data CONTROL id]
                     ∧ is_object data = true
                     ∧ (∀ k : string, k ≠ "request_id"%string →
                          get_field k data = get_field k response)
                     ∧ (∀ v, get_field "request_id" (JObj obj) = Some v →
                             get_field "request_id" data = Some v)
                     ∧ (get_field "request_id" (JObj obj) = None → data = response))
              ∧ _message_buffer b2 = _message_buffer b1 ++ reply
              ∧ _bot_id b2 = _bot_id b1 ∧ ctrl_calls b2 = ctrl_calls b1
              ∧ instance_data b2 = instance_data b1)
      as (reply & Hreply & Hbuf2 & Hid2 & Hctrl2 & Hu2).
    { destruct response; simpl in Hq; try discriminate.
      - injection Hq as <-. exists []. rewrite app_nil_r. split_and!; auto.
      - apply queue_message_ok in Hq as (_ & [eff Hbuf] & ? & _ & _ & _ & ? & ? & _).
        destruct (copy_request_id_fields (JObj obj) (JObj m) eq_refl eq_refl)
          as (Hdata & Hrest & Hcopy & Hsame).
        eexists. split_and!; [ right; split; [ done | ] | done.. ].
        exists (copy_request_id (JObj obj) (JObj m)), eff. by split_and!. }
    apply prepare_ok in Hprep as (Hbuf3 & _ & _ & _ & _ & _ & Hu3 & Hctrl3 & _).
    exists cb, u, calls, response, q, reply. split_and!; try done.
    + by rewrite Hctrl3, Hctrl2.
    + by rewrite Hu3, Hu2.
    + by rewrite Hbuf3, Hbuf2, Hq1, Hid2, Hid1, <- app_assoc.
Qed.

(** *** [configure] *)

Lemma build_configure_command_fields body :
  get_field "action" (build_configure_command body) = Some (JStr "configure")
  ∧ get_field "body" (build_configure_command body) = Some body
  ∧ ∀ k : string, k ≠ "action"%string → k ≠ "body"%string →
                  get_field k (build_configure_command body) = None.
Proof.
  unfold build_configure_command. simpl. split_and!.
  - by rewrite lookup_insert_ne, lookup_insert_eq.
  - by rewrite lookup_insert_eq.
  - intros k H1 H2. by rewrite !lookup_insert_ne, lookup_empty.
Qed.

(** What the instance does with the response to a command it synthesized
    itself, after the callback's own calls went through on [b1]. *)
Lemma call_ctrl_callback_run cb cmd u calls response b b1 :
  ctrl_callback (_descriptor b) = Some cb →
  cb (instance_data b) (_image_metadata b) cmd = (u, calls, response) →
  run_calls calls (with_instance_data u (log_ctrl_call cmd b)) = Ok b1 →
  call_ctrl_callback cmd b = Ok (response, b1)
  ∧ ctrl_calls b1 = ctrl_calls b ++ [cmd].
Proof.
  intros Hcb Hcall Hrun. unfold call_ctrl_callback.
  rewrite Hcb, Hcall, Hrun. split; [ done | ].
  by apply run_calls_ok in Hrun as (_ & _ & _ & _ & _ & -> & _).
Qed.

Lemma queue_debug_response response b :
  (response = JNull →
   (if negb (is_null response)
    then queue_message DEBUG response (mk_frame_id 0 0) b else Ok b) = Ok b)
  ∧ (is_object response = true →
     ∃ id,
       (if negb (is_null response)
        then queue_message DEBUG response (mk_frame_id 0 0) b else Ok b)
       = Ok (with_message_buffer
               (_message_buffer b ++ [mk_bot_message response DEBUG id]) b))
  ∧ (response ≠ JNull → is_object response = false →
     (if negb (is_null response)
      then queue_message DEBUG response (mk_frame_id 0 0) b else Ok b)
     = Fatal CheckFailed).
Proof.
  split_and!.
  - by intros ->.
  - intros Hobj. destruct response; try discriminate. simpl.
    unfold queue_message. simpl. by eexists.
  - intros Hnn Hno. destruct response; try done.
Qed.

(** C7 (amended).  At startup, when the user provided a control callback,
    the command [{action: "configure", body: <cfg or {}>}] is synthesized
    ([body] is [{}] when the configuration is null) and dispatched to the
    callback; a null response leaves the buffer as the callback left it, a
    response that is an object is enqueued as a DEBUG message, and a
    response that is neither is fatal.  Without a control callback a
    non-null configuration aborts and a null one does nothing. *)
Theorem configure_dispatch config b :
  (∀ cb u calls response b1,
     let body := if is_null config then JObj ∅ else config in
     let cmd := build_configure_command body in
     ctrl_callback (_descriptor b) = Some cb →
     cb (instance_data b) (_image_metadata b) cmd = (u, calls, response) →
     run_calls calls (with_instance_data u (log_ctrl_call cmd b)) = Ok b1 →
     get_field "action" cmd = Some (JStr "configure")
     ∧ get_field "body" cmd = Some body
     ∧ ctrl_calls b1 = ctrl_calls b ++ [cmd]
     ∧ (response = JNull → configure config b = Ok b1)
     ∧ (is_object response = true →
        ∃ id, configure config b
              = Ok (with_message_buffer
                      (_message_buffer b1 ++ [mk_bot_message response DEBUG id]) b1))
     ∧ (response ≠ JNull → is_object response = false →
        configure config b = Fatal CheckFailed))
  ∧ (ctrl_callback (_descriptor b) = None → is_null config = false →
     configure config b = Fatal Aborted)
  ∧ (ctrl_callback (_descriptor b) = None → is_null config = true →
     configure config b = Ok b).
Proof.
  split_and!.
  - intros cb u calls response b1 body cmd Hcb Hcall Hrun.
    destruct (build_configure_command_fields body) as (Haction & Hbody & _).
    destruct (call_ctrl_callback_run _ _ _ _ _ _ _ Hcb Hcall Hrun) as [Hcall' Hlog].
    assert (configure config b
            = (if negb (is_null response)
               then queue_message DEBUG response (mk_frame_id 0 0) b1 else Ok b1)) as ->.
    { unfold configure. rewrite Hcb.
      replace (if negb (is_null config) then config else JObj ∅) with body
        by (subst body; by destruct (is_null config)).
      fold cmd. by rewrite Hcall'. }
    destruct (queue_debug_response response b1) as (Hnull & Hobj & Hbad).
    by split_and!.
  - intros Hcb Hcfg. unfold configure. by rewrite Hcb, Hcfg.
  - intros Hcb Hcfg. unfold configure. by rewrite Hcb, Hcfg.
Qed.

(** *** The shutdown protocol *)

Lemma with_message_buffer_same b : with_message_buffer (_message_buffer b) b = b.
Proof. by destruct b. Qed.

Lemma pulls_completed (g : stateful instance output) n b :
  pulls g n Completed b = Ok ([], Completed, b).
Proof. induction n as [ | n IH ]; [ done | ]. simpl. by rewrite IH. Qed.

Lemma pulls_shutdown_active n :
  ∀ b,
    pulls (T := output) shutdown_stream n Active b
    = Ok (map OutMessage (take n (_message_buffer b)),
          if (n <=? length (_message_buffer b))%nat then Active else Completed,
          with_message_buffer (drop n (_message_buffer b)) b).
Proof.
  induction n as [ | n IH ]; intros b.
  - simpl. by rewrite drop_0, with_message_buffer_same.
  - simpl. unfold pump_once. simpl. unfold shutdown_pump.
    destruct (_message_buffer b) as [ | m rest ] eqn:Hbuf; simpl.
    + rewrite pulls_completed. simpl.
      replace (with_message_buffer [] b) with b
        by (rewrite <- Hbuf; symmetry; apply with_message_buffer_same).
      done.
    + by rewrite IH.
Qed.

(** C5 (amended).  The output of [run_bot] is the output of the main
    stream followed by that of a stateful generator.  The generator's first
    pull invokes the control callback (when there is one) with
    [{action: "shutdown"}]; a null response adds nothing, a response that is
    an object is queued as a DEBUG message, and a response that is neither
    is fatal; then the buffer is stamped.  From then on, the first pull
    included, each pull emits exactly the message at the head of the buffer
    and removes it, until the buffer is empty; the pull that finds it empty
    signals completion, and later pulls do nothing. *)
Theorem shutdown_protocol b :
  (∀ src n (out : list output) ph b',
     run_bot src n b = Ok (out, ph, b') ↔
     ∃ out_main b1 out_shutdown,
       main_stream src b = Ok (out_main, b1)
       ∧ pulls shutdown_stream n NotStarted b1 = Ok (out_shutdown, ph, b')
       ∧ out = out_main ++ out_shutdown)
  ∧ (∀ src n (out_main : list output) b1 b2,
       main_stream src b = Ok (out_main, b1) →
       shutdown_init b1 = Ok b2 →
       run_bot src (S n) b
       = Ok (out_main ++ map OutMessage (take (S n) (_message_buffer b2)),
             if (S n <=? length (_message_buffer b2))%nat then Active else Completed,
             with_message_buffer (drop (S n) (_message_buffer b2)) b2))
  ∧ (∀ cb u calls response b1,
       ctrl_callback (_descriptor b) = Some cb →
       cb (instance_data b) (_image_metadata b) (JObj {[ "action" := JStr "shutdown" ]})
       = (u, calls, response) →
       run_calls calls
         (with_instance_data u
            (log_ctrl_call (JObj {[ "action" := JStr "shutdown" ]}) b))
       = Ok b1 →
       ctrl_calls b1 = ctrl_calls b ++ [JObj {[ "action" := JStr "shutdown" ]}]
       ∧ (response = JNull →
          shutdown_init b = prepare_message_buffer_for_downstream b1)
       ∧ (is_object response = true →
          ∃ id, shutdown_init b
                = prepare_message_buffer_for_downstream
                    (with_message_buffer
                       (_message_buffer b1 ++ [mk_bot_message response DEBUG id]) b1))
       ∧ (response ≠ JNull → is_object response = false →
          shutdown_init b = Fatal CheckFailed))
  ∧ (ctrl_callback (_descriptor b) = None →
     shutdown_init b = prepare_message_buffer_for_downstream b)
  ∧ (∀ n b1,
       shutdown_init b = Ok b1 →
       pulls (T := output) shutdown_stream (S n) NotStarted b
       = Ok (map OutMessage (take (S n) (_message_buffer b1)),
             if (S n <=? length (_message_buffer b1))%nat then Active else Completed,
             with_message_buffer (drop (S n) (_message_buffer b1)) b1))
  ∧ (∀ m rest,
       _message_buffer b = m :: rest →
       pull (T := output) shutdown_stream Active b
       = Ok (Some (OnNext (OutMessage m)), Active, with_message_buffer rest b))
  ∧ (_message_buffer b = [] →
     pull (T := output) shutdown_stream Active b = Ok (Some OnComplete, Completed, b))
  ∧ pull (T := output) shutdown_stream Completed b = Ok (None, Completed, b).
Proof.
  split_and!.
  - intros src n out ph b'. unfold run_bot, publishers_concat. split.
    + intros H. apply bind_ok in H as ([o1 b1] & Hmain & H).
      apply bind_ok in H as ([[o2 ph2] b2] & Hpulls & H). injection H as <- <- <-.
      by exists o1, b1, o2.
    + intros (o1 & b1 & o2 & Hmain & Hpulls & ->). rewrite Hmain. simpl.
      by rewrite Hpulls.
  - intros src n out_main b1 b2 Hmain Hinit.
    assert (pulls (T := output) shutdown_stream (S n) NotStarted b1
            = Ok (map OutMessage (take (S n) (_message_buffer b2)),
                  if (S n <=? length (_message_buffer b2))%nat then Active else Completed,
                  with_message_buffer (drop (S n) (_message_buffer b2)) b2)) as Hpulls.
    { change (pulls shutdown_stream (S n) NotStarted b1)
        with ('(sig, ph', s') ← (s0 ← shutdown_init b1; pump_once shutdown_stream s0);
              '(out, ph'', s'') ← pulls (T := output) shutdown_stream n ph' s';
              Ok (match sig with Some (OnNext t) => t :: out | _ => out end, ph'', s'')).
      rewrite Hinit. exact (pulls_shutdown_active (S n) b2). }
    unfold run_bot, publishers_concat. rewrite Hmain.
    cbv beta iota delta [mbind outcome_bind]. by rewrite Hpulls.
  - intros cb u calls response b1 Hcb Hcall Hrun.
    change (JObj {[ "action" := JStr "shutdown" ]}) with build_shutdown_command in *.
    destruct (call_ctrl_callback_run _ _ _ _ _ _ _ Hcb Hcall Hrun) as [Hcall' Hlog].
    assert (shutdown_init b
            = ((if negb (is_null response)
                then queue_message DEBUG response (mk_frame_id 0 0) b1 else Ok b1)
               ≫= prepare_message_buffer_for_downstream)) as ->.
    { unfold shutdown_init. by rewrite Hcb, Hcall'. }
    destruct (queue_debug_response response b1) as (Hnull & Hobj & Hbad).
    split_and!; [ done | | | ].
    + intros Hr. by rewrite (Hnull Hr).
    + intros Hr. destruct (Hobj Hr) as [id ->]. by exists id.
    + intros Hr1 Hr2. by rewrite (Hbad Hr1 Hr2).
  - intros Hcb. unfold shutdown_init. by rewrite Hcb.
  - intros n b1 Hinit.
    change (pulls shutdown_stream (S n) NotStarted b)
      with ('(sig, ph', s') ← (s0 ← shutdown_init b; pump_once shutdown_stream s0);
            '(out, ph'', s'') ← pulls (T := output) shutdown_stream n ph' s';
            Ok (match sig with Some (OnNext t) => t :: out | _ => out end, ph'', s'')).
    rewrite Hinit.
    exact (pulls_shutdown_active (S n) b1).
  - intros m rest Hbuf. simpl. unfold pump_once. simpl. unfold shutdown_pump.
    by rewrite Hbuf.
  - intros Hbuf. simpl. unfold pump_once. simpl. unfold shutdown_pump.
    by rewrite Hbuf.
  - done.
Qed.

End BotInstanceFacts.

(** ** Examples *)

Section Examples.

Local Abbreviation output := (bot_output unit).
Local Abbreviation packet := (owned_image_packet unit).

(** C3, the claim as stated fails: with [_current_frame_id = (0,7)], which
    is not [(0,0)], a message queued with [id = (0,0)] keeps [(0,0)]. *)
Lemma queue_message_half_zero_counterexample :
  let b := with_current_frame_id (mk_frame_id 0 7) (new_instance "b1" without_control) in
  _current_frame_id b ≠ mk_frame_id 0 0
  ∧ ∃ b', queue_message ANALYSIS (JObj ∅) (mk_frame_id 0 0) b = Ok b'
          ∧ _message_buffer b' = [mk_bot_message (JObj ∅) ANALYSIS (mk_frame_id 0 0)]
          ∧ mk_frame_id 0 0 ≠ _current_frame_id b.
Proof.
  simpl. split; [ discriminate | ].
  eexists. split; [ reflexivity | ]. split; [ reflexivity | discriminate ].
Qed.

(** The substitution at work: inside frame [(20,21)], an id of [(0,0)]. *)
Lemma queue_message_effective_frame_id_witness :
  is_object (JObj {[ "x" := JInt 3 ]}) = true
  ∧ ∃ effective,
      queue_message ANALYSIS (JObj {[ "x" := JInt 3 ]}) (mk_frame_id 0 0) busy_b1
      = Ok (with_message_buffer
              (_message_buffer busy_b1
               ++ [mk_bot_message (JObj {[ "x" := JInt 3 ]}) ANALYSIS effective]) busy_b1)
      ∧ (both_zero (mk_frame_id 0 0) ∧ both_nonzero (_current_frame_id busy_b1) →
         effective = _current_frame_id busy_b1)
      ∧ (¬ (both_zero (mk_frame_id 0 0) ∧ both_nonzero (_current_frame_id busy_b1)) →
         effective = mk_frame_id 0 0).
Proof.
  split; [ reflexivity | ].
  apply (queue_message_effective_frame_id ANALYSIS _ (mk_frame_id 0 0) busy_b1).
  reflexivity.
Defined.

(** The pending [{"x": 3}] of frame [(20,21)] leaves the bot "b1" as
    [{"x": 3, "i": [20,21], "from": "b1"}], also at shutdown. *)
Lemma drained_messages_are_stamped_witness :
  (∃ b', prepare_message_buffer_for_downstream busy_b1 = Ok b'
         ∧ Forall2 (stamp_of "b1") [analysis_x3] (_message_buffer b')
         ∧ _message_buffer b'
           = [mk_bot_message
                (JObj {[ "x" := JInt 3; "i" := JArr [JInt 20; JInt 21]; "from" := JStr "b1" ]})
                ANALYSIS (mk_frame_id 20 21)])
  ∧ ∃ (out : list output) ph b',
      run_bot [] 2 busy_b1 = Ok (out, ph, b')
      ∧ out = [OutMessage (stamp "b1" analysis_x3)]
      ∧ ph = Completed
      ∧ ∀ m, OutMessage m ∈ out → stamped "b1" m.
Proof.
  destruct (drained_messages_are_stamped (owned_image_metadata := unit) busy_b1)
    as (_ & Hdrain & _ & Hrun).
  split.
  - eexists. split; [ vm_compute; reflexivity | ].
    split; [ apply Hdrain; vm_compute; reflexivity | vm_compute; reflexivity ].
  - eexists _, _, _. split; [ vm_compute; reflexivity | ].
    split; [ vm_compute; reflexivity | ]. split; [ reflexivity | ].
    eapply (Hrun [] 2%nat). vm_compute. reflexivity.
Defined.

(** A batch holding only stream metadata. *)
Lemma operator_call_packets_without_frames_witness :
  batch_frames [@PacketMetadata unit tt] = []
  ∧ ∃ b', operator_call_packets [PacketMetadata tt] busy_analysing
          = Ok (map packet_output [PacketMetadata tt], b')
          ∧ img_calls b' = img_calls busy_analysing
          ∧ instance_data b' = instance_data busy_analysing
          ∧ _message_buffer b' = _message_buffer busy_analysing
          ∧ messages_sent (stats b') = messages_sent (stats busy_analysing)
          ∧ ∀ m, OutMessage m ∉ map packet_output [@PacketMetadata unit tt].
Proof.
  split; [ reflexivity | ].
  apply (operator_call_packets_without_frames [PacketMetadata tt] busy_analysing).
  reflexivity.
Defined.

(** C4, the claim as stated fails twice.  A batch without image frames is
    returned without any dispatch of the image callback; and with a message
    pending from before, the output of a batch carries that message although
    the callback queued nothing. *)
Lemma operator_call_packets_counterexample :
  (∃ b', operator_call_packets [PacketMetadata tt] busy_analysing
         = Ok ([OutMetadata tt], b')
         ∧ img_calls b' = [])
  ∧ (∃ md, img_callback (_descriptor busy_b1) tt md [frame_view frame_640x480] = (tt, [])
           ∧ ∃ b', operator_call_packets [@PacketFrame unit frame_640x480] busy_b1
                   = Ok ([OutFrame frame_640x480; OutMessage (stamp "b1" analysis_x3)], b')
                   ∧ _image_metadata b' = md).
Proof.
  split.
  - eexists. split; vm_compute; reflexivity.
  - eexists. split; [ reflexivity | ]. eexists. split; vm_compute; reflexivity.
Qed.

(** A batch with one frame, a message pending and one queued by the
    callback. *)
Lemma operator_call_packets_with_frames_witness :
  let pp := [PacketMetadata tt; PacketFrame frame_640x480] in
  batch_frames pp ≠ []
  ∧ ∃ (out : list output) b' u calls queued,
      operator_call_packets pp busy_analysing = Ok (out, b')
      ∧ img_callback (_descriptor busy_analysing) (instance_data busy_analysing)
          (_image_metadata b') (map frame_view (batch_frames pp)) = (u, calls)
      ∧ img_calls b' = img_calls busy_analysing ++ [map frame_view (batch_frames pp)]
      ∧ instance_data b' = u
      ∧ map kind_and_data queued = queued_by calls
      ∧ out = map packet_output pp
              ++ map OutMessage
                   (map (stamp (_bot_id busy_analysing))
                      (_message_buffer busy_analysing ++ queued))
      ∧ _message_buffer b' = [].
Proof.
  intros pp. split; [ discriminate | ].
  destruct (operator_call_packets pp busy_analysing) as [ [out b'] | ] eqn:Hrun;
    [ | vm_compute in Hrun; discriminate ].
  destruct (operator_call_packets_with_frames pp busy_analysing out b')
    as (u & calls & queued & H); [ discriminate | exact Hrun | ].
  by exists out, b', u, calls, queued.
Defined.

(** C6, the claim as stated fails: a first frame of width 0 leaves the
    metadata unset, so the next frame, of another geometry, is accepted and
    latched in its turn; both reach the image callback, and the first does
    not have the width of the metadata. *)
Lemma image_metadata_zero_width_counterexample :
  let f1 := sample_frame (mk_frame_id 1 2) 0 480 in
  let f2 := sample_frame (mk_frame_id 2 3) 640 480 in
  let b := new_instance "b1" without_control in
  (∃ b1 b2, latch_metadata f1 b = Ok b1
            ∧ (md_width (_image_metadata b1), md_height (_image_metadata b1)) = (0, 480)%N
            ∧ latch_metadata f2 b1 = Ok b2
            ∧ (md_width (_image_metadata b2), md_height (_image_metadata b2)) = (640, 480)%N)
  ∧ ∃ (out : list output) b',
      operator_call_packets [PacketFrame f1; PacketFrame f2] b = Ok (out, b')
      ∧ img_calls b' = [[frame_view f1; frame_view f2]]
      ∧ md_width (_image_metadata b') = 640%N
      ∧ f_width f1 ≠ md_width (_image_metadata b').
Proof.
  simpl. split.
  - eexists _, _. split; [ reflexivity | ]. split; [ reflexivity | ].
    split; reflexivity.
  - eexists _, _. split; [ vm_compute; reflexivity | ].
    split; [ reflexivity | ]. split; [ reflexivity | discriminate ].
Qed.

(** Two batches of 640x480 frames on a new instance. *)
Lemma image_metadata_latched_once_witness :
  let f1 := frame_640x480 in
  let f2 := sample_frame (mk_frame_id 11 12) 640 480 in
  let src := [InPackets [PacketMetadata tt; PacketFrame f1]; InPackets [PacketFrame f2]] in
  let b := new_instance "b1" analysing in
  (∀ f, f ∈ source_frames src → f_width f ≠ 0%N)
  ∧ ∃ (out : list output) b',
      main_stream src b = Ok (out, b')
      ∧ _image_metadata b' = mk_image_metadata 640 480 [640; 0; 0; 0]%N
      ∧ ∀ f, f ∈ output_frames out → same_geometry f (_image_metadata b').
Proof.
  intros f1 f2 src b.
  assert (∀ f, f ∈ source_frames src → f_width f ≠ 0%N) as Hnz.
  { intros f Hf. apply elem_of_cons in Hf as [-> | Hf]; [ discriminate | ].
    apply elem_of_cons in Hf as [-> | Hf]; [ discriminate | ].
    by apply elem_of_nil in Hf. }
  split; [ exact Hnz | ].
  destruct (main_stream src b) as [ [out b'] | ] eqn:Hrun;
    [ | vm_compute in Hrun; discriminate ].
  exists out, b'. split; [ reflexivity | ]. split.
  - vm_compute in Hrun. by injection Hrun as <- <-.
  - destruct (image_metadata_latched_once (owned_image_metadata := unit) b)
      as (_ & _ & _ & _ & Hall).
    exact (Hall src out b' Hnz Hrun).
Defined.

(** C2, the claim as stated fails: a bot with an empty [bot_id] drops every
    control message that has a "to" field, whatever it names, and does not
    invoke its control callback, although the case is none of those the
    claim lists as dropped. *)
Lemma control_message_empty_bot_id_counterexample :
  let b := new_instance "" (answering pong) in
  (is_array (ping "b1") = false ∧ is_object (ping "b1") = true
   ∧ has_key "to" (ping "b1") = true ∧ string_empty (_bot_id b) = true
   ∧ is_Some (ctrl_callback (_descriptor b)))
  ∧ (∃ b', operator_call_json (ping "b1") b = Ok ([] : list output, b')
           ∧ ctrl_calls b' = [])
  ∧ (∃ b', operator_call_json (ping "") b = Ok ([] : list output, b')
           ∧ ctrl_calls b' = []).
Proof.
  simpl. split_and!; try done.
  - eexists. split; vm_compute; reflexivity.
  - eexists. split; vm_compute; reflexivity.
Qed.

(** The routing scenario: a ping for "b2" is dropped by "b1", a ping for
    "b1" is answered. *)
Lemma control_message_routing_witness :
  let b := new_instance "b1" (answering pong) in
  (is_object (ping "b1") = true
   ∧ get_field "to" (ping "b1") = Some (JStr (_bot_id b))
   ∧ _bot_id b ≠ ""%string)
  ∧ dropped (M := unit) (ping "b2") b
  ∧ ∃ (out : list output) b',
      operator_call_json (ping "b1") b = Ok (out, b')
      ∧ ctrl_calls b' = [ping "b1"]
      ∧ out = [OutMessage
                 (stamp "b1"
                    (mk_bot_message
                       (JObj {[ "pong" := JBool true; "request_id" := JStr "r" ]})
                       CONTROL (mk_frame_id 0 0)))]
      ∧ ∃ cb u calls response queued reply,
          ctrl_callback (_descriptor b) = Some cb
          ∧ cb (instance_data b) (_image_metadata b) (ping "b1") = (u, calls, response)
          ∧ ctrl_calls b' = ctrl_calls b ++ [ping "b1"]
          ∧ instance_data b' = u
          ∧ map kind_and_data queued = queued_by calls
          ∧ (response = JNull ∧ reply = []
             ∨ is_object response = true
               ∧ ∃ data id,
                   reply = [mk_bot_message data CONTROL id]
                   ∧ is_object data = true
                   ∧ (∀ k : string, k ≠ "request_id"%string →
                        get_field k data = get_field k response)
                   ∧ (∀ v, get_field "request_id" (ping "b1") = Some v →
                           get_field "request_id" data = Some v)
                   ∧ (get_field "request_id" (ping "b1") = None → data = response))
          ∧ out = map OutMessage
                    (map (stamp (_bot_id b)) (_message_buffer b ++ queued ++ reply))
          ∧ _message_buffer b' = [].
Proof.
  intros b.
  destruct (control_message_routing (owned_image_metadata := unit) b)
    as (_ & _ & Hother & Hmine).
  assert (is_object (ping "b1") = true
          ∧ get_field "to" (ping "b1") = Some (JStr (_bot_id b))
          ∧ _bot_id b ≠ ""%string) as Hhyp.
  { split; [ reflexivity | ]. split; [ vm_compute; reflexivity | discriminate ]. }
  split; [ exact Hhyp | ]. destruct Hhyp as (Hobj & Hto & Hid). split.
  - apply (Hother (ping "b2") (JStr "b2")); [ reflexivity | vm_compute; reflexivity | ].
    right. discriminate.
  - destruct (operator_call_json (ping "b1") b) as [ [out b'] | ] eqn:Hrun;
      [ | vm_compute in Hrun; discriminate ].
    exists out, b'. split; [ reflexivity | ].
    pose proof (Hmine (ping "b1") out b' Hobj Hto Hid Hrun) as Hspec.
    vm_compute in Hrun. injection Hrun as <- <-.
    split; [ reflexivity | ]. split; [ vm_compute; reflexivity | exact Hspec ].
Defined.

(** C7, the claim as stated fails: a response that is not null but not an
    object either, here a string, is not enqueued; the instance aborts. *)
Lemma configure_string_response_counterexample :
  let b := new_instance "b1" (answering (JStr "ok")) in
  is_null (JStr "ok") = false
  ∧ configure JNull b = Fatal CheckFailed
  ∧ configure (JObj {[ "k" := JInt 1 ]}) b = Fatal CheckFailed.
Proof. simpl. split_and!; vm_compute; reflexivity. Qed.

(** Configuration [{"k": 1}] with and without a control callback. *)
Lemma configure_dispatch_witness :
  let cfg := JObj {[ "k" := JInt 1 ]} in
  let b := new_instance "b1" (answering pong) in
  let cmd := JObj {[ "action" := JStr "configure"; "body" := cfg ]} in
  build_configure_command cfg = cmd
  ∧ (∃ id, configure cfg b
           = Ok (with_message_buffer [mk_bot_message pong DEBUG id] (log_ctrl_call cmd b)))
  ∧ configure JNull (new_instance "b1" without_control)
    = Ok (new_instance "b1" without_control)
  ∧ configure cfg (new_instance "b1" without_control) = Fatal Aborted.
Proof.
  intros cfg b cmd.
  assert (build_configure_command cfg = cmd) as Hcmd by (vm_compute; reflexivity).
  split; [ exact Hcmd | ]. split_and!.
  - destruct (configure_dispatch cfg b) as (Hcb & _ & _).
    destruct (Hcb (λ u _ _, (u, [], pong)) tt [] pong (log_ctrl_call cmd b))
      as (_ & _ & _ & _ & Hobj & _).
    + reflexivity.
    + reflexivity.
    + simpl. by rewrite Hcmd.
    + destruct (Hobj eq_refl) as [id Hid]. exists id. exact Hid.
  - destruct (configure_dispatch JNull (new_instance "b1" without_control))
      as (_ & _ & Hnone).
    apply Hnone; reflexivity.
  - destruct (configure_dispatch cfg (new_instance "b1" without_control))
      as (_ & Hnone & _).
    apply Hnone; reflexivity.
Defined.

(** C5, the claim as stated fails: a shutdown response that is not null but
    not an object either is not queued; the first pull is fatal. *)
Lemma shutdown_string_response_counterexample :
  let b := new_instance "b1" (answering (JStr "bye")) in
  is_null (JStr "bye") = false
  ∧ shutdown_init b = Fatal CheckFailed
  ∧ pull (T := output) shutdown_stream NotStarted b = Fatal CheckFailed.
Proof. simpl. split_and!; vm_compute; reflexivity. Qed.

(** A bot with one pending message that answers the shutdown command. *)
Lemma shutdown_protocol_witness :
  let b := with_message_buffer [analysis_x3] (new_instance "b1" (answering pong)) in
  ∃ b1 id,
    shutdown_init b = Ok b1
    ∧ ctrl_calls b1 = [JObj {[ "action" := JStr "shutdown" ]}]
    ∧ _message_buffer b1
      = [stamp "b1" analysis_x3; stamp "b1" (mk_bot_message pong DEBUG id)]
    ∧ pulls (T := output) shutdown_stream 1 NotStarted b
      = Ok ([OutMessage (stamp "b1" analysis_x3)], Active,
            with_message_buffer [stamp "b1" (mk_bot_message pong DEBUG id)] b1)
    ∧ pulls (T := output) shutdown_stream 3 NotStarted b
      = Ok (map OutMessage (_message_buffer b1), Completed, with_message_buffer [] b1).
Proof.
  intros b.
  destruct (shutdown_protocol (owned_image_metadata := unit) b)
    as (_ & _ & _ & _ & Hpulls & _).
  destruct (shutdown_init b) as [ b1 | ] eqn:Hinit; [ | vm_compute in Hinit; discriminate ].
  exists b1, (mk_frame_id 0 0).
  pose proof (Hpulls 0%nat b1 eq_refl) as H1.
  pose proof (Hpulls 2%nat b1 eq_refl) as H3.
  vm_compute in Hinit. injection Hinit as <-.
  split; [ reflexivity | ]. split; [ reflexivity | ].
  split; [ vm_compute; reflexivity | ]. split; [ exact H1 | exact H3 ].
Defined.

End Examples.

(** ** Channel positions *)

Module channel_position_facts.

Import channel_position.
Local Open Scope N_scope.

(** *** Digits *)

Lemma digit_char_code d : d < 10 → N_of_ascii (digit_char d) = 48 + d.
Proof. intros Hd. unfold digit_char. apply N_ascii_embedding. lia. Qed.

Lemma digit_char_isdigit d : d < 10 → isdigit (digit_char d) = true.
Proof.
  intros Hd. unfold isdigit. rewrite digit_char_code by done.
  apply andb_true_iff. split; apply N.leb_le; lia.
Qed.

Lemma digit_char_value d : d < 10 → digit_value (digit_char d) = d.
Proof. intros Hd. unfold digit_value. rewrite digit_char_code by done. lia. Qed.

Lemma isdigit_not_space c : isdigit c = true → isspace c = false.
Proof.
  unfold isdigit, isspace. intros H. apply andb_true_iff in H as [H1 H2].
  apply N.leb_le in H1, H2. apply orb_false_iff. split.
  - apply N.eqb_neq. lia.
  - apply andb_false_iff. right. apply N.leb_gt. lia.
Qed.

Lemma isdigit_not_sign c :
  isdigit c = true → Ascii.eqb c "-" = false ∧ Ascii.eqb c "+" = false.
Proof.
  unfold isdigit. intros H. apply andb_true_iff in H as [H1 H2].
  apply N.leb_le in H1, H2.
  split; apply Ascii.eqb_neq; intros ->; vm_compute in H1; by destruct H1.
Qed.

Lemma isdigit_not_nul c : isdigit c = true → c ≠ zero.
Proof. intros H ->. discriminate. Qed.

Lemma isdigit_not_colon c : isdigit c = true → c ≠ ":"%char.
Proof. intros H ->. discriminate. Qed.

(** *** [to_string] yields the digits of its argument *)

Lemma to_digits_split fuel :
  ∀ n acc, ∃ ds, to_digits fuel n acc = ds ++ acc
                 ∧ Forall (λ c, isdigit c = true) ds
                 ∧ (fuel ≠ O → ds ≠ []).
Proof.
  induction fuel as [ | fuel IH ]; intros n acc.
  - exists []. by split_and!.
  - simpl. assert (isdigit (digit_char (n mod 10)) = true) as Hd.
    { apply digit_char_isdigit. apply N.mod_lt. lia. }
    destruct (n / 10 =? 0).
    + exists [digit_char (n mod 10)]. split_and!; [ done | by constructor | done ].
    + destruct (IH (n / 10) (digit_char (n mod 10) :: acc)) as (ds & -> & Hall & _).
      exists (ds ++ [digit_char (n mod 10)]). split_and!.
      * by rewrite <- app_assoc.
      * apply Forall_app. split; [ done | by constructor ].
      * intros _. by destruct ds.
Qed.

Lemma to_digits_value fuel :
  ∀ n acc, n < 2 ^ N.of_nat fuel →
           digits_value 0 (to_digits fuel n acc) = digits_value n acc.
Proof.
  induction fuel as [ | fuel IH ]; intros n acc Hn.
  - simpl in *. by replace n with 0 by lia.
  - cbn [to_digits].
    assert (digit_value (digit_char (n mod 10)) = n mod 10) as Hd.
    { apply digit_char_value. apply N.mod_lt. lia. }
    pose proof (N.div_mod n 10 ltac:(lia)) as Hdm.
    destruct (n / 10 =? 0) eqn:Hq.
    + apply N.eqb_eq in Hq. unfold digits_value. simpl. rewrite Hd.
      f_equal. lia.
    + rewrite IH.
      * unfold digits_value. simpl. rewrite Hd. f_equal. lia.
      * apply N.Div0.div_lt_upper_bound.
        rewrite Nat2N.inj_succ, N.pow_succ_r' in Hn. lia.
Qed.

Lemma to_string_digits n :
  Forall (λ c, isdigit c = true) (to_string n)
  ∧ to_string n ≠ []
  ∧ digits_value 0 (to_string n) = n.
Proof.
  unfold to_string.
  destruct (to_digits_split (S (N.to_nat (N.log2 n))) n []) as (ds & Heq & Hall & Hne).
  rewrite app_nil_r in Heq. split_and!.
  - by rewrite Heq.
  - rewrite Heq. by apply Hne.
  - rewrite to_digits_value; [ done | ].
    rewrite Nat2N.inj_succ, N2Nat.id.
    destruct n as [ | p ]; [ done | ].
    apply N.log2_spec. lia.
Qed.

(** *** Reading a number *)

Lemma read_digits_app ds rest acc :
  Forall (λ c, isdigit c = true) ds → digits_end rest →
  read_digits (ds ++ rest) acc = (digits_value acc ds, length ds).
Proof.
  intros Hall Hend. revert acc. induction Hall as [ | c ds Hc _ IH ]; intros acc.
  - simpl. destruct rest as [ | c rest ]; [ done | ]. simpl in *. by rewrite Hend.
  - simpl. rewrite Hc, IH. done.
Qed.

Lemma read_digits_progress ds rest acc :
  Forall (λ c, isdigit c = true) ds → ds ≠ [] → (read_digits (ds ++ rest) acc).2 ≠ O.
Proof.
  intros Hall Hne. destruct Hall as [ | c ds Hc _ ]; [ done | ].
  simpl. rewrite Hc. by destruct (read_digits _ _).
Qed.

(** The digits [read_digits] consumed. *)
Lemma read_digits_complete s :
  ∀ acc v k,
    read_digits s acc = (v, k) →
    ∃ ds rest, s = ds ++ rest ∧ Forall (λ c, isdigit c = true) ds
               ∧ digits_end rest ∧ k = length ds ∧ v = digits_value acc ds.
Proof.
  induction s as [ | c s IH ]; intros acc v k H; simpl in H.
  - injection H as <- <-. by exists [], [].
  - destruct (isdigit c) eqn:Hc.
    + destruct (read_digits s (acc * 10 + digit_value c)) as [v' k'] eqn:Hrest.
      injection H as <- <-.
      destruct (IH _ _ _ Hrest) as (ds & rest & -> & Hall & Hend & -> & ->).
      exists (c :: ds), rest. split_and!; try done. by constructor.
    + injection H as <- <-. exists [], (c :: s). by split_and!.
Qed.

Lemma count_spaces_app ws rest :
  Forall (λ c, isspace c = true) ws →
  match rest with c :: _ => isspace c = false | [] => True end →
  count_spaces (ws ++ rest) = length ws.
Proof.
  intros Hall Hrest. induction Hall as [ | c ws Hc _ IH ].
  - destruct rest as [ | c rest ]; simpl in *; [ done | by rewrite Hrest ].
  - simpl. by rewrite Hc, IH.
Qed.

Lemma count_spaces_complete s :
  ∃ ws rest, s = ws ++ rest ∧ Forall (λ c, isspace c = true) ws
             ∧ count_spaces s = length ws.
Proof.
  induction s as [ | c s (ws & rest & -> & Hall & Hlen) ].
  - by exists [], [].
  - simpl. destruct (isspace c) eqn:Hc.
    + exists (c :: ws), rest. split_and!; [ done | by constructor | by rewrite Hlen ].
    + exists [], (c :: ws ++ rest). by split_and!.
Qed.

Lemma read_sign_app sg ds rest :
  is_sign sg → Forall (λ c, isdigit c = true) ds → ds ≠ [] →
  read_sign (sg ++ ds ++ rest) = (is_minus sg, length sg).
Proof.
  intros [-> | [-> | ->]] Hall Hne; try done.
  destruct Hall as [ | c ds Hc _ ]; [ done | ].
  apply isdigit_not_sign in Hc as [H1 H2]. simpl. by rewrite H1, H2.
Qed.

Lemma read_sign_complete s :
  ∃ sg rest, s = sg ++ rest ∧ is_sign sg ∧ read_sign s = (is_minus sg, length sg).
Proof.
  destruct s as [ | c s ]; [ exists [], []; split_and!; [ done | by left | done ] | ].
  simpl. destruct (Ascii.eqb c "-") eqn:E1.
  - apply Ascii.eqb_eq in E1 as ->. exists ["-"%char], s.
    split_and!; [ done | by right; right | done ].
  - destruct (Ascii.eqb c "+") eqn:E2.
    + apply Ascii.eqb_eq in E2 as ->. exists ["+"%char], s.
      split_and!; [ done | by right; left | done ].
    + exists [], (c :: s). split_and!; [ done | by left | done ].
Qed.

Lemma number_not_space sg ds rest :
  is_sign sg → Forall (λ c, isdigit c = true) ds → ds ≠ [] →
  match sg ++ ds ++ rest with c :: _ => isspace c = false | [] => True end.
Proof.
  intros [-> | [-> | ->]] Hall Hne; try done.
  destruct Hall as [ | c ds Hc _ ]; [ done | ]. simpl. by apply isdigit_not_space.
Qed.

Lemma read_number_sound ws sg ds rest :
  number ws sg ds → digits_end rest →
  read_number (ws ++ sg ++ ds ++ rest)
  = (is_minus sg, digits_value 0 ds, (length ws + length sg + length ds)%nat).
Proof.
  intros (Hws & Hsg & Hds & Hne) Hend. unfold read_number.
  rewrite (count_spaces_app ws) by (done || by apply number_not_space).
  rewrite drop_app_length, (read_sign_app sg ds rest) by done.
  replace (drop (length ws + length sg) (ws ++ sg ++ ds ++ rest)) with (ds ++ rest).
  2: { rewrite app_assoc, <- length_app. by rewrite drop_app_length. }
  rewrite read_digits_app by done.
  destruct ds; done.
Qed.

Lemma read_number_progress s :
  starts_with_number s → (read_number s).2 ≠ O.
Proof.
  intros (ws & sg & ds & rest & -> & Hws & Hsg & Hds & Hne). unfold read_number.
  rewrite (count_spaces_app ws) by (done || by apply number_not_space).
  rewrite drop_app_length, (read_sign_app sg ds rest) by done.
  replace (drop (length ws + length sg) (ws ++ sg ++ ds ++ rest)) with (ds ++ rest).
  2: { rewrite app_assoc, <- length_app. by rewrite drop_app_length. }
  pose proof (read_digits_progress ds rest 0 Hds Hne) as Hk.
  destruct (read_digits (ds ++ rest) 0) as [v [ | k ]]; [ done | ]. simpl. lia.
Qed.

Lemma read_number_complete s neg v len :
  read_number s = (neg, v, len) →
  (len = O ∧ neg = false ∧ v = 0 ∧ ¬ starts_with_number s)
  ∨ ∃ ws sg ds rest,
      s = ws ++ sg ++ ds ++ rest ∧ number ws sg ds ∧ digits_end rest
      ∧ neg = is_minus sg ∧ v = digits_value 0 ds
      ∧ len = (length ws + length sg + length ds)%nat.
Proof.
  intros H. destruct len as [ | len ].
  - left. assert (¬ starts_with_number s) as Hno.
    { intros Hs. apply read_number_progress in Hs. by rewrite H in Hs. }
    unfold read_number in H.
    destruct (read_sign _) as [neg' sg']. destruct (read_digits _ _) as [v' [ | k ]].
    + by injection H as <- <-.
    + injection H as _ _ H. lia.
  - right. unfold read_number in H.
    destruct (count_spaces_complete s) as (ws & r1 & -> & Hws & Hcount).
    rewrite Hcount, drop_app_length in H.
    destruct (read_sign_complete r1) as (sg & r2 & -> & Hsg & Hsign).
    rewrite Hsign in H.
    replace (drop (length ws + length sg) (ws ++ sg ++ r2)) with r2 in H.
    2: { rewrite app_assoc, <- length_app. by rewrite drop_app_length. }
    destruct (read_digits r2 0) as [v' k] eqn:Hdigits.
    destruct (read_digits_complete _ _ _ _ Hdigits) as (ds & rest & -> & Hds & Hend & -> & ->).
    destruct ds as [ | d ds ]; [ discriminate | ].
    injection H as <- <- Hlen.
    exists ws, sg, (d :: ds), rest. by split_and!.
Qed.

(** *** C strings *)

Lemma c_str_no_nul str : Forall (λ c, c ≠ zero) (c_str str).
Proof.
  induction str as [ | c str IH ]; simpl; [ constructor | ].
  destruct (Ascii.eqb c zero) eqn:E; constructor; [ | done ].
  by apply Ascii.eqb_neq.
Qed.

Lemma c_str_of_list s :
  Forall (λ c, c ≠ zero) s → c_str (string_of_list_ascii s) = s.
Proof.
  induction 1 as [ | c s Hc _ IH ]; simpl; [ done | ].
  apply Ascii.eqb_neq in Hc. by rewrite Hc, IH.
Qed.

Lemma deref_middle a c r : deref (a ++ c :: r) (length a) = c.
Proof. unfold deref. by rewrite nth_middle. Qed.

Lemma deref_end s : deref s (length s) = zero.
Proof. unfold deref. by apply nth_overflow. Qed.

(** *** [parse] *)

Lemma strtoll_small ws sg ds rest :
  number ws sg ds → digits_end rest → digits_value 0 ds <= UINT32_MAX →
  sg ≠ ["-"%char] →
  strtoll (ws ++ sg ++ ds ++ rest)
  = (Z.of_N (digits_value 0 ds), (length ws + length sg + length ds)%nat).
Proof.
  intros Hnum Hend Hle Hpos. unfold strtoll. rewrite read_number_sound by done.
  assert (is_minus sg = false) as ->.
  { destruct Hnum as (_ & [-> | [-> | ->]] & _); done. }
  f_equal. unfold UINT32_MAX in Hle. unfold LLONG_MIN, LLONG_MAX. lia.
Qed.

Lemma strtoull_small ws sg ds rest :
  number ws sg ds → digits_end rest → digits_value 0 ds <= UINT64_MAX →
  sg ≠ ["-"%char] →
  strtoull (ws ++ sg ++ ds ++ rest)
  = (digits_value 0 ds, (length ws + length sg + length ds)%nat).
Proof.
  intros Hnum Hend Hle Hpos. unfold strtoull. rewrite read_number_sound by done.
  assert (is_minus sg = false) as ->.
  { destruct Hnum as (_ & [-> | [-> | ->]] & _); done. }
  apply N.ltb_ge in Hle. by rewrite Hle.
Qed.

Lemma deref_app a t k : deref (a ++ t) (length a + k) = deref t k.
Proof. unfold deref. apply app_nth2_plus. Qed.

Lemma strtoull_bounded s : (strtoull s).1 <= UINT64_MAX.
Proof.
  unfold strtoull. destruct (read_number s) as [[neg v] len]. simpl.
  destruct (UINT64_MAX <? v) eqn:E; [ done | ]. apply N.ltb_ge in E.
  destruct neg; [ | done ].
  pose proof (N.mod_lt (2 ^ 64 - v) (2 ^ 64) ltac:(done)). unfold UINT64_MAX. lia.
Qed.

Lemma strtoll_check ws sg ds rest :
  number ws sg ds → digits_end rest →
  ∃ gen, strtoll (ws ++ sg ++ ds ++ rest)
         = (gen, (length ws + length sg + length ds)%nat)
         ∧ ((gen <=? Z.of_N UINT32_MAX)%Z = true ↔ passes_check sg ds).
Proof.
  intros Hnum Hend. unfold strtoll. rewrite read_number_sound by done.
  eexists. split; [ reflexivity | ].
  unfold passes_check, LLONG_MIN, LLONG_MAX, UINT32_MAX. rewrite Z.leb_le.
  destruct Hnum as (_ & [-> | [-> | ->]] & _); simpl; split; intros H.
  - right. lia.
  - destruct H as [H | H]; [ discriminate | lia ].
  - right. lia.
  - destruct H as [H | H]; [ discriminate | lia ].
  - by left.
  - lia.
Qed.

Lemma number_length ws sg ds :
  number ws sg ds → (length ws + length sg + length ds)%nat ≠ O.
Proof. intros (_ & _ & _ & Hne). destruct ds; [ done | simpl; lia ]. Qed.

Lemma parse_no_number str :
  ¬ starts_with_number (c_str str) → parse str = Ok (mk 0 0).
Proof.
  intros Hno. unfold parse, strtoll.
  destruct (read_number (c_str str)) as [[neg v] len] eqn:Hread.
  apply read_number_complete in Hread
    as [(-> & -> & -> & _) | (ws & sg & ds & rest & Hs & Hnum & _)].
  - done.
  - destruct Hno. by exists ws, sg, ds, rest.
Qed.

Lemma parse_no_colon str ws sg ds rest :
  c_str str = ws ++ sg ++ ds ++ rest → number ws sg ds → digits_end rest →
  passes_check sg ds → head rest ≠ Some ":"%char →
  parse str = Ok (mk 0 0).
Proof.
  intros Hs Hnum Hend Hpass Hcolon. unfold parse. rewrite Hs.
  destruct (strtoll_check ws sg ds rest Hnum Hend) as (gen & -> & Hcheck).
  apply Hcheck in Hpass as ->.
  assert (Ascii.eqb (deref (ws ++ sg ++ ds ++ rest) (length ws + length sg + length ds)) ":"
          = false) as ->; [ | by rewrite orb_true_r ].
  rewrite !app_assoc, <- !length_app, <- (Nat.add_0_r (length _)), deref_app.
  apply Ascii.eqb_neq. destruct rest as [ | c rest ]; [ done | ].
  unfold deref. simpl. intros ->. by destruct Hcolon.
Qed.

Lemma parse_too_large str ws sg ds rest :
  c_str str = ws ++ sg ++ ds ++ rest → number ws sg ds → digits_end rest →
  ¬ passes_check sg ds →
  parse str = Fatal CheckFailed.
Proof.
  intros Hs Hnum Hend Hfail. unfold parse. rewrite Hs.
  destruct (strtoll_check ws sg ds rest Hnum Hend) as (gen & -> & Hcheck).
  destruct (gen <=? Z.of_N UINT32_MAX)%Z; [ | done ].
  destruct Hfail. by apply Hcheck.
Qed.

(** After a number that passes the check and a colon, the result rests on
    what [strtoull] makes of the remaining text [t]. *)
Lemma parse_after_colon str ws sg ds t :
  c_str str = ws ++ sg ++ ds ++ ":"%char :: t → number ws sg ds → passes_check sg ds →
  ∃ gen,
    strtoll (c_str str) = (gen, (length ws + length sg + length ds)%nat)
    ∧ parse str
      = if negb (Ascii.eqb (deref t (strtoull t).2) zero) then Ok (mk 0 0)
        else Ok (mk (Z.to_N (gen mod 2 ^ 32)) ((strtoull t).1 mod 2 ^ 64)).
Proof.
  intros Hs Hnum Hpass. unfold parse. rewrite Hs.
  destruct (strtoll_check ws sg ds (":"%char :: t) Hnum eq_refl) as (gen & Hgen & Hcheck).
  exists gen. split; [ done | ]. rewrite Hgen.
  apply Hcheck in Hpass as ->.
  set (len := (length ws + length sg + length ds)%nat).
  assert (ws ++ sg ++ ds ++ ":"%char :: t = (ws ++ sg ++ ds ++ [":"%char]) ++ t) as Hsplit
    by by rewrite <- !app_assoc.
  assert (length (ws ++ sg ++ ds ++ [":"%char]) = (len + 1)%nat) as Hlen
    by (rewrite !length_app; simpl; lia).
  assert (Nat.eqb len 0 = false) as ->
    by (apply Nat.eqb_neq; by apply number_length).
  assert (deref (ws ++ sg ++ ds ++ ":"%char :: t) len = ":"%char) as ->.
  { rewrite !app_assoc. subst len. rewrite <- !length_app. apply deref_middle. }
  simpl.
  assert (drop (len + 1) (ws ++ sg ++ ds ++ ":"%char :: t) = t) as ->.
  { rewrite Hsplit, <- Hlen. apply drop_app_length. }
  pose proof (strtoull_bounded t) as Hpos.
  destruct (strtoull t) as [pos len2]. simpl in *.
  apply N.leb_le in Hpos. rewrite Hpos.
  by rewrite Hsplit, <- Hlen, deref_app.
Qed.

Lemma parse_trailing str ws sg ds t :
  c_str str = ws ++ sg ++ ds ++ ":"%char :: t → number ws sg ds → passes_check sg ds →
  t ≠ [] → ¬ is_number t →
  parse str = Ok (mk 0 0).
Proof.
  intros Hs Hnum Hpass Hne Hnot.
  destruct (parse_after_colon str ws sg ds t Hs Hnum Hpass) as (gen & _ & ->).
  assert (Forall (λ c, c ≠ zero) t) as Hnul.
  { pose proof (c_str_no_nul str) as Hall. rewrite Hs in Hall.
    rewrite !Forall_app in Hall. destruct Hall as (_ & _ & _ & Hall).
    by apply Forall_cons in Hall as [_ Hall]. }
  assert (Ascii.eqb (deref t (strtoull t).2) zero = false) as ->; [ | done ].
  apply Ascii.eqb_neq. unfold strtoull.
  destruct (read_number t) as [[neg v] len] eqn:Hread. simpl.
  apply read_number_complete in Hread
    as [(-> & _) | (ws2 & sg2 & ds2 & rest & -> & Hnum2 & _ & _ & _ & ->)].
  - destruct t as [ | c t ]; [ done | ]. by apply Forall_cons in Hnul as [Hc _].
  - destruct rest as [ | c rest ].
    { destruct Hnot. exists ws2, sg2, ds2. by rewrite app_nil_r. }
    rewrite !app_assoc, <- !length_app, deref_middle.
    rewrite !Forall_app in Hnul. destruct Hnul as (_ & _ & _ & Hnul).
    by apply Forall_cons in Hnul as [Hc _].
Qed.

(** A run of digits, a colon and a run of digits, both in range, parse to
    their values. *)
Lemma parse_digits_colon_digits dg dp :
  number [] [] dg → number [] [] dp →
  digits_value 0 dg <= UINT32_MAX → digits_value 0 dp <= UINT64_MAX →
  parse (string_of_list_ascii (dg ++ ":"%char :: dp))
  = Ok (mk (digits_value 0 dg) (digits_value 0 dp)).
Proof.
  intros Hnum1 Hnum2 Hgen Hpos.
  assert (c_str (string_of_list_ascii (dg ++ ":"%char :: dp))
          = [] ++ [] ++ dg ++ ":"%char :: dp) as Hs.
  { simpl. apply c_str_of_list.
    destruct Hnum1 as (_ & _ & Hg & _), Hnum2 as (_ & _ & Hq & _).
    apply Forall_app. split.
    - eapply Forall_impl; [ exact Hg | ]. intros c. apply isdigit_not_nul.
    - constructor; [ done | ].
      eapply Forall_impl; [ exact Hq | ]. intros c. apply isdigit_not_nul. }
  destruct (parse_after_colon _ _ _ _ _ Hs Hnum1) as (gen & Hll & ->); [ by right | ].
  rewrite Hs in Hll.
  rewrite (strtoll_small [] [] dg (":"%char :: dp)) in Hll by done.
  injection Hll as <-.
  pose proof (strtoull_small [] [] dp [] Hnum2 I) as Hull.
  simpl in Hull. rewrite app_nil_r in Hull. rewrite Hull by done.
  simpl. rewrite deref_end. simpl.
  unfold UINT32_MAX, UINT64_MAX in *.
  rewrite Z.mod_small, N2Z.id, N.mod_small by lia. done.
Qed.

Lemma to_string_number n : number [] [] (to_string n).
Proof.
  destruct (to_string_digits n) as (Hall & Hne & _).
  split_and!; [ done | by left | done.. ].
Qed.

Lemma is_number_read t : is_number t → (read_number t).2 = length t.
Proof.
  intros (ws & sg & ds & -> & Hnum).
  pose proof (read_number_sound ws sg ds [] Hnum I) as Hread.
  rewrite app_nil_r in Hread. rewrite Hread. simpl. rewrite !length_app. lia.
Qed.

(** C8.  For every valid channel position [p] ([gen] a 32-bit and [pos] a
    64-bit unsigned integer), parsing the string [str] renders for it,
    "<gen>:<pos>", yields [p] again. *)
Theorem parse_str p : valid p → parse (str p) = Ok p.
Proof.
  intros [Hgen Hpos]. destruct p as [g q]. unfold str. simpl in *.
  destruct (to_string_digits g) as (_ & _ & Hg).
  destruct (to_string_digits q) as (_ & _ & Hq).
  rewrite parse_digits_colon_digits; rewrite ?Hg, ?Hq; try done;
    apply to_string_number.
Qed.

(** C9 (amended).  For a position string, read up to its first NUL: if it
    does not start with a number as [strtoll] reads one (optional white
    space, an optional sign, at least one decimal digit), [parse] returns
    [(0,0)]; if it starts with such a number that is negative or at most
    [2^32 - 1], [parse] returns [(0,0)] when the number is not immediately
    followed by a colon, and when the colon is followed by a non-empty text
    that is not itself exactly such a number; if the leading number exceeds
    [2^32 - 1], [parse] is fatal. *)
Theorem parse_malformed str :
  (¬ starts_with_number (c_str str) → parse str = Ok (mk 0 0))
  ∧ (∀ ws sg ds rest,
       c_str str = ws ++ sg ++ ds ++ rest → number ws sg ds → digits_end rest →
       (passes_check sg ds → head rest ≠ Some ":"%char → parse str = Ok (mk 0 0))
       ∧ (¬ passes_check sg ds → parse str = Fatal CheckFailed))
  ∧ (∀ ws sg ds t,
       c_str str = ws ++ sg ++ ds ++ ":"%char :: t → number ws sg ds →
       passes_check sg ds → t ≠ [] → ¬ is_number t →
       parse str = Ok (mk 0 0)).
Proof.
  split_and!.
  - apply parse_no_number.
  - intros ws sg ds rest Hs Hnum Hend. split.
    + intros Hpass Hcolon. by eapply parse_no_colon.
    + intros Hfail. by eapply parse_too_large.
  - intros ws sg ds t. apply parse_trailing.
Qed.

End channel_position_facts.

(** ** Examples for channel positions *)

Section PositionExamples.

Import channel_position channel_position_facts.
Local Open Scope N_scope.
Local Open Scope string_scope.

(** The largest valid position. *)
Lemma parse_str_witness :
  valid (mk 4294967295 18446744073709551615)
  ∧ str (mk 4294967295 18446744073709551615) = "4294967295:18446744073709551615"
  ∧ parse (str (mk 4294967295 18446744073709551615))
    = Ok (mk 4294967295 18446744073709551615).
Proof.
  assert (valid (mk 4294967295 18446744073709551615)) as Hvalid
    by (split; vm_compute; discriminate).
  split; [ exact Hvalid | ]. split; [ vm_compute; reflexivity | ].
  apply (parse_str (mk 4294967295 18446744073709551615)). exact Hvalid.
Defined.

(** C9, the claim as stated fails: "+1:2" is not of the form "<gen>:<pos>",
    no position is rendered with a sign, yet it parses to [(1,2)]; and
    "4294967296:0", whose first number is no 32-bit integer, does not make
    [parse] return at all: the check on [gen] is fatal. *)
Lemma parse_malformed_counterexample :
  (¬ well_formed "+1:2" ∧ parse "+1:2" = Ok (mk 1 2))
  ∧ (¬ well_formed "4294967296:0" ∧ parse "4294967296:0" = Fatal CheckFailed).
Proof.
  split; split; [ | vm_compute; reflexivity | | vm_compute; reflexivity ].
  - intros (p & _ & Hstr). unfold str in Hstr.
    destruct (to_string_digits (gen p)) as (Hall & Hne & _).
    destruct (to_string (gen p)) as [ | c ds ]; [ done | ].
    apply Forall_cons in Hall as [Hc _]. simpl in Hstr. injection Hstr as <- _.
    discriminate.
  - intros (p & Hvalid & Hstr).
    assert (parse (str p) = Ok p) as Hparse.
    { destruct Hvalid as [Hg Hq]. unfold str.
      destruct (to_string_digits (gen p)) as (_ & _ & Hgv).
      destruct (to_string_digits (pos p)) as (_ & _ & Hqv).
      rewrite parse_digits_colon_digits; rewrite ?Hgv, ?Hqv; try done;
        try apply to_string_number.
      by destruct p. }
    rewrite <- Hstr in Hparse. vm_compute in Hparse. discriminate.
Qed.

(** One string for each way of returning [(0,0)], and one fatal. *)
Lemma parse_malformed_witness :
  (¬ starts_with_number (c_str "abc") ∧ parse "abc" = Ok (mk 0 0))
  ∧ parse "12x" = Ok (mk 0 0)
  ∧ parse "4294967296" = Fatal CheckFailed
  ∧ (¬ is_number (list_ascii_of_string "2x") ∧ parse "1:2x" = Ok (mk 0 0)).
Proof.
  assert (¬ starts_with_number (c_str "abc")) as Hno.
  { intros H. apply read_number_progress in H. by apply H. }
  assert (¬ is_number (list_ascii_of_string "2x")) as Hnot.
  { intros H. apply is_number_read in H. vm_compute in H. discriminate. }
  assert (∀ ds, Forall (λ c, isdigit c = true) ds → ds ≠ [] → number [] [] ds) as Hnum
    by (intros ds Hall Hne; split_and!; [ done | by left | done.. ]).
  split; [ split; [ exact Hno | ] | split; [ | split; [ | split; [ exact Hnot | ] ] ] ].
  - destruct (parse_malformed "abc") as (H & _). by apply H.
  - destruct (parse_malformed "12x") as (_ & H & _).
    destruct (H [] [] (list_ascii_of_string "12") (list_ascii_of_string "x")) as [Hok _].
    + reflexivity.
    + apply Hnum; [ by repeat constructor | done ].
    + reflexivity.
    + apply Hok; [ right; vm_compute; discriminate | discriminate ].
  - destruct (parse_malformed "4294967296") as (_ & H & _).
    destruct (H [] [] (list_ascii_of_string "4294967296") []) as [_ Hbad].
    + reflexivity.
    + apply Hnum; [ by repeat constructor | done ].
    + exact I.
    + apply Hbad. intros [Hsg | Hle]; [ discriminate | ].
      vm_compute in Hle. by apply Hle.
  - destruct (parse_malformed "1:2x") as (_ & _ & H).
    apply (H [] [] (list_ascii_of_string "1") (list_ascii_of_string "2x")).
    + reflexivity.
    + apply Hnum; [ by repeat constructor | done ].
    + right. vm_compute. discriminate.
    + discriminate.
    + exact Hnot.
Defined.

End PositionExamples.

(** ** More about the bot instance *)

Section BotInstanceMore.

Context {U owned_image_metadata : Type}.

Local Abbreviation instance := (bot_instance U).
Local Abbreviation output := (bot_output owned_image_metadata).
Local Abbreviation packet := (owned_image_packet owned_image_metadata).

Implicit Types (b : instance) (m : bot_message) (id : frame_id).

(** *** What the steps leave alone *)

Lemma run_calls_stats calls b b' :
  run_calls calls b = Ok b' → stats b' = stats b.
Proof.
  revert b. induction calls as [ | c calls IH ]; intros b H; simpl in H.
  - by injection H as <-.
  - apply bind_ok in H as (b1 & Hc & H). rewrite (IH _ H).
    destruct c as [kind message id | id]; simpl in Hc.
    + unfold queue_message in Hc. destruct (is_object message); [ | discriminate ].
      by injection Hc as <-.
    + by injection Hc as <-.
Qed.

Lemma run_calls_frame_id calls b b' :
  no_frame_id_call calls → run_calls calls b = Ok b' →
  _current_frame_id b' = _current_frame_id b.
Proof.
  revert b. induction calls as [ | c calls IH ]; intros b Hno H; simpl in H.
  - by injection H as <-.
  - apply bind_ok in H as (b1 & Hc & H). rewrite (IH b1); [ | | done ].
    + destruct c as [kind message id | id]; simpl in Hc.
      * by apply queue_message_ok in Hc as (_ & _ & _ & _ & _ & ? & _).
      * destruct (Hno id). by left.
    + intros id Hin. apply (Hno id). by right.
Qed.

Lemma call_img_callback_stats frames b b' :
  call_img_callback frames b = Ok b' → stats b' = stats b.
Proof.
  unfold call_img_callback. destruct (img_callback _ _ _ _) as [u calls].
  intros H. by apply run_calls_stats in H.
Qed.

Lemma call_ctrl_callback_stats cmd b response b' :
  call_ctrl_callback cmd b = Ok (response, b') → stats b' = stats b.
Proof.
  unfold call_ctrl_callback. destruct (ctrl_callback _) as [cb | ]; [ | discriminate ].
  destruct (cb _ _ _) as [[u calls] resp]. intros H.
  apply bind_ok in H as (b1 & Hrun & H). injection H as _ <-.
  by apply run_calls_stats in Hrun.
Qed.

Lemma queue_message_stats kind message id b b' :
  queue_message kind message id b = Ok b' → stats b' = stats b.
Proof.
  unfold queue_message. destruct (is_object message); [ | discriminate ].
  by intros [= <-].
Qed.

(** *** The counters *)

Lemma counter_increment label label' c :
  counter label' (increment label c)
  = if decide (label = label') then S (counter label' c) else counter label' c.
Proof.
  unfold counter, increment. destruct (decide (label = label')) as [-> | Hne].
  - by rewrite lookup_insert_eq.
  - by rewrite lookup_insert_ne.
Qed.

Lemma kind_label_inj k1 k2 : kind_label k1 = kind_label k2 → k1 = k2.
Proof. by destruct k1, k2. Qed.

Lemma kind_eqb_eq k1 k2 : kind_eqb k1 k2 = true ↔ k1 = k2.
Proof. destruct k1, k2; simpl; split; congruence. Qed.

Lemma count_kind_cons k m msgs :
  count_kind k (m :: msgs)
  = ((if kind_eqb (msg_kind m) k then 1 else 0) + count_kind k msgs)%nat.
Proof.
  unfold count_kind. rewrite filter_cons.
  destruct (kind_eqb (msg_kind m) k) eqn:E.
  - by rewrite decide_True.
  - by rewrite decide_False.
Qed.

Lemma count_kind_app k l1 l2 :
  count_kind k (l1 ++ l2) = (count_kind k l1 + count_kind k l2)%nat.
Proof. unfold count_kind. by rewrite filter_app, length_app. Qed.

Lemma count_kind_stamp k bot_id msgs :
  count_kind k (map (stamp bot_id) msgs) = count_kind k msgs.
Proof.
  induction msgs as [ | m msgs IH ]; [ done | ].
  simpl. by rewrite !count_kind_cons, IH.
Qed.

Lemma prepare_messages_sent bot_id msgs :
  ∀ sent out sent',
    prepare_messages bot_id msgs sent = Ok (out, sent') →
    (∀ k, counter (kind_label k) sent'
          = (counter (kind_label k) sent + count_kind k msgs)%nat)
    ∧ ∀ label, (∀ k, label ≠ kind_label k) → counter label sent' = counter label sent.
Proof.
  induction msgs as [ | m msgs IH ]; intros sent out sent' H; simpl in H.
  - injection H as _ <-. split; [ intros k; unfold count_kind; simpl; lia | done ].
  - destruct (is_object (msg_data m)); [ | discriminate ].
    apply bind_ok in H as ([rest' s'] & Hrest & H). injection H as _ <-.
    apply IH in Hrest as [Hkinds Hother]. split.
    + intros k. rewrite Hkinds, counter_increment, count_kind_cons.
      destruct (decide (kind_label (msg_kind m) = kind_label k)) as [Heq | Hne].
      * apply kind_label_inj in Heq. apply kind_eqb_eq in Heq as ->. lia.
      * destruct (kind_eqb (msg_kind m) k) eqn:E; [ | lia ].
        apply kind_eqb_eq in E. by destruct Hne; rewrite E.
    + intros label Hlabel. rewrite Hother, counter_increment by done.
      by rewrite decide_False.
Qed.

Lemma prepare_counters b b' :
  prepare_message_buffer_for_downstream b = Ok b' →
  (∀ k, counter (kind_label k) (messages_sent (stats b'))
        = (counter (kind_label k) (messages_sent (stats b))
           + count_kind k (_message_buffer b))%nat)
  ∧ messages_received (stats b') = messages_received (stats b).
Proof.
  unfold prepare_message_buffer_for_downstream. intros H.
  apply bind_ok in H as ([buf sent] & Hp & H). injection H as <-. simpl.
  apply prepare_messages_sent in Hp as [Hk _]. by split.
Qed.

(** *** Steps *)

Lemma output_messages_app (o1 o2 : list output) :
  output_messages (o1 ++ o2) = output_messages o1 ++ output_messages o2.
Proof.
  induction o1 as [ | o o1 IH ]; [ done | ]. destruct o; simpl; by rewrite ?IH.
Qed.

Lemma output_messages_of_buffer (msgs : list bot_message) :
  output_messages (map (@OutMessage owned_image_metadata) msgs) = msgs.
Proof. induction msgs as [ | m msgs IH ]; [ done | ]. simpl. by rewrite IH. Qed.

Lemma output_messages_packets (pp : list packet) :
  output_messages (map packet_output pp) = [].
Proof. induction pp as [ | p pp IH ]; [ done | ]. by destruct p. Qed.

Lemma step_ok_idle b b' :
  _bot_id b' = _bot_id b → _descriptor b' = _descriptor b →
  _message_buffer b' = _message_buffer b →
  messages_sent (stats b') = messages_sent (stats b) →
  _current_frame_id b' = _current_frame_id b →
  ∀ out : list output, output_messages out = [] → step_ok b out b'.
Proof.
  intros Hid Hd Hbuf Hsent Hcur out Hout. unfold step_ok. split_and!; try done.
  - exists [], []. by rewrite Hbuf, Hout, app_nil_r.
  - unfold buffer_ok. by rewrite Hbuf.
  - intros k. rewrite Hsent, Hout. unfold count_kind. simpl. lia.
Qed.

Lemma step_ok_trans b (o1 : list output) b1 o2 b2 :
  step_ok b o1 b1 → step_ok b1 o2 b2 → step_ok b (o1 ++ o2) b2.
Proof.
  intros (Hid1 & Hd1 & (e1 & q1 & Hb1 & Ho1) & Hok1 & Hs1 & Hc1)
         (Hid2 & Hd2 & (e2 & q2 & Hb2 & Ho2) & Hok2 & Hs2 & Hc2).
  unfold step_ok. split_and!.
  - by rewrite Hid2.
  - by rewrite Hd2.
  - exists (e1 ++ e2), (q1 ++ q2). split.
    + by rewrite <- app_assoc, Hb2, !app_assoc, Hb1.
    + by rewrite output_messages_app, Ho1, Ho2, Hid1, map_app.
  - auto.
  - intros k. rewrite Hs2, Hs1, output_messages_app, count_kind_app. lia.
  - intros Hkeep. rewrite Hc2, Hc1; [ done.. | by rewrite Hd1 ].
Qed.

(** A drain after some messages were queued: everything is emitted. *)
Lemma step_ok_drain b b1 b2 queued :
  _bot_id b1 = _bot_id b → _descriptor b1 = _descriptor b →
  _message_buffer b1 = _message_buffer b ++ queued →
  (buffer_ok b → buffer_ok b1) →
  messages_sent (stats b1) = messages_sent (stats b) →
  (keeps_frame_id (_descriptor b) → _current_frame_id b1 = _current_frame_id b) →
  prepare_message_buffer_for_downstream b1 = Ok b2 →
  ∀ front : list output,
    output_messages front = [] →
    step_ok b (front ++ map OutMessage (_message_buffer b2)) (with_message_buffer [] b2).
Proof.
  intros Hid Hd Hbuf Hok Hsent Hcur Hprep front Hfront.
  pose proof (prepare_counters _ _ Hprep) as [Hk _].
  apply prepare_ok in Hprep as (Hb2 & _ & Hid2 & Hd2 & _ & Hcur2 & _).
  unfold step_ok. simpl.
  rewrite output_messages_app, Hfront, output_messages_of_buffer. simpl.
  split_and!.
  - by rewrite Hid2.
  - by rewrite Hd2.
  - exists (_message_buffer b ++ queued), queued.
    rewrite app_nil_r. split; [ done | ]. by rewrite Hb2, Hbuf, Hid.
  - intros _. constructor.
  - intros k. rewrite Hk, Hsent, Hb2, count_kind_stamp. done.
  - intros Hkeep. rewrite Hcur2. by apply Hcur.
Qed.

Lemma call_img_callback_frame_id frames b b' :
  keeps_frame_id (_descriptor b) → call_img_callback frames b = Ok b' →
  _current_frame_id b' = _current_frame_id b.
Proof.
  intros [Himg _]. unfold call_img_callback.
  specialize (Himg (instance_data b) (_image_metadata b) frames).
  destruct (img_callback _ _ _ _) as [u calls]. intros H.
  by apply run_calls_frame_id in H.
Qed.

Lemma call_ctrl_callback_frame_id cmd b response b' :
  keeps_frame_id (_descriptor b) → call_ctrl_callback cmd b = Ok (response, b') →
  _current_frame_id b' = _current_frame_id b.
Proof.
  intros [_ Hctrl]. unfold call_ctrl_callback.
  destruct (ctrl_callback _) as [cb | ] eqn:Hcb; [ | discriminate ].
  specialize (Hctrl cb (instance_data b) (_image_metadata b) cmd eq_refl).
  destruct (cb _ _ _) as [[u calls] resp]. intros H.
  apply bind_ok in H as (b1 & Hrun & H). injection H as _ <-.
  by apply run_calls_frame_id in Hrun.
Qed.

Lemma operator_call_packets_step (pp : list packet) b out b' :
  operator_call_packets pp b = Ok (out, b') → step_ok b out b'.
Proof.
  unfold operator_call_packets. intros H.
  apply bind_ok in H as ([bframes b1] & Hex & H).
  apply extract_frames_ok in Hex as (Hid & Hd & Hbuf & Hcur & _ & Hstats & _).
  simpl in *.
  destruct bframes as [ | v views ].
  - injection H as <- <-.
    apply step_ok_idle; try done; [ by rewrite Hstats | apply output_messages_packets ].
  - apply bind_ok in H as (b2 & Hcb & H).
    apply bind_ok in H as (b3 & Hprep & H). injection H as <- <-.
    pose proof (call_img_callback_stats _ _ _ Hcb) as Hstats2.
    pose proof (λ Hk, call_img_callback_frame_id _ _ _ Hk Hcb) as Hcur2.
    apply call_img_callback_ok in Hcb
      as ((u & calls & q & _ & _ & Hq & _) & _ & _ & Hid2 & Hd2 & _ & Hok2).
    eapply (step_ok_drain b (count_batch b2) b3 q); simpl; try done.
    + by rewrite Hid2.
    + by rewrite Hd2.
    + by rewrite Hq, Hbuf.
    + intros Hok. apply Hok2. unfold buffer_ok. by rewrite Hbuf.
    + by rewrite Hstats2, Hstats.
    + intros Hk. rewrite Hcur2, Hcur; [ done | by rewrite Hd ].
    + apply output_messages_packets.
Qed.

Lemma control_single_step msg b (out : list output) b' :
  control_single msg b = Ok (out, b') →
  step_ok b out b'
  ∧ messages_received (stats b') = messages_received (stats b).
Proof.
  unfold control_single. intros H.
  destruct (negb (is_object msg) || negb (has_key "to" msg)).
  { injection H as <- <-. split; [ | done ]. by apply step_ok_idle. }
  destruct (string_empty (_bot_id b) || _).
  { injection H as <- <-. split; [ | done ]. by apply step_ok_idle. }
  apply bind_ok in H as ([response b1] & Hcb & H).
  apply bind_ok in H as (b2 & Hq & H).
  apply bind_ok in H as (b3 & Hprep & H). injection H as <- <-. simpl.
  pose proof (call_ctrl_callback_stats _ _ _ _ Hcb) as Hstats1.
  pose proof (λ Hk, call_ctrl_callback_frame_id _ _ _ _ Hk Hcb) as Hcur1.
  apply call_ctrl_callback_ok in Hcb
    as ((cb & u & calls & q & _ & _ & _ & Hq1 & _) & _ & _ & Hid1 & Hd1 & _ & Hok1).
  assert (∃ reply, _message_buffer b2 = _message_buffer b1 ++ reply
                   ∧ _bot_id b2 = _bot_id b1 ∧ _descriptor b2 = _descriptor b1
                   ∧ stats b2 = stats b1
                   ∧ _current_frame_id b2 = _current_frame_id b1
                   ∧ (buffer_ok b1 → buffer_ok b2))
    as (reply & Hbuf2 & Hid2 & Hd2 & Hstats2 & Hcur2 & Hok2).
  { destruct (negb (is_null response)).
    - destruct (is_object response); [ | discriminate ].
      pose proof (queue_message_stats _ _ _ _ _ Hq) as Hst.
      pose proof (queue_message_buffer_ok _ _ _ _ _ Hq) as Hok.
      apply queue_message_ok in Hq as (_ & [eff Hbuf] & ? & ? & _ & ? & _).
      eexists. by split_and!.
    - injection Hq as <-. exists []. by rewrite app_nil_r. }
  split.
  - apply (step_ok_drain b b2 b3 (q ++ reply)) with (front := []);
      [ by rewrite Hid2 | by rewrite Hd2 | by rewrite Hbuf2, Hq1, app_assoc | auto
      | by rewrite Hstats2, Hstats1 | intros Hk; rewrite Hcur2; by apply Hcur1
      | exact Hprep | done ].
  - apply prepare_counters in Hprep as [_ Hrecv].
    by rewrite Hrecv, Hstats2, Hstats1.
Qed.

Lemma received_increment_other label c :
  label ≠ "control"%string →
  counter label (increment "control" c) = counter label c.
Proof. intros Hne. rewrite counter_increment. by rewrite decide_False. Qed.

Lemma count_received_step b : step_ok (M := owned_image_metadata) b [] (count_received b).
Proof. by apply step_ok_idle. Qed.

Lemma operator_call_json_step msg :
  ∀ b (out : list output) b',
    operator_call_json msg b = Ok (out, b') →
    step_ok b out b'
    ∧ counter "control" (messages_received (stats b'))
      = (counter "control" (messages_received (stats b)) + control_inputs msg)%nat
    ∧ ∀ label, label ≠ "control"%string →
               counter label (messages_received (stats b'))
               = counter label (messages_received (stats b)).
Proof.
  assert (∀ msg b (out : list output) b',
            control_single msg b = Ok (out, b') →
            step_ok b out b'
            ∧ counter "control" (messages_received (stats b'))
              = counter "control" (messages_received (stats b))
            ∧ ∀ label, counter label (messages_received (stats b'))
                       = counter label (messages_received (stats b))) as Hsingle.
  { intros msg0 b out b' H. apply control_single_step in H as [Hstep ->]. done. }
  assert (∀ b (out : list output) b' n,
            (step_ok (count_received b) out b'
             ∧ counter "control" (messages_received (stats b'))
               = (counter "control" (messages_received (stats (count_received b))) + n)%nat
             ∧ ∀ label, label ≠ "control"%string →
                        counter label (messages_received (stats b'))
                        = counter label (messages_received (stats (count_received b)))) →
            step_ok b out b'
            ∧ counter "control" (messages_received (stats b'))
              = (counter "control" (messages_received (stats b)) + S n)%nat
            ∧ ∀ label, label ≠ "control"%string →
                       counter label (messages_received (stats b'))
                       = counter label (messages_received (stats b))) as Hcount.
  { intros b out b' n (Hstep & Hc & Hother). split_and!.
    - exact (step_ok_trans b [] _ out b' (count_received_step b) Hstep).
    - rewrite Hc. simpl. rewrite counter_increment, decide_True by done. lia.
    - intros label Hne. rewrite (Hother label Hne). simpl.
      by apply received_increment_other. }
  induction msg as [ | v | z | s | elements IH | obj ] using json_array_ind;
    intros b out b' H; simpl in H;
    try (apply (Hcount b out b' O); apply Hsingle in H as (? & -> & Hl);
         split_and!; [ done | lia | intros; apply Hl ]).
  apply (Hcount b out b' (list_sum (map control_inputs elements))).
  generalize dependent (count_received b). clear b Hcount Hsingle.
  intros b. revert b out b'.
  induction IH as [ | el rest Hel _ IHrest ]; intros b out b' H; simpl in H.
  - injection H as <- <-. split_and!; [ by apply step_ok_idle | simpl; lia | done ].
  - apply bind_ok in H as ([o1 b1] & H1 & H).
    apply bind_ok in H as ([o2 b2] & H2 & H). injection H as <- <-.
    apply Hel in H1 as (Hs1 & Hc1 & Hl1).
    apply IHrest in H2 as (Hs2 & Hc2 & Hl2).
    split_and!.
    + by eapply step_ok_trans.
    + rewrite Hc2, Hc1. simpl. lia.
    + intros label Hne. by rewrite Hl2, Hl1.
Qed.

Lemma apply_visitor_step (p : bot_input owned_image_metadata) b (out : list output) b' :
  apply_visitor p b = Ok (out, b') → step_ok b out b'.
Proof.
  destruct p as [ pp | msg ]; simpl; intros H.
  - by eapply operator_call_packets_step.
  - by apply operator_call_json_step in H as [? _].
Qed.

Lemma main_stream_step (src : list (bot_input owned_image_metadata)) :
  ∀ b (out : list output) b', main_stream src b = Ok (out, b') → step_ok b out b'.
Proof.
  unfold main_stream.
  induction src as [ | p src IH ]; intros b out b' H; simpl in H.
  - injection H as <- <-. by apply step_ok_idle.
  - apply bind_ok in H as ([o1 b1] & H1 & H).
    apply bind_ok in H as ([o2 b2] & H2 & H). injection H as <- <-.
    eapply step_ok_trans; [ by eapply apply_visitor_step | by apply IH ].
Qed.

Lemma configure_buffer_ok config b b' :
  configure config b = Ok b' → buffer_ok b → buffer_ok b'.
Proof.
  unfold configure. intros H Hok.
  destruct (ctrl_callback (_descriptor b)).
  - apply bind_ok in H as ([response b1] & Hcb & H).
    apply call_ctrl_callback_ok in Hcb as (_ & _ & _ & _ & _ & _ & Hok1).
    destruct (negb (is_null response)).
    + eapply queue_message_buffer_ok; eauto.
    + injection H as <-. auto.
  - destruct (is_null config); [ | discriminate ]. by injection H as <-.
Qed.

(** X1.  Every buffered message carries an object, and the steps of the
    instance keep it so: [queue_message] is the only writer of the buffer
    and checks its argument.  Hence, after [configure] and after any run of
    the main stream, a drain passes its own check on the data. *)
Theorem buffered_data_stay_objects b :
  buffer_ok b →
  (∀ config b', configure config b = Ok b' → buffer_ok b')
  ∧ (∀ p (out : list output) b', apply_visitor p b = Ok (out, b') → buffer_ok b')
  ∧ (∀ src (out : list output) b',
       main_stream src b = Ok (out, b') →
       buffer_ok b'
       ∧ ∃ b'', prepare_message_buffer_for_downstream b' = Ok b'').
Proof.
  intros Hok. split_and!.
  - intros config b' H. by eapply configure_buffer_ok.
  - intros p out b' H. apply apply_visitor_step in H as (_ & _ & _ & Hinv & _). auto.
  - intros src out b' H. apply main_stream_step in H as (_ & _ & _ & Hinv & _).
    split; [ auto | ]. apply prepare_total. auto.
Qed.

Lemma pulls_shutdown_not_started n b b1 :
  shutdown_init b = Ok b1 →
  pulls (T := output) shutdown_stream (S n) NotStarted b
  = pulls shutdown_stream (S n) Active b1.
Proof.
  intros Hinit.
  change (pulls shutdown_stream (S n) NotStarted b)
    with ('(sig, ph', s') ← (s0 ← shutdown_init b; pump_once shutdown_stream s0);
          '(out, ph'', s'') ← pulls (T := output) shutdown_stream n ph' s';
          Ok (match sig with Some (OnNext t) => t :: out | _ => out end, ph'', s'')).
  by rewrite Hinit.
Qed.

(** X4.  The counters of sent messages agree with what is emitted: over a
    call of the visitor, and over a run of the main stream, the counter of
    each kind grows by the number of messages of that kind in the output. *)
Theorem sent_counters_count_emitted b :
  (∀ p (out : list output) b' k,
     apply_visitor p b = Ok (out, b') →
     counter (kind_label k) (messages_sent (stats b'))
     = (counter (kind_label k) (messages_sent (stats b))
        + count_kind k (output_messages out))%nat)
  ∧ (∀ src (out : list output) b' k,
       main_stream src b = Ok (out, b') →
       counter (kind_label k) (messages_sent (stats b'))
       = (counter (kind_label k) (messages_sent (stats b))
          + count_kind k (output_messages out))%nat).
Proof.
  split.
  - intros p out b' k H. by apply apply_visitor_step in H as (_ & _ & _ & _ & Hs & _).
  - intros src out b' k H. by apply main_stream_step in H as (_ & _ & _ & _ & Hs & _).
Qed.

(** X5.  The counter of received control messages grows once for every
    entry into the control overload: by one for a message that is not an
    array, and for an array by one more than its elements add up to, nested
    arrays included; dropped messages count too.  No other label of the
    counter is touched. *)
Theorem received_counter_counts_inputs msg b (out : list output) b' :
  operator_call_json msg b = Ok (out, b') →
  counter "control" (messages_received (stats b'))
  = (counter "control" (messages_received (stats b)) + control_inputs msg)%nat
  ∧ ∀ label, label ≠ "control"%string →
             counter label (messages_received (stats b'))
             = counter label (messages_received (stats b)).
Proof. intros H. by apply operator_call_json_step in H as (_ & ? & ?). Qed.

(** X6.  The instance itself never assigns [_current_frame_id]: unless a
    callback calls [set_current_frame_id], the id is the same after a call
    of the visitor, and after a whole run of the main stream, as before. *)
Theorem current_frame_id_left_to_callbacks b :
  keeps_frame_id (_descriptor b) →
  (∀ p (out : list output) b',
     apply_visitor p b = Ok (out, b') → _current_frame_id b' = _current_frame_id b)
  ∧ (∀ src (out : list output) b',
       main_stream src b = Ok (out, b') → _current_frame_id b' = _current_frame_id b).
Proof.
  intros Hkeep. split.
  - intros p out b' H. apply apply_visitor_step in H as (_ & _ & _ & _ & _ & Hc). auto.
  - intros src out b' H. apply main_stream_step in H as (_ & _ & _ & _ & _ & Hc). auto.
Qed.

Lemma only_messages_app (o1 o2 : list output) :
  o1 = map OutMessage (output_messages o1) →
  o2 = map OutMessage (output_messages o2) →
  o1 ++ o2 = map OutMessage (output_messages (o1 ++ o2)).
Proof.
  intros H1 H2. rewrite output_messages_app, map_app. by rewrite <- H1, <- H2.
Qed.

Lemma control_single_img msg b (out : list output) b' :
  control_single msg b = Ok (out, b') →
  out = map OutMessage (output_messages out) ∧ img_calls b' = img_calls b.
Proof.
  unfold control_single. intros H.
  destruct (negb (is_object msg) || negb (has_key "to" msg));
    [ by injection H as <- <- | ].
  destruct (string_empty (_bot_id b) || _); [ by injection H as <- <- | ].
  apply bind_ok in H as ([response b1] & Hcb & H).
  apply bind_ok in H as (b2 & Hq & H).
  apply bind_ok in H as (b3 & Hprep & H). injection H as <- <-.
  split; [ by rewrite output_messages_of_buffer | ]. simpl.
  apply call_ctrl_callback_ok in Hcb as (_ & _ & Himg1 & _).
  apply prepare_ok in Hprep as (_ & _ & _ & _ & _ & _ & _ & _ & ->).
  rewrite <- Himg1.
  destruct (negb (is_null response)); [ | by injection Hq as <- ].
  destruct (is_object response); [ | discriminate ].
  by apply queue_message_ok in Hq as (_ & _ & _ & _ & _ & _ & _ & _ & ?).
Qed.

(** X7.  A control message never reaches the image side of the bot: the
    output of the control overload consists of bot messages only, no frame
    or other packet, and neither the image callback is invoked nor the image
    metadata changed, however the message is nested in arrays. *)
Theorem control_message_leaves_images_alone msg :
  ∀ b (out : list output) b',
    operator_call_json msg b = Ok (out, b') →
    out = map OutMessage (output_messages out)
    ∧ img_calls b' = img_calls b
    ∧ _image_metadata b' = _image_metadata b.
Proof.
  intros b out b' H.
  pose proof (operator_call_json_ok _ _ _ _ H) as (_ & _ & Hmd & _).
  enough (out = map OutMessage (output_messages out) ∧ img_calls b' = img_calls b)
    as [? ?] by done.
  clear Hmd. revert b out b' H.
  induction msg as [ | v | z | s | elements IH | obj ] using json_array_ind;
    intros b out b' H; simpl in H; try by apply control_single_img in H.
  change (img_calls b) with (img_calls (count_received b)).
  generalize dependent (count_received b). clear b. intros b. revert b out b'.
  induction IH as [ | el rest Hel _ IHrest ]; intros b out b' H; simpl in H.
  - by injection H as <- <-.
  - apply bind_ok in H as ([o1 b1] & H1 & H).
    apply bind_ok in H as ([o2 b2] & H2 & H). injection H as <- <-.
    apply Hel in H1 as [Ho1 Hi1]. apply IHrest in H2 as [Ho2 Hi2].
    split; [ by apply only_messages_app | by rewrite Hi2 ].
Qed.

End BotInstanceMore.

(** ** Pending messages *)

Section PendingMessages.

Context {U owned_image_metadata : Type}.

Local Abbreviation instance := (bot_instance U).
Local Abbreviation output := (bot_output owned_image_metadata).
Local Abbreviation packet := (owned_image_packet owned_image_metadata).
Local Abbreviation framed := (frames_pending (U := U) (M := owned_image_metadata)).

Implicit Types (b : instance) (m : bot_message) (pend : list bot_message).

Lemma pending_before_own b : pending_before (_message_buffer b) (with_message_buffer [] b) b.
Proof.
  exists (messages_sent (stats b)). destruct b as [? ? ? ? ? ? [? ? ? ?] ? ?]. simpl.
  unfold with_stats, with_message_buffer. simpl. by rewrite app_nil_r.
Qed.

Lemma pending_before_fields pend b0 b :
  pending_before pend b0 b →
  _bot_id b = _bot_id b0 ∧ _descriptor b = _descriptor b0
  ∧ _message_buffer b = pend ++ _message_buffer b0.
Proof. intros [sent ->]. by destruct b0. Qed.

Lemma queue_message_pending kind message id pend b0 b b' :
  pending_before pend b0 b → queue_message kind message id b = Ok b' →
  ∃ b0', queue_message kind message id b0 = Ok b0' ∧ pending_before pend b0' b'.
Proof.
  intros [sent ->] H. destruct b0 as [? ? ? buf ? ? [? ? ? ?] ? ?].
  unfold queue_message in *. simpl in *.
  destruct (is_object message); [ | discriminate ]. injection H as <-.
  eexists. split; [ reflexivity | ]. exists sent.
  unfold with_stats, with_message_buffer. simpl. by rewrite app_assoc.
Qed.

Lemma run_calls_pending calls :
  ∀ pend b0 b b',
    pending_before pend b0 b → run_calls calls b = Ok b' →
    ∃ b0', run_calls calls b0 = Ok b0' ∧ pending_before pend b0' b'.
Proof.
  induction calls as [ | c calls IH ]; intros pend b0 b b' HR H; simpl in H.
  - injection H as <-. by exists b0.
  - apply bind_ok in H as (b1 & Hc & H).
    assert (∃ b01, run_call c b0 = Ok b01 ∧ pending_before pend b01 b1) as (b01 & Hc0 & HR1).
    { destruct c as [kind message id | id]; simpl in *.
      - by eapply queue_message_pending.
      - injection Hc as <-. eexists. split; [ reflexivity | ].
        destruct HR as [sent ->]. exists sent. by destruct b0. }
    destruct (IH _ _ _ _ HR1 H) as (b0' & H0 & HR').
    exists b0'. split; [ | done ]. simpl. by rewrite Hc0.
Qed.

Lemma call_img_callback_pending frames pend b0 b b' :
  pending_before pend b0 b → call_img_callback frames b = Ok b' →
  ∃ b0', call_img_callback frames b0 = Ok b0' ∧ pending_before pend b0' b'.
Proof.
  intros HR H. unfold call_img_callback in *.
  assert (img_callback (_descriptor b) (instance_data b) (_image_metadata b) frames
          = img_callback (_descriptor b0) (instance_data b0) (_image_metadata b0) frames)
    as Heq by (destruct HR as [sent ->]; by destruct b0).
  rewrite Heq in H.
  destruct (img_callback (_descriptor b0) (instance_data b0) (_image_metadata b0) frames)
    as [u calls].
  eapply run_calls_pending; [ | exact H ].
  destruct HR as [sent ->]. exists sent. by destruct b0.
Qed.

Lemma call_ctrl_callback_pending cmd pend b0 b response b' :
  pending_before pend b0 b → call_ctrl_callback cmd b = Ok (response, b') →
  ∃ b0', call_ctrl_callback cmd b0 = Ok (response, b0') ∧ pending_before pend b0' b'.
Proof.
  intros HR H. unfold call_ctrl_callback in *.
  assert (ctrl_callback (_descriptor b) = ctrl_callback (_descriptor b0)
          ∧ instance_data b = instance_data b0 ∧ _image_metadata b = _image_metadata b0)
    as (Hd & Hu & Hmd) by (destruct HR as [sent ->]; by destruct b0).
  rewrite Hd, Hu, Hmd in H.
  destruct (ctrl_callback (_descriptor b0)) as [ cb | ]; [ | discriminate ].
  destruct (cb (instance_data b0) (_image_metadata b0) cmd) as [[u calls] resp].
  apply bind_ok in H as (b1 & Hrun & [= <- <-]).
  assert (pending_before pend (with_instance_data u (log_ctrl_call cmd b0))
            (with_instance_data u (log_ctrl_call cmd b))) as HR1
    by (destruct HR as [sent ->]; exists sent; by destruct b0).
  destruct (run_calls_pending calls _ _ _ _ HR1 Hrun) as (b0' & H0 & HR').
  exists b0'. by rewrite H0.
Qed.

Lemma prepare_messages_app bot_id l1 :
  ∀ l2 sent out sent',
    prepare_messages bot_id (l1 ++ l2) sent = Ok (out, sent') →
    ∃ sent1, prepare_messages bot_id l1 sent = Ok (map (stamp bot_id) l1, sent1)
             ∧ prepare_messages bot_id l2 sent1
               = Ok (map (stamp bot_id) l2, sent')
             ∧ out = map (stamp bot_id) l1 ++ map (stamp bot_id) l2.
Proof.
  induction l1 as [ | m l1 IH ]; intros l2 sent out sent' H; simpl in *.
  - exists sent. split; [ done | ].
    apply prepare_messages_ok in H as Hout. destruct Hout as [-> _]. by split.
  - destruct (is_object (msg_data m)); [ | discriminate ].
    apply bind_ok in H as ([rest s1] & Hrest & [= <- <-]).
    destruct (IH _ _ _ _ Hrest) as (sent1 & H1 & H2 & ->).
    exists sent1. rewrite H1. simpl. by split_and!.
Qed.

Lemma prepare_pending pend b0 b b' :
  pending_before pend b0 b → prepare_message_buffer_for_downstream b = Ok b' →
  ∃ b0', prepare_message_buffer_for_downstream b0 = Ok b0'
         ∧ pending_before (map (stamp (_bot_id b0)) pend) b0' b'.
Proof.
  intros [sent ->] H. destruct b0 as [id d md buf cur u [s r t z] cl il].
  unfold prepare_message_buffer_for_downstream in *. simpl in *.
  apply bind_ok in H as ([out sent'] & Hprep & [= <-]).
  apply prepare_messages_app in Hprep as (sent1 & _ & H2 & ->).
  apply prepare_messages_ok in H2 as Hobj. destruct Hobj as [_ Hobj].
  destruct (prepare_messages_total id buf s Hobj) as [sent0 H0].
  rewrite H0. simpl. eexists. split; [ reflexivity | ]. by exists sent'.
Qed.

Lemma latch_metadata_pending frame pend b0 b b' :
  pending_before pend b0 b → latch_metadata frame b = Ok b' →
  ∃ b0', latch_metadata frame b0 = Ok b0' ∧ pending_before pend b0' b'.
Proof.
  intros [sent ->] H. destruct b0 as [id d md buf cur u [s r t z] cl il].
  unfold latch_metadata in *. simpl in *.
  destruct (negb (f_width frame =? md_width md)%N || negb (f_height frame =? md_height md)%N).
  - destruct (md_width md =? 0)%N; [ | discriminate ]. injection H as <-.
    eexists. split; [ reflexivity | ]. by exists sent.
  - injection H as <-. eexists. split; [ reflexivity | ]. by exists sent.
Qed.

Lemma extract_frames_pending (packets : list output) :
  ∀ pend b0 b frames b',
    pending_before pend b0 b → extract_frames packets b = Ok (frames, b') →
    ∃ b0', extract_frames packets b0 = Ok (frames, b0') ∧ pending_before pend b0' b'.
Proof.
  induction packets as [ | o packets IH ]; intros pend b0 b frames b' HR H; simpl in H.
  - injection H as <- <-. by exists b0.
  - destruct o as [ md | frame | m ]; simpl; try by eapply IH.
    apply bind_ok in H as (b1 & Hlatch & H).
    apply bind_ok in H as ([result b2] & Hrest & [= <- <-]).
    destruct (latch_metadata_pending _ _ _ _ _ HR Hlatch) as (b01 & H01 & HR1).
    destruct (IH _ _ _ _ _ HR1 Hrest) as (b02 & H02 & HR2).
    exists b02. rewrite H01. simpl. rewrite H02. by split.
Qed.

Lemma pending_before_clear pend b0 b :
  pending_before pend b0 b →
  pending_before [] (with_message_buffer [] b0) (with_message_buffer [] b).
Proof. intros [sent ->]. exists sent. by destruct b0. Qed.

Lemma pending_before_nil_buffer pend b0 b :
  pending_before pend b0 b → _message_buffer b0 = [] → _message_buffer b = pend.
Proof.
  intros HR H0. apply pending_before_fields in HR as (_ & _ & ->).
  by rewrite H0, app_nil_r.
Qed.

Lemma operator_call_packets_pending pp : framed (operator_call_packets pp).
Proof.
  intros pend b0 b out b' HR Hnil H. unfold operator_call_packets in *.
  apply bind_ok in H as ([bframes b1] & Hext & H).
  assert (pending_before pend (observe_frame_size (length pp) b0)
            (observe_frame_size (length pp) b)) as HR0
    by (destruct HR as [sent ->]; exists sent; by destruct b0 as [? ? ? ? ? ? [? ? ? ?] ? ?]).
  destruct (extract_frames_pending _ _ _ _ _ _ HR0 Hext) as (b01 & H01 & HR1).
  rewrite H01. simpl.
  apply extract_frames_ok in H01 as Hf. destruct Hf as (Hid1 & _ & Hbuf1 & _).
  simpl in Hid1, Hbuf1.
  destruct bframes as [ | fr bframes ].
  - injection H as <- <-. eexists _, _. split; [ reflexivity | ].
    split; [ done | ]. split; [ by rewrite Hbuf1 | ]. right.
    split_and!; [ | done | done | apply output_messages_packets ].
    eapply pending_before_nil_buffer; [ done | by rewrite Hbuf1 ].
  - apply bind_ok in H as (b2 & Hcb & H).
    apply bind_ok in H as (b3 & Hprep & [= <- <-]).
    destruct (call_img_callback_pending _ _ _ _ _ HR1 Hcb) as (b02 & H02 & HR2).
    rewrite H02. simpl.
    assert (pending_before pend (count_batch b02) (count_batch b2)) as HR2'
      by (destruct HR2 as [sent ->]; exists sent;
          by destruct b02 as [? ? ? ? ? ? [? ? ? ?] ? ?]).
    destruct (prepare_pending _ _ _ _ HR2' Hprep) as (b03 & H03 & HR3).
    rewrite H03. simpl. eexists _, _. split; [ reflexivity | ].
    apply call_img_callback_ok in H02 as Hc. destruct Hc as (_ & _ & _ & Hid2 & _).
    apply prepare_ok in H03 as Hp. destruct Hp as (_ & _ & Hid3 & _).
    simpl in Hid2, Hid3.
    split; [ simpl; congruence | ]. split; [ done | ]. left.
    split_and!; [ done | by eapply pending_before_clear | ].
    exists (map packet_output pp), (map OutMessage (_message_buffer b03)).
    split_and!; [ done | apply output_messages_packets | ].
    apply pending_before_fields in HR3 as (_ & _ & ->).
    rewrite map_app. do 3 f_equal. simpl. congruence.
Qed.

Lemma control_single_pending msg : framed (control_single msg).
Proof.
  intros pend b0 b out b' HR Hnil H. unfold control_single in *.
  assert (_bot_id b = _bot_id b0) as Hid by apply (pending_before_fields _ _ _ HR).
  rewrite Hid in H.
  destruct (negb (is_object msg) || negb (has_key "to" msg)).
  { injection H as <- <-. eexists _, _. split; [ reflexivity | ].
    split; [ done | ]. split; [ done | ]. right.
    split_and!; try done. by eapply pending_before_nil_buffer. }
  destruct (string_empty (_bot_id b0)
            || negb (eq_string (default JNull (get_field "to" msg)) (_bot_id b0))).
  { injection H as <- <-. eexists _, _. split; [ reflexivity | ].
    split; [ done | ]. split; [ done | ]. right.
    split_and!; try done. by eapply pending_before_nil_buffer. }
  apply bind_ok in H as ([response b1] & Hcb & H).
  apply bind_ok in H as (b2 & Hq & H).
  apply bind_ok in H as (b3 & Hprep & [= <- <-]).
  destruct (call_ctrl_callback_pending _ _ _ _ _ _ HR Hcb) as (b01 & H01 & HR1).
  rewrite H01. simpl.
  assert (∃ b02,
            (if negb (is_null response)
             then if is_object response
                  then queue_message CONTROL (copy_request_id msg response)
                         (mk_frame_id 0 0) b01
                  else Fatal CheckFailed
             else Ok b01) = Ok b02
            ∧ pending_before pend b02 b2 ∧ _bot_id b02 = _bot_id b01)
    as (b02 & H02 & HR2 & Hid2).
  { destruct (negb (is_null response)).
    - destruct (is_object response); [ | discriminate ].
      destruct (queue_message_pending _ _ _ _ _ _ _ HR1 Hq) as (b02 & H02 & HR2).
      exists b02. split_and!; try done.
      by apply queue_message_ok in H02 as (_ & _ & ? & _).
    - injection Hq as <-. by exists b01. }
  rewrite H02. simpl.
  destruct (prepare_pending _ _ _ _ HR2 Hprep) as (b03 & H03 & HR3).
  rewrite H03. simpl. eexists _, _. split; [ reflexivity | ].
  apply call_ctrl_callback_ok in H01 as Hc. destruct Hc as (_ & _ & _ & Hid1 & _).
  apply prepare_ok in H03 as Hp. destruct Hp as (_ & _ & Hid3 & _).
  split; [ simpl; congruence | ]. split; [ done | ]. left.
  split_and!; [ done | by eapply pending_before_clear | ].
  exists [], (map OutMessage (_message_buffer b03)).
  split_and!; [ done | done | ].
  apply pending_before_fields in HR3 as (_ & _ & ->).
  simpl. rewrite map_app. do 3 f_equal. congruence.
Qed.

Lemma frames_pending_nil : framed (λ b, Ok ([], b)).
Proof.
  intros pend b0 b out b' HR Hnil [= <- <-]. eexists _, _. split; [ reflexivity | ].
  split; [ done | ]. split; [ done | ]. right.
  split_and!; try done. by eapply pending_before_nil_buffer.
Qed.

Lemma pending_first_nil bot_id (out0 out : list output) b0' b' :
  pending_first bot_id [] out0 b0' out b' →
  out = out0 ∧ pending_before [] b0' b' ∧ _message_buffer b' = [].
Proof.
  intros (_ & [(Hb & HR & pre & post & -> & _ & ->) | (Hb & HR & -> & _)]); by split_and!.
Qed.

Lemma frames_pending_seq (f g : instance → outcome (list output * instance)) :
  framed f → framed g →
  framed (λ b, '(o1, b1) ← f b; '(o2, b2) ← g b1; Ok (o1 ++ o2, b2)).
Proof.
  intros Hf Hg pend b0 b out b' HR Hnil H.
  apply bind_ok in H as ([o1 b1] & H1 & H).
  apply bind_ok in H as ([o2 b2] & H2 & [= <- <-]).
  destruct (Hf _ _ _ _ _ HR Hnil H1) as (o01 & b01 & H01 & Hid1 & Hnil1 & Hcase).
  rewrite H01. simpl.
  destruct Hcase as [(Hb1 & HR1 & pre & post & -> & Hpre & ->) | (Hb1 & HR1 & -> & Hno)].
  - destruct (Hg _ _ _ _ _ HR1 Hnil1 H2) as (o02 & b02 & H02 & Hid2 & Hfirst).
    rewrite H02. simpl. eexists _, _. split; [ reflexivity | ].
    split; [ congruence | ]. split; [ apply Hfirst | ].
    apply pending_first_nil in Hfirst as (-> & HR2 & Hb2). left.
    split_and!; try done. exists pre, (post ++ o02).
    split_and!; [ by rewrite app_assoc | done | by rewrite <- !app_assoc ].
  - destruct (Hg _ _ _ _ _ HR1 Hnil1 H2) as (o02 & b02 & H02 & Hid2 & Hnil2 & Hcase).
    rewrite H02. simpl. eexists _, _. split; [ reflexivity | ].
    split; [ congruence | ]. split; [ done | ].
    destruct Hcase as [(Hb2 & HR2 & pre & post & -> & Hpre & ->) | (Hb2 & HR2 & -> & Hno2)].
    + left. split_and!; try done. exists (o01 ++ pre), post.
      split_and!; [ by rewrite app_assoc | | rewrite <- !app_assoc; congruence ].
      by rewrite output_messages_app, Hno, Hpre.
    + right. split_and!; try done. by rewrite output_messages_app, Hno, Hno2.
Qed.

Lemma each_element_pending
    (handle : json → instance → outcome (list output * instance)) elements :
  Forall (λ el, framed (handle el)) elements →
  framed (each_element handle elements).
Proof.
  induction 1 as [ | el rest Hel _ IH ].
  - apply frames_pending_nil.
  - exact (frames_pending_seq _ _ Hel IH).
Qed.

Lemma frames_pending_count_received
    (f : instance → outcome (list output * instance)) :
  framed f → framed (λ b, f (count_received b)).
Proof.
  intros Hf pend b0 b out b' HR Hnil H.
  assert (pending_before pend (count_received b0) (count_received b)) as HR'
    by (destruct HR as [sent ->]; exists sent;
        by destruct b0 as [? ? ? ? ? ? [? ? ? ?] ? ?]).
  exact (Hf _ _ _ _ _ HR' Hnil H).
Qed.

Lemma operator_call_json_pending msg :
  framed (operator_call_json msg).
Proof.
  induction msg as [ | v | z | s | elements IH | obj ] using json_array_ind;
    try exact (frames_pending_count_received _ (control_single_pending _)).
  exact (frames_pending_count_received _ (each_element_pending _ _ IH)).
Qed.

Lemma apply_visitor_pending (p : bot_input owned_image_metadata) :
  framed (apply_visitor p).
Proof.
  destruct p as [pp | msg]; [ apply operator_call_packets_pending | ].
  apply operator_call_json_pending.
Qed.

Lemma main_stream_pending (src : list (bot_input owned_image_metadata)) :
  framed (main_stream src).
Proof.
  induction src as [ | p src IH ].
  - apply frames_pending_nil.
  - exact (frames_pending_seq _ _ (apply_visitor_pending p) IH).
Qed.

(** X2.  Messages pending in the buffer are emitted first, in order and each
    exactly once, or not at all: compared with the same call of the visitor
    (and the same run of the main stream) on the instance with an empty
    buffer, either the stamped pending messages are inserted, as one block,
    in front of the first message of the output and the buffer is left
    empty, or no message is emitted and the pending ones are still buffered,
    untouched.  Nothing else depends on them: the two instances end up the
    same but for the buffer and the counters of sent messages. *)
Theorem messages_first_in_first_out b :
  (∀ p (out : list output) b',
     apply_visitor p b = Ok (out, b') →
     ∃ out0 b0,
       apply_visitor p (with_message_buffer [] b) = Ok (out0, b0)
       ∧ _message_buffer b0 = []
       ∧ ((_message_buffer b' = [] ∧ pending_before [] b0 b'
           ∧ ∃ pre post,
               out0 = pre ++ post ∧ output_messages pre = []
               ∧ out = pre ++ map OutMessage
                                (map (stamp (_bot_id b)) (_message_buffer b)) ++ post)
          ∨ (_message_buffer b' = _message_buffer b
             ∧ pending_before (_message_buffer b) b0 b'
             ∧ out = out0 ∧ output_messages out = [])))
  ∧ (∀ src (out : list output) b',
       main_stream src b = Ok (out, b') →
       ∃ out0 b0,
         main_stream src (with_message_buffer [] b) = Ok (out0, b0)
         ∧ _message_buffer b0 = []
         ∧ ((_message_buffer b' = [] ∧ pending_before [] b0 b'
             ∧ ∃ pre post,
                 out0 = pre ++ post ∧ output_messages pre = []
                 ∧ out = pre ++ map OutMessage
                                  (map (stamp (_bot_id b)) (_message_buffer b)) ++ post)
            ∨ (_message_buffer b' = _message_buffer b
               ∧ pending_before (_message_buffer b) b0 b'
               ∧ out = out0 ∧ output_messages out = []))).
Proof.
  split.
  - intros p out b' H.
    destruct (apply_visitor_pending p _ _ _ _ _ (pending_before_own b) eq_refl H)
      as (out0 & b0 & H0 & _ & Hfirst).
    by exists out0, b0.
  - intros src out b' H.
    destruct (main_stream_pending src _ _ _ _ _ (pending_before_own b) eq_refl H)
      as (out0 & b0 & H0 & _ & Hfirst).
    by exists out0, b0.
Qed.

Lemma shutdown_init_pending pend b0 b b2 :
  pending_before pend b0 b → shutdown_init b = Ok b2 →
  ∃ b02, shutdown_init b0 = Ok b02
         ∧ pending_before (map (stamp (_bot_id b0)) pend) b02 b2.
Proof.
  intros HR H. unfold shutdown_init in *.
  apply bind_ok in H as (b1 & Hcb & Hprep).
  assert (_descriptor b = _descriptor b0) as Hd by apply (pending_before_fields _ _ _ HR).
  rewrite Hd in Hcb.
  assert (∃ b01,
            match ctrl_callback (_descriptor b0) with
            | Some _ =>
                '(response, b) ← call_ctrl_callback build_shutdown_command b0;
                if negb (is_null response)
                then queue_message DEBUG response (mk_frame_id 0 0) b
                else Ok b
            | None => Ok b0
            end = Ok b01
            ∧ pending_before pend b01 b1 ∧ _bot_id b01 = _bot_id b0)
    as (b01 & H01 & HR1 & Hid1).
  { destruct (ctrl_callback (_descriptor b0)).
    - apply bind_ok in Hcb as ([response b'] & Hcall & Hq).
      destruct (call_ctrl_callback_pending _ _ _ _ _ _ HR Hcall) as (b0' & H0 & HR').
      rewrite H0. simpl.
      apply call_ctrl_callback_ok in H0 as (_ & _ & _ & Hid & _).
      destruct (negb (is_null response)).
      + destruct (queue_message_pending _ _ _ _ _ _ _ HR' Hq) as (b01 & H01 & HR1).
        exists b01. split_and!; try done.
        apply queue_message_ok in H01 as (_ & _ & ? & _). congruence.
      + injection Hq as <-. by exists b0'.
    - injection Hcb as <-. by exists b0. }
  rewrite H01. simpl.
  destruct (prepare_pending _ _ _ _ HR1 Hprep) as (b02 & H02 & HR2).
  exists b02. split; [ done | ]. by rewrite <- Hid1.
Qed.

Lemma run_bot_pulled src k b (out : list output) ph b' :
  run_bot src (S k) b = Ok (out, ph, b') ↔
  ∃ o1 b1 b2,
    main_stream src b = Ok (o1, b1) ∧ shutdown_init b1 = Ok b2
    ∧ out = o1 ++ map OutMessage (take (S k) (_message_buffer b2))
    ∧ ph = (if (S k <=? length (_message_buffer b2))%nat then Active else Completed)
    ∧ b' = with_message_buffer (drop (S k) (_message_buffer b2)) b2.
Proof.
  unfold run_bot, publishers_concat. split.
  - intros H. apply bind_ok in H as ([o1 b1] & Hmain & H).
    apply bind_ok in H as ([[o2 ph2] b2'] & Hpulls & [= <- <- <-]).
    destruct (shutdown_init b1) as [ b2 | ] eqn:Hinit.
    2: { simpl in Hpulls. by rewrite Hinit in Hpulls. }
    rewrite (pulls_shutdown_not_started k b1 b2 Hinit), pulls_shutdown_active in Hpulls.
    injection Hpulls as <- <- <-. by exists o1, b1, b2.
  - intros (o1 & b1 & b2 & Hmain & Hinit & -> & -> & ->). rewrite Hmain.
    cbv beta iota delta [mbind outcome_bind].
    by rewrite (pulls_shutdown_not_started k b1 b2 Hinit), pulls_shutdown_active.
Qed.

(** X3.  Nothing is left behind at shutdown, and nothing is emitted twice.
    A run of [run_bot] that the subscriber has pulled at least once
    completes when pulled once more than messages are left in the buffer,
    and has then emitted exactly those messages besides what it emitted
    before.  The messages pending at the start are emitted in order, each
    exactly once, as one block in front of the first message of the
    completed run on the instance with an empty buffer; nothing else
    depends on them, and the buffer ends empty. *)
Theorem run_bot_emits_every_message src n b (out : list output) ph b' :
  (0 < n)%nat →
  run_bot src n b = Ok (out, ph, b') →
  run_bot src (n + S (length (_message_buffer b'))) b
  = Ok (out ++ map OutMessage (_message_buffer b'), Completed, with_message_buffer [] b')
  ∧ (ph = Completed →
     ∃ out0 b0 pre post,
       run_bot src n (with_message_buffer [] b) = Ok (out0, Completed, b0)
       ∧ out0 = pre ++ post ∧ output_messages pre = []
       ∧ out = pre ++ map OutMessage
                        (map (stamp (_bot_id b)) (_message_buffer b)) ++ post
       ∧ _message_buffer b' = [] ∧ _message_buffer b0 = []
       ∧ pending_before [] b0 b').
Proof.
  intros Hn H. destruct n as [ | k ]; [ lia | ]. clear Hn.
  apply run_bot_pulled in H as (o1 & b1 & b2 & Hmain & Hinit & -> & -> & ->).
  set (buf := _message_buffer b2).
  assert (_message_buffer (with_message_buffer (drop (S k) buf) b2) = drop (S k) buf)
    as Hleft by (by destruct b2).
  split.
  - rewrite Hleft. simpl.
    apply run_bot_pulled. exists o1, b1, b2. fold buf.
    split; [ done | ]. split; [ done | ]. rewrite length_drop.
    assert (length buf ≤ k + S (length buf - S k))%nat as Hlen by lia.
    split_and!.
    + rewrite (take_ge buf (S (k + S (length buf - S k)))) by lia.
      by rewrite <- app_assoc, <- map_app, take_drop.
    + destruct (Nat.leb_spec (S (k + S (length buf - S k))) (length buf)); [ lia | done ].
    + rewrite (drop_ge buf (S (k + S (length buf - S k)))) by lia. by destruct b2.
  - intros Hph. destruct (Nat.leb_spec (S k) (length buf)) as [ | Hlt ]; [ discriminate | ].
    clear Hph.
    destruct (main_stream_pending src _ _ _ _ _ (pending_before_own b) eq_refl Hmain)
      as (o01 & b01 & H01 & Hid1 & Hnil1 & Hcase).
    simpl in Hid1.
    assert (∃ pend' pre post,
              pending_before pend' b01 b1
              ∧ o01 = pre ++ post ∧ output_messages pre = []
              ∧ o1 ++ map OutMessage (map (stamp (_bot_id b)) pend')
                = pre ++ map OutMessage (map (stamp (_bot_id b)) (_message_buffer b))
                    ++ post)
      as (pend' & pre & post & HR1 & Ho01 & Hpre & Hout).
    { destruct Hcase as [(_ & HR1 & pre & post & -> & Hpre & ->) | (_ & HR1 & -> & Hno)].
      - exists [], pre, post. split_and!; try done. simpl. by rewrite app_nil_r.
      - exists (_message_buffer b), o01, []. split_and!; try done; by rewrite app_nil_r. }
    destruct (shutdown_init_pending _ _ _ _ HR1 Hinit) as (b02 & H02 & HR2).
    apply pending_before_fields in HR2 as Hf. destruct Hf as (_ & _ & Hbuf2).
    fold buf in Hbuf2. rewrite Hid1 in Hbuf2.
    assert (length (_message_buffer b02) < S k)%nat as Hlt0.
    { rewrite Hbuf2, length_app in Hlt. lia. }
    exists (o01 ++ map OutMessage (_message_buffer b02)), (with_message_buffer [] b02),
      pre, (post ++ map OutMessage (_message_buffer b02)).
    split_and!.
    + apply run_bot_pulled. exists o01, b01, b02.
      split; [ done | ]. split; [ done | ].
      rewrite take_ge, drop_ge by lia.
      destruct (Nat.leb_spec (S k) (length (_message_buffer b02))); [ lia | done ].
    + by rewrite Ho01, app_assoc.
    + done.
    + rewrite take_ge by lia. rewrite Hbuf2, map_app, app_assoc, Hout.
      by rewrite <- !app_assoc.
    + rewrite Hleft. apply drop_ge. lia.
    + by destruct b02.
    + rewrite drop_ge by lia. by eapply pending_before_clear.
Qed.

End PendingMessages.

(** ** Examples, continued *)

Section MoreExamples.

Local Abbreviation output := (bot_output unit).

(** A new instance after [configure], and after a run of one batch. *)
Lemma buffered_data_stay_objects_witness :
  let b := new_instance "b1" (answering pong) in
  buffer_ok b
  ∧ ∃ b1 (out : list output) b2,
      configure JNull b = Ok b1 ∧ buffer_ok b1
      ∧ main_stream [InPackets [PacketMetadata tt]; InControl (ping "b2")] b1
        = Ok (out, b2)
      ∧ buffer_ok b2
      ∧ ∃ b3, prepare_message_buffer_for_downstream b2 = Ok b3.
Proof.
  intros b. assert (buffer_ok b) as Hok by constructor. split; [ exact Hok | ].
  destruct (configure JNull b) as [ b1 | ] eqn:Hcfg; [ | vm_compute in Hcfg; discriminate ].
  destruct (buffered_data_stay_objects (owned_image_metadata := unit) b Hok)
    as (Hconfigure & _).
  pose proof (Hconfigure JNull b1 Hcfg) as Hok1.
  destruct (main_stream [InPackets [PacketMetadata tt]; InControl (ping "b2")] b1)
    as [ [out b2] | ] eqn:Hrun.
  2: { vm_compute in Hcfg. injection Hcfg as <-. vm_compute in Hrun. discriminate. }
  destruct (buffered_data_stay_objects (owned_image_metadata := unit) b1 Hok1)
    as (_ & _ & Hmain).
  destruct (Hmain _ out b2 Hrun) as [Hok2 Hdrain].
  by exists b1, out, b2.
Defined.

Lemma sent_counters_count_emitted_witness :
  ∃ (out : list output) b',
    apply_visitor (InPackets [PacketFrame frame_640x480]) busy_analysing = Ok (out, b')
    ∧ count_kind ANALYSIS (output_messages out) = 2%nat
    ∧ counter "analysis" (messages_sent (stats b')) = 2%nat.
Proof.
  destruct (apply_visitor (InPackets [@PacketFrame unit frame_640x480]) busy_analysing)
    as [ [out b'] | ] eqn:Hrun; [ | vm_compute in Hrun; discriminate ].
  destruct (sent_counters_count_emitted (owned_image_metadata := unit) busy_analysing)
    as (Hvisit & _).
  pose proof (Hvisit _ out b' ANALYSIS Hrun) as Hcount.
  exists out, b'. split; [ reflexivity | ].
  assert (count_kind ANALYSIS (output_messages out) = 2%nat) as Hout.
  { vm_compute in Hrun. by injection Hrun as <- _. }
  split; [ exact Hout | ]. simpl in Hcount. rewrite Hcount, Hout. reflexivity.
Defined.

(** An array holding a message, an array of two, and a number: six entries. *)
Lemma received_counter_counts_inputs_witness :
  let msg := JArr [ping "b2"; JArr [ping "b1"; ping "b3"]; JInt 7] in
  let b := new_instance "b1" (answering pong) in
  control_inputs msg = 6%nat
  ∧ ∃ (out : list output) b',
      operator_call_json msg b = Ok (out, b')
      ∧ counter "control" (messages_received (stats b')) = 6%nat.
Proof.
  intros msg b. split; [ reflexivity | ].
  destruct (operator_call_json (owned_image_metadata := unit) msg b)
    as [ [out b'] | ] eqn:Hrun; [ | vm_compute in Hrun; discriminate ].
  exists out, b'. split; [ reflexivity | ].
  destruct (received_counter_counts_inputs msg b out b' Hrun) as [Hcount _].
  exact Hcount.
Defined.

Lemma current_frame_id_left_to_callbacks_witness :
  keeps_frame_id (_descriptor busy_analysing)
  ∧ ∃ (out : list output) b',
      apply_visitor (InPackets [PacketFrame frame_640x480]) busy_analysing = Ok (out, b')
      ∧ _current_frame_id b' = _current_frame_id busy_analysing.
Proof.
  assert (keeps_frame_id (_descriptor busy_analysing)) as Hkeep.
  { split.
    - intros u md frames id Hin. simpl in Hin.
      apply elem_of_cons in Hin as [Hin | Hin]; [ discriminate | ].
      by apply elem_of_nil in Hin.
    - intros cb u md msg Hcb. discriminate. }
  split; [ exact Hkeep | ].
  destruct (apply_visitor (InPackets [@PacketFrame unit frame_640x480]) busy_analysing)
    as [ [out b'] | ] eqn:Hrun; [ | vm_compute in Hrun; discriminate ].
  destruct (current_frame_id_left_to_callbacks (owned_image_metadata := unit)
              busy_analysing Hkeep) as (Hvisit & _).
  exists out, b'. split; [ reflexivity | exact (Hvisit _ out b' Hrun) ].
Defined.

Lemma control_message_leaves_images_alone_witness :
  let b := new_instance "b1" (answering pong) in
  ∃ (out : list output) b',
    operator_call_json (JArr [ping "b1"; ping "b2"]) b = Ok (out, b')
    ∧ out = map OutMessage (output_messages out)
    ∧ img_calls b' = img_calls b
    ∧ _image_metadata b' = _image_metadata b.
Proof.
  intros b.
  destruct (operator_call_json (owned_image_metadata := unit)
              (JArr [ping "b1"; ping "b2"]) b)
    as [ [out b'] | ] eqn:Hrun; [ | vm_compute in Hrun; discriminate ].
  exists out, b'. split; [ reflexivity | ].
  exact (control_message_leaves_images_alone _ b out b' Hrun).
Defined.

(** A control message for another bot, then a batch with a frame: the
    pending message waits through the first and leaves with the second. *)
Lemma messages_first_in_first_out_witness :
  let src := [InControl (ping "b2"); InPackets [PacketFrame frame_640x480]] in
  let b := busy_analysing in
  ∃ (out : list output) b' out0 b0,
    main_stream src b = Ok (out, b')
    ∧ output_messages out
      = [stamp "b1" analysis_x3; stamp "b1" analysis_x3]
    ∧ main_stream src (with_message_buffer [] b) = Ok (out0, b0)
    ∧ _message_buffer b0 = []
    ∧ ((_message_buffer b' = [] ∧ pending_before [] b0 b'
        ∧ ∃ pre post,
            out0 = pre ++ post ∧ output_messages pre = []
            ∧ out = pre ++ map OutMessage
                             (map (stamp (_bot_id b)) (_message_buffer b)) ++ post)
       ∨ (_message_buffer b' = _message_buffer b
          ∧ pending_before (_message_buffer b) b0 b'
          ∧ out = out0 ∧ output_messages out = [])).
Proof.
  intros src b.
  destruct (main_stream (owned_image_metadata := unit) src b)
    as [ [out b'] | ] eqn:Hrun; [ | vm_compute in Hrun; discriminate ].
  destruct (messages_first_in_first_out (owned_image_metadata := unit) b)
    as (_ & Hmain).
  destruct (Hmain src out b' Hrun) as (out0 & b0 & H0 & H).
  exists out, b', out0, b0. split; [ reflexivity | ]. split.
  - vm_compute in Hrun. injection Hrun as <- _. vm_compute. reflexivity.
  - by split.
Defined.

(** A bot with one pending message that answers a control message and the
    shutdown command, pulled three times. *)
Lemma run_bot_emits_every_message_witness :
  let b := with_message_buffer [analysis_x3] (new_instance "b1" (answering pong)) in
  ∃ (out : list output) ph b',
    (0 < 3)%nat
    ∧ run_bot [InControl (ping "b1")] 3 b = Ok (out, ph, b')
    ∧ ph = Completed
    ∧ length (output_messages out) = 3%nat
    ∧ run_bot [InControl (ping "b1")] (3 + S (length (_message_buffer b'))) b
      = Ok (out ++ map OutMessage (_message_buffer b'), Completed,
            with_message_buffer [] b')
    ∧ ∃ out0 b0 pre post,
        run_bot [InControl (ping "b1")] 3 (with_message_buffer [] b)
        = Ok (out0, Completed, b0)
        ∧ out0 = pre ++ post ∧ output_messages pre = []
        ∧ out = pre ++ map OutMessage
                         (map (stamp (_bot_id b)) (_message_buffer b)) ++ post
        ∧ _message_buffer b' = [] ∧ _message_buffer b0 = []
        ∧ pending_before [] b0 b'.
Proof.
  intros b.
  destruct (run_bot (owned_image_metadata := unit) [InControl (ping "b1")] 3 b)
    as [ [[out ph] b'] | ] eqn:Hrun; [ | vm_compute in Hrun; discriminate ].
  assert (0 < 3)%nat as Hn by lia.
  destruct (run_bot_emits_every_message _ _ _ out ph b' Hn Hrun) as [Hdone Hfirst].
  assert (ph = Completed ∧ length (output_messages out) = 3%nat) as [Hph Hlen].
  { vm_compute in Hrun. injection Hrun as <- <- _. split; reflexivity. }
  exists out, ph, b'. split; [ exact Hn | ]. split; [ reflexivity | ].
  split; [ exact Hph | ]. split; [ exact Hlen | ]. split; [ exact Hdone | ].
  exact (Hfirst Hph).
Defined.

End MoreExamples.

(** ** More about channel positions *)

Module channel_position_more.

Import channel_position channel_position_facts.
Local Open Scope N_scope.

Lemma isspace_not_nul c : isspace c = true → c ≠ zero.
Proof. intros H ->. discriminate. Qed.

Lemma number_no_nul ws sg ds :
  number ws sg ds → Forall (λ c, c ≠ zero) (ws ++ sg ++ ds).
Proof.
  intros (Hws & Hsg & Hds & _). rewrite !Forall_app. split_and!.
  - eapply Forall_impl; [ exact Hws | ]. intros c. apply isspace_not_nul.
  - destruct Hsg as [-> | [-> | ->]]; repeat constructor; discriminate.
  - eapply Forall_impl; [ exact Hds | ]. intros c. apply isdigit_not_nul.
Qed.

(** A number that passes the check, a colon, and a text without NUL: the
    result rests on what [strtoull] makes of the text. *)
Lemma parse_number_colon ws sg ds t :
  number ws sg ds → passes_check sg ds → Forall (λ c, c ≠ zero) t →
  parse (string_of_list_ascii (ws ++ sg ++ ds ++ ":"%char :: t))
  = if negb (Ascii.eqb (deref t (strtoull t).2) zero) then Ok (mk 0 0)
    else Ok (mk (Z.to_N ((strtoll (ws ++ sg ++ ds ++ ":"%char :: t)).1 mod 2 ^ 32))
               ((strtoull t).1 mod 2 ^ 64)).
Proof.
  intros Hnum Hpass Ht.
  assert (c_str (string_of_list_ascii (ws ++ sg ++ ds ++ ":"%char :: t))
          = ws ++ sg ++ ds ++ ":"%char :: t) as Hs.
  { apply c_str_of_list. pose proof (number_no_nul ws sg ds Hnum) as Hall.
    rewrite !Forall_app in Hall. destruct Hall as (? & ? & ?).
    rewrite !Forall_app. split_and!; try done. by constructor. }
  destruct (parse_after_colon _ ws sg ds t Hs Hnum Hpass) as (gen & Hll & ->).
  rewrite Hs in Hll. by rewrite Hll.
Qed.

Lemma strtoull_whole ws sg ds :
  number ws sg ds →
  (strtoull (ws ++ sg ++ ds)).2 = length (ws ++ sg ++ ds).
Proof.
  intros Hnum. unfold strtoull.
  pose proof (read_number_sound ws sg ds [] Hnum I) as Hread.
  rewrite app_nil_r in Hread. rewrite Hread. simpl. rewrite !length_app. lia.
Qed.

Lemma strtoull_value ws sg ds :
  number ws sg ds →
  (strtoull (ws ++ sg ++ ds)).1
  = if UINT64_MAX <? digits_value 0 ds then UINT64_MAX
    else if is_minus sg then (2 ^ 64 - digits_value 0 ds) mod 2 ^ 64
    else digits_value 0 ds.
Proof.
  intros Hnum. unfold strtoull.
  pose proof (read_number_sound ws sg ds [] Hnum I) as Hread.
  rewrite app_nil_r in Hread. by rewrite Hread.
Qed.

Lemma strtoll_value ws sg ds rest :
  number ws sg ds → digits_end rest →
  (strtoll (ws ++ sg ++ ds ++ rest)).1
  = Z.max LLONG_MIN
      (Z.min LLONG_MAX
         (if is_minus sg then - Z.of_N (digits_value 0 ds)
          else Z.of_N (digits_value 0 ds)))%Z.
Proof.
  intros Hnum Hend. unfold strtoll. by rewrite read_number_sound.
Qed.

(** Two numbers around a colon. *)
Lemma parse_two_numbers ws1 sg1 dg ws2 sg2 dq :
  number ws1 sg1 dg → number ws2 sg2 dq → passes_check sg1 dg →
  parse (string_of_list_ascii (ws1 ++ sg1 ++ dg ++ ":"%char :: ws2 ++ sg2 ++ dq))
  = Ok (mk (Z.to_N ((Z.max LLONG_MIN
                       (Z.min LLONG_MAX
                          (if is_minus sg1 then - Z.of_N (digits_value 0 dg)
                           else Z.of_N (digits_value 0 dg)))) mod 2 ^ 32)%Z)
          ((if UINT64_MAX <? digits_value 0 dq then UINT64_MAX
            else if is_minus sg2 then (2 ^ 64 - digits_value 0 dq) mod 2 ^ 64
            else digits_value 0 dq) mod 2 ^ 64)).
Proof.
  intros Hnum1 Hnum2 Hpass.
  rewrite parse_number_colon by (done || by apply number_no_nul).
  rewrite strtoull_whole, deref_end by done. simpl.
  rewrite strtoull_value by done.
  by rewrite (strtoll_value ws1 sg1 dg (":"%char :: ws2 ++ sg2 ++ dq)).
Qed.

Lemma plain_sign sg : sg = [] ∨ sg = ["+"%char] → is_sign sg ∧ is_minus sg = false.
Proof. intros [-> | ->]; (split; [ | done ]); [ by left | by right; left ]. Qed.

(** X8.  [parse] is lenient where the library functions are: white space
    and a plus sign in front of either number change nothing, the string
    parses to the position it names. *)
Theorem parse_skips_space_and_plus p ws1 sg1 ws2 sg2 :
  valid p →
  Forall (λ c, isspace c = true) ws1 → Forall (λ c, isspace c = true) ws2 →
  sg1 = [] ∨ sg1 = ["+"%char] → sg2 = [] ∨ sg2 = ["+"%char] →
  parse (string_of_list_ascii
           (ws1 ++ sg1 ++ to_string (gen p) ++ ":"%char :: ws2 ++ sg2 ++ to_string (pos p)))
  = Ok p.
Proof.
  intros [Hg Hq] Hws1 Hws2 Hsg1 Hsg2. destruct p as [g q]. simpl in *.
  apply plain_sign in Hsg1 as [Hsign1 Hplus1], Hsg2 as [Hsign2 Hplus2].
  destruct (to_string_digits g) as (Hdg & Hneg & Hvg).
  destruct (to_string_digits q) as (Hdq & Hneq & Hvq).
  rewrite parse_two_numbers; [ | by split_and! | by split_and! | right; by rewrite Hvg ].
  rewrite Hplus1, Hplus2, Hvg, Hvq.
  apply N.ltb_ge in Hq as Hq'. rewrite Hq'.
  unfold UINT32_MAX, UINT64_MAX, LLONG_MIN, LLONG_MAX in *.
  rewrite Z.max_r, Z.min_r by lia.
  rewrite Z.mod_small, N2Z.id, N.mod_small by lia. done.
Qed.

(** X9.  A negative [gen] is not rejected: it passes the check against
    [UINT32_MAX], which only bounds it from above, and the cast wraps it
    modulo [2^32]. *)
Theorem parse_negative_gen_wraps dg dq :
  number [] [] dg → number [] [] dq →
  digits_value 0 dg <= 2 ^ 63 → digits_value 0 dq <= UINT64_MAX →
  parse (string_of_list_ascii ("-"%char :: dg ++ ":"%char :: dq))
  = Ok (mk (Z.to_N ((- Z.of_N (digits_value 0 dg)) mod 2 ^ 32)) (digits_value 0 dq)).
Proof.
  intros (_ & _ & Hdg & Hneg) Hnum2 Hg Hq.
  pose proof (parse_two_numbers [] ["-"%char] dg [] [] dq) as H. simpl in H. simpl.
  rewrite H; [ | split_and!; [ done | by right; right | done.. ] | done | by left ].
  apply N.ltb_ge in Hq as Hq'. rewrite Hq'.
  unfold UINT64_MAX, LLONG_MIN, LLONG_MAX in *.
  rewrite Z.min_r, Z.max_r by lia. rewrite N.mod_small by lia. done.
Qed.

(** X10.  A [pos] beyond 64 bits is not rejected either: [strtoull]
    saturates, and [parse] returns [UINT64_MAX] as the position. *)
Theorem parse_pos_saturates dg dq :
  number [] [] dg → number [] [] dq →
  digits_value 0 dg <= UINT32_MAX → UINT64_MAX < digits_value 0 dq →
  parse (string_of_list_ascii (dg ++ ":"%char :: dq))
  = Ok (mk (digits_value 0 dg) UINT64_MAX).
Proof.
  intros Hnum1 Hnum2 Hg Hq.
  pose proof (parse_two_numbers [] [] dg [] [] dq Hnum1 Hnum2) as H. simpl in H.
  rewrite H by by right.
  apply N.ltb_lt in Hq as ->.
  unfold UINT32_MAX, UINT64_MAX, LLONG_MIN, LLONG_MAX in *.
  rewrite Z.min_r, Z.max_r by lia.
  rewrite Z.mod_small, N2Z.id by lia. done.
Qed.

(** X11.  Nothing after the colon is accepted as position 0: the second
    conversion is not tested for having read a digit, as the first is. *)
Theorem parse_empty_pos ws sg dg :
  number ws sg dg → sg = [] ∨ sg = ["+"%char] → digits_value 0 dg <= UINT32_MAX →
  parse (string_of_list_ascii (ws ++ sg ++ dg ++ [":"%char]))
  = Ok (mk (digits_value 0 dg) 0).
Proof.
  intros Hnum Hsg Hg. apply plain_sign in Hsg as [_ Hplus].
  rewrite parse_number_colon; [ | done | by right | constructor ].
  simpl. rewrite (strtoll_value ws sg dg [":"%char]) by done. rewrite Hplus.
  unfold UINT32_MAX, LLONG_MIN, LLONG_MAX in *.
  rewrite Z.min_r, Z.max_r by lia.
  rewrite Z.mod_small, N2Z.id by lia. done.
Qed.

Lemma c_str_nul s1 s2 : c_str (s1 +:+ String zero s2) = c_str s1.
Proof.
  induction s1 as [ | c s1 IH ]; simpl; [ done | ].
  destruct (Ascii.eqb c zero); [ done | ]. by rewrite IH.
Qed.

(** X12.  [parse] reads the string as a C string: whatever follows the
    first NUL character is ignored. *)
Theorem parse_stops_at_nul s1 s2 : parse (s1 +:+ String zero s2) = parse s1.
Proof. unfold parse. by rewrite c_str_nul. Qed.

Lemma split_at_colon (a a' b b' : list ascii) :
  Forall (λ c, c ≠ ":"%char) a → Forall (λ c, c ≠ ":"%char) a' →
  a ++ ":"%char :: b = a' ++ ":"%char :: b' → a = a' ∧ b = b'.
Proof.
  intros Ha. revert a'. induction Ha as [ | c a Hc _ IH ]; intros a' Ha' Heq.
  - destruct Ha' as [ | c' a' Hc' _ ]; simpl in Heq.
    + by injection Heq as <-.
    + injection Heq as <- _. by destruct Hc'.
  - destruct Ha' as [ | c' a' Hc' Ha' ]; simpl in Heq.
    + injection Heq as -> _. by destruct Hc.
    + injection Heq as <- Heq. destruct (IH a' Ha' Heq) as [-> ->]. done.
Qed.

Lemma to_string_no_colon n : Forall (λ c, c ≠ ":"%char) (to_string n).
Proof.
  destruct (to_string_digits n) as (Hall & _).
  eapply Forall_impl; [ exact Hall | ]. intros c. apply isdigit_not_colon.
Qed.

(** X13.  [str] is injective: two positions rendered to the same string
    are the same position. *)
Theorem str_injective p q : str p = str q → p = q.
Proof.
  unfold str. intros H.
  apply (f_equal list_ascii_of_string) in H.
  rewrite !list_ascii_of_string_of_list_ascii in H.
  apply split_at_colon in H as [Hg Hq]; try apply to_string_no_colon.
  destruct (to_string_digits (gen p)) as (_ & _ & Hvg).
  destruct (to_string_digits (pos p)) as (_ & _ & Hvq).
  destruct (to_string_digits (gen q)) as (_ & _ & Hvg').
  destruct (to_string_digits (pos q)) as (_ & _ & Hvq').
  rewrite Hg in Hvg. rewrite Hq in Hvq.
  destruct p as [g1 q1], q as [g2 q2]. simpl in *. congruence.
Qed.

(** X14.  [parse] ends in the fatal check exactly when the string starts
    with a number that is not negative and exceeds [2^32 - 1]; the second
    check, on [pos], can never fail. *)
Theorem parse_fatal_iff str :
  (∃ f, parse str = Fatal f) ↔
  ∃ ws sg ds rest,
    c_str str = ws ++ sg ++ ds ++ rest ∧ number ws sg ds ∧ digits_end rest
    ∧ ¬ passes_check sg ds.
Proof.
  split.
  - intros [f Hfatal].
    destruct (read_number (c_str str)) as [[neg v] len] eqn:Hread.
    apply read_number_complete in Hread
      as [(_ & _ & _ & Hno) | (ws & sg & ds & rest & Hs & Hnum & Hend & _)].
    + by rewrite parse_no_number in Hfatal.
    + exists ws, sg, ds, rest. split_and!; try done. intros Hpass.
      destruct (decide (head rest = Some ":"%char)) as [Hcolon | Hcolon].
      * destruct rest as [ | c t ]; [ done | ]. injection Hcolon as ->.
        destruct (parse_after_colon str ws sg ds t Hs Hnum Hpass) as (gen & _ & Hparse).
        rewrite Hparse in Hfatal. by destruct (negb _).
      * by rewrite (parse_no_colon str ws sg ds rest) in Hfatal.
  - intros (ws & sg & ds & rest & Hs & Hnum & Hend & Hfail).
    exists CheckFailed. by eapply parse_too_large.
Qed.

End channel_position_more.

Section MorePositionExamples.

Import channel_position channel_position_facts channel_position_more.
Local Open Scope N_scope.
Local Open Scope string_scope.

Lemma digits_are_number ds :
  Forall (λ c, isdigit c = true) ds → ds ≠ [] → number [] [] ds.
Proof. intros Hall Hne. split_and!; [ done | by left | done.. ]. Qed.

(** " +7:\t42" names the position (7, 42). *)
Lemma parse_skips_space_and_plus_witness :
  valid (mk 7 42)
  ∧ parse (String " " (String "+" (String "7" (String ":"
            (String "009" (String "4" (String "2" "")))))))
    = Ok (mk 7 42).
Proof.
  assert (valid (mk 7 42)) as Hvalid by (split; vm_compute; discriminate).
  split; [ exact Hvalid | ].
  apply (parse_skips_space_and_plus (mk 7 42) [" "%char] ["+"%char] ["009"%char] []).
  - exact Hvalid.
  - by repeat constructor.
  - by repeat constructor.
  - by right.
  - by left.
Defined.

(** "-1:5" parses to (4294967295, 5). *)
Lemma parse_negative_gen_wraps_witness :
  parse "-1:5" = Ok (mk 4294967295 5).
Proof.
  apply (parse_negative_gen_wraps (list_ascii_of_string "1") (list_ascii_of_string "5")).
  - apply digits_are_number; [ by repeat constructor | done ].
  - apply digits_are_number; [ by repeat constructor | done ].
  - vm_compute. discriminate.
  - vm_compute. discriminate.
Defined.

(** Twenty nines after the colon. *)
Lemma parse_pos_saturates_witness :
  parse "1:99999999999999999999" = Ok (mk 1 18446744073709551615).
Proof.
  apply (parse_pos_saturates (list_ascii_of_string "1")
           (list_ascii_of_string "99999999999999999999")).
  - apply digits_are_number; [ by repeat constructor | done ].
  - apply digits_are_number; [ by repeat constructor | done ].
  - vm_compute. discriminate.
  - vm_compute. reflexivity.
Defined.

Lemma parse_empty_pos_witness : parse "12:" = Ok (mk 12 0).
Proof.
  apply (parse_empty_pos [] [] (list_ascii_of_string "12")).
  - apply digits_are_number; [ by repeat constructor | done ].
  - by left.
  - vm_compute. discriminate.
Defined.

(** The string "4294967296:0" and what makes it fatal. *)
Lemma parse_fatal_iff_witness :
  ∃ f, parse "4294967296:0" = Fatal f.
Proof.
  apply (parse_fatal_iff "4294967296:0").
  exists [], [], (list_ascii_of_string "4294967296"), (list_ascii_of_string ":0").
  split_and!.
  - reflexivity.
  - apply digits_are_number; [ by repeat constructor | done ].
  - reflexivity.
  - intros [Hsg | Hle]; [ discriminate | ]. vm_compute in Hle. by apply Hle.
Defined.

(** Two positions written differently that render to "7:42". *)
Lemma str_injective_witness :
  str (mk 7 42) = str (mk (3 + 4) (6 * 7)) ∧ mk 7 42 = mk (3 + 4) (6 * 7).
Proof.
  assert (str (mk 7 42) = str (mk (3 + 4) (6 * 7))) as H by (vm_compute; reflexivity).
  split; [ exact H | ]. exact (str_injective _ _ H).
Defined.

End MorePositionExamples.

(** ** The recorder *)

Module recorder_facts.

Import recorder.

(** *** [escape_slashes] *)

Lemma escape_char_other c : c ≠ "/"%char → escape_char c = [c].
Proof. intros Hc. unfold escape_char. apply Ascii.eqb_neq in Hc. by rewrite Hc. Qed.

Lemma escaped_no_slash s : no_slash s → escaped s = s.
Proof.
  induction 1 as [ | c s Hc _ IH ]; [ done | ].
  unfold escaped in *. simpl. by rewrite escape_char_other, IH.
Qed.

Lemma escaped_app s1 s2 : escaped (s1 ++ s2) = escaped s1 ++ escaped s2.
Proof. unfold escaped. apply flat_map_app. Qed.

Lemma escaped_slash a b : escaped (a ++ "/"%char :: b) = escaped a ++ r ++ escaped b.
Proof. by rewrite escaped_app. Qed.

Lemma r_no_slash : no_slash r.
Proof. repeat constructor; discriminate. Qed.

Lemma no_slash_escaped s : no_slash (escaped s).
Proof.
  induction s as [ | c s IH ]; [ constructor | ].
  unfold escaped in *. simpl. apply Forall_app. split; [ | done ].
  unfold escape_char. destruct (Ascii.eqb c "/") eqn:E.
  - apply r_no_slash.
  - constructor; [ by apply Ascii.eqb_neq | constructor ].
Qed.

Lemma first_slash s :
  no_slash s ∨ ∃ a b, s = a ++ "/"%char :: b ∧ no_slash a.
Proof.
  induction s as [ | c s IH ]; [ left; constructor | ].
  destruct (decide (c = "/"%char)) as [-> | Hc].
  - right. exists [], s. split; [ done | constructor ].
  - destruct IH as [Hno | (a & b & -> & Ha)].
    + left. by constructor.
    + right. exists (c :: a), b. split; [ done | by constructor ].
Qed.

Lemma find_first_cons c s :
  find_first f (c :: s)
  = if Ascii.eqb c "/" then Some O else S <$> find_first f s.
Proof.
  change (find_first f (c :: s))
    with (if Ascii.eqb "/" c && true then Some O else S <$> find_first f s).
  by rewrite andb_true_r, Ascii.eqb_sym.
Qed.

Lemma find_first_none s : no_slash s → find_first f s = None.
Proof.
  induction 1 as [ | c s Hc _ IH ]; [ done | ].
  rewrite find_first_cons. apply Ascii.eqb_neq in Hc. by rewrite Hc, IH.
Qed.

Lemma find_first_slash a b :
  no_slash a → find_first f (a ++ "/"%char :: b) = Some (length a).
Proof.
  induction 1 as [ | c a Hc _ IH ]; [ done | ].
  rewrite <- app_comm_cons, find_first_cons. apply Ascii.eqb_neq in Hc.
  by rewrite Hc, IH.
Qed.

Lemma find_from pre rest :
  find f (length pre) (pre ++ rest)
  = (λ k, (length pre + k)%nat) <$> find_first f rest.
Proof.
  unfold find. rewrite length_app.
  assert ((length pre <=? length pre + length rest)%nat = true) as ->
    by (apply Nat.leb_le; lia).
  by rewrite drop_app_length.
Qed.

Lemma slashes_app a b : slashes (a ++ b) = (slashes a + slashes b)%nat.
Proof. unfold slashes. by rewrite filter_app, length_app. Qed.

Lemma slashes_none a : no_slash a → slashes a = O.
Proof.
  unfold slashes. induction 1 as [ | c a Hc _ IH ]; [ done | ].
  by rewrite filter_cons, decide_False.
Qed.

Lemma slashes_le_length s : (slashes s <= length s)%nat.
Proof. unfold slashes. apply length_filter. Qed.

Lemma escape_loop_S fuel result i :
  escape_loop (S fuel) result i
  = match find f i result with
    | None => Some result
    | Some j => escape_loop fuel (replace j (length f) r result) (j + length r)
    end.
Proof. reflexivity. Qed.

Lemma replace_slash pre a b :
  replace (length pre + length a) (length f) r (pre ++ a ++ "/"%char :: b)
  = (pre ++ a ++ r) ++ b.
Proof.
  unfold replace. change (length f) with 1%nat.
  replace (length pre + length a)%nat with (length (pre ++ a))
    by (rewrite length_app; lia).
  replace (pre ++ a ++ "/"%char :: b) with ((pre ++ a) ++ "/"%char :: b)
    by (by rewrite <- app_assoc).
  rewrite take_app_length, <- drop_drop, drop_app_length.
  change (drop 1 ("/"%char :: b)) with b. by rewrite <- !app_assoc.
Qed.

(** The loop, started behind an already escaped part [pre]. *)
Lemma escape_loop_spec fuel :
  ∀ pre rest,
    (slashes rest < fuel)%nat →
    escape_loop fuel (pre ++ rest) (length pre) = Some (pre ++ escaped rest).
Proof.
  induction fuel as [ | fuel IH ]; intros pre rest Hfuel; [ lia | ].
  rewrite escape_loop_S, find_from.
  destruct (first_slash rest) as [Hno | (a & b & -> & Ha)].
  - by rewrite find_first_none, escaped_no_slash.
  - rewrite find_first_slash by done.
    change ((λ k, (length pre + k)%nat) <$> Some (length a))
      with (Some (length pre + length a)%nat).
    cbv beta iota. rewrite replace_slash.
    replace (length pre + length a + length r)%nat with (length (pre ++ a ++ r))
      by (rewrite !length_app; lia).
    rewrite IH.
    + rewrite escaped_slash, (escaped_no_slash a) by done. by rewrite <- !app_assoc.
    + rewrite slashes_app, (slashes_none a) in Hfuel by done.
      unfold slashes in *. rewrite filter_cons, decide_True in Hfuel by done.
      simpl in Hfuel. lia.
Qed.

Lemma length_list_ascii s : length (list_ascii_of_string s) = String.length s.
Proof. induction s as [ | c s IH ]; [ done | ]. simpl. by rewrite IH. Qed.

Lemma escape_slashes_eq s :
  escape_slashes s
  = Some (string_of_list_ascii (escaped (list_ascii_of_string s))).
Proof.
  unfold escape_slashes.
  change (list_ascii_of_string s) with ([] ++ list_ascii_of_string s) at 1.
  change O with (length (@nil ascii)) at 1.
  rewrite escape_loop_spec; [ done | ].
  pose proof (slashes_le_length (list_ascii_of_string s)).
  rewrite length_list_ascii in *. lia.
Qed.

(** X15.  The loop of [escape_slashes] always ends, and its result is the
    string with every slash replaced by "{slash}" and every other character
    kept, in order: inserted text is never scanned again. *)
Theorem escape_slashes_replaces_each s :
  ∃ t, escape_slashes s = Some t
       ∧ list_ascii_of_string t
         = flat_map (λ c, if Ascii.eqb c "/" then list_ascii_of_string "{slash}" else [c])
             (list_ascii_of_string s).
Proof.
  eexists. split; [ apply escape_slashes_eq | ].
  by rewrite list_ascii_of_string_of_list_ascii.
Qed.

(** X16.  The result of [escape_slashes] contains no slash, and has six
    characters more than the argument for each slash of it. *)
Theorem escape_slashes_leaves_no_slash s t :
  escape_slashes s = Some t →
  ("/"%char ∉ list_ascii_of_string t)
  ∧ String.length t = (String.length s + 6 * slashes (list_ascii_of_string s))%nat.
Proof.
  rewrite escape_slashes_eq. intros [= <-].
  rewrite <- !length_list_ascii, list_ascii_of_string_of_list_ascii. split.
  - intros Hin. pose proof (no_slash_escaped (list_ascii_of_string s)) as Hno.
    unfold no_slash in Hno. rewrite Forall_forall in Hno. by apply (Hno _ Hin).
  - induction (list_ascii_of_string s) as [ | c l IH ]; [ done | ].
    unfold escaped in *. simpl. rewrite length_app, IH.
    unfold slashes, escape_char. rewrite filter_cons.
    destruct (decide (c = "/"%char)) as [-> | Hc]; simpl; [ lia | ].
    apply Ascii.eqb_neq in Hc. rewrite Hc. simpl. lia.
Qed.

(** X17.  [escape_slashes] returns its argument unchanged exactly when the
    argument has no slash; so escaping a second time changes nothing. *)
Theorem escape_slashes_fixed_points s :
  (escape_slashes s = Some s ↔ ("/"%char ∉ list_ascii_of_string s))
  ∧ ∀ t, escape_slashes s = Some t → escape_slashes t = Some t.
Proof.
  assert (∀ s, "/"%char ∉ list_ascii_of_string s → escape_slashes s = Some s) as Hfix.
  { intros s0 Hno. rewrite escape_slashes_eq, escaped_no_slash.
    - by rewrite string_of_list_ascii_of_string.
    - apply Forall_forall. intros c Hc ->. by apply Hno. }
  split; [ split | ].
  - rewrite escape_slashes_eq. intros [= H] Hin.
    apply (f_equal list_ascii_of_string) in H.
    rewrite list_ascii_of_string_of_list_ascii in H. rewrite <- H in Hin.
    pose proof (no_slash_escaped (list_ascii_of_string s)) as Hno.
    unfold no_slash in Hno. rewrite Forall_forall in Hno. by apply (Hno _ Hin).
  - apply Hfix.
  - intros t Ht. apply Hfix. rewrite escape_slashes_eq in Ht. injection Ht as <-.
    rewrite list_ascii_of_string_of_list_ascii. intros Hin.
    pose proof (no_slash_escaped (list_ascii_of_string s)) as Hno.
    unfold no_slash in Hno. rewrite Forall_forall in Hno. by apply (Hno _ Hin).
Qed.

Lemma list_ascii_of_append s1 s2 :
  list_ascii_of_string (s1 +:+ s2) = list_ascii_of_string s1 ++ list_ascii_of_string s2.
Proof. induction s1 as [ | c s1 IH ]; [ done | ]. simpl. by rewrite IH. Qed.

(** X18.  [escape_slashes] is not injective: a slash and the text
    "{slash}" in the same place give the same result, so two channel names
    that differ only in this way are escaped to one name. *)
Theorem escape_slashes_collides a b :
  escape_slashes (a +:+ "/" +:+ b) = escape_slashes (a +:+ "{slash}" +:+ b).
Proof.
  by rewrite !escape_slashes_eq, !list_ascii_of_append, !escaped_app.
Qed.

(** *** [video_stream] *)

Section VideoStreamFacts.

Import recorder_notions.

Context {packet error subscription : Type}.

Local Abbreviation event := (recorder.event packet error subscription).
Local Abbreviation video_stream := (recorder.video_stream packet error subscription).
Local Abbreviation call := (recorder.call packet error subscription).

Implicit Types (v : video_stream) (c : call) (s : subscription).

Lemma stop_stopped v : _subscription (stop v) = None ∧ _sink (stop v) = false.
Proof. destruct v as [ch res [ s | ] [ | ] ev]; by split. Qed.

Lemma stop_again v : _subscription v = None → _sink v = false → stop v = v.
Proof. intros Hsub Hsink. unfold stop. by rewrite Hsub, Hsink. Qed.

Lemma handle_stopped v c :
  _subscription v = None → _sink v = false →
  handle c v = match c with Stop => Ok v | _ => Fatal CheckFailed end.
Proof.
  intros Hsub Hsink.
  destruct c; simpl; unfold on_subscribe, on_next, on_error, on_complete, check_live;
    rewrite ?Hsub, ?Hsink; try done.
  by rewrite stop_again.
Qed.

Lemma new_traced channel res v : new channel res = Ok v → well_traced v.
Proof.
  unfold new, connect. simpl. destruct channel; [ | discriminate ].
  intros [= <-]. eexists _, []. split; [ reflexivity | ]. left. by split_and!.
Qed.

Lemma handle_traced c v v' : well_traced v → handle c v = Ok v' → well_traced v'.
Proof.
  intros (o & body & Hev & Hcase) H. destruct v as [ch res sub sink ev].
  simpl in Hev, Hcase. subst ev.
  destruct Hcase as [(-> & -> & ->) | [(s & pkts & -> & -> & ->) | (-> & -> & Hstopped)]].
  - (* connected *)
    destruct c as [ s' | pkt | ec | | ]; try discriminate; injection H as <-.
    + exists o, [SinkOnSubscribe s']. split; [ done | ].
      right. left. by exists s', [].
    + exists o, [SinkOnComplete]. split; [ done | ].
      right. right. split_and!; try done. by left.
  - (* live *)
    destruct c as [ s' | pkt | ec | | ]; try discriminate; injection H as <-.
    + exists o, (SinkOnSubscribe s :: map SinkOnNext (pkts ++ [pkt])).
      split; [ simpl; by rewrite map_app | ]. right. left. by exists s, (pkts ++ [pkt]).
    + exists o, (SinkOnSubscribe s :: map SinkOnNext pkts
                  ++ [Cancel s; SinkOnComplete] ++ [Done (Some ec)]).
      split; [ simpl; by rewrite <- !app_assoc | ].
      right. right. split_and!; try done. right. exists s, pkts, [Done (Some ec)]. eauto.
    + exists o, (SinkOnSubscribe s :: map SinkOnNext pkts
                  ++ [Cancel s; SinkOnComplete] ++ [Done None]).
      split; [ simpl; by rewrite <- !app_assoc | ].
      right. right. split_and!; try done. right. exists s, pkts, [Done None]. eauto.
    + exists o, (SinkOnSubscribe s :: map SinkOnNext pkts ++ [Cancel s; SinkOnComplete] ++ []).
      split; [ simpl; by rewrite <- !app_assoc | ].
      right. right. split_and!; try done. right. exists s, pkts, []. eauto.
  - (* stopped *)
    destruct c as [ s' | pkt | ec | | ]; try discriminate. injection H as <-.
    exists o, body. split; [ done | ]. right. right. by split_and!.
Qed.

Lemma run_traced cs : ∀ v v', well_traced v → run cs v = Ok v' → well_traced v'.
Proof.
  induction cs as [ | c cs IH ]; intros v v' Hv H; simpl in H.
  - by injection H as <-.
  - apply bind_ok in H as (v1 & Hc & H). eapply IH; [ | exact H ].
    by eapply handle_traced.
Qed.

Lemma filter_nexts (p : event → bool) (pkts : list packet) :
  (∀ pkt, p (SinkOnNext pkt) = false) → List.filter p (map SinkOnNext pkts) = [].
Proof.
  intros Hp. induction pkts as [ | pkt pkts IH ]; [ done | ]. simpl. by rewrite Hp.
Qed.

Lemma filter_sink_nexts (pkts : list packet) :
  List.filter is_sink_event (map (@SinkOnNext packet error subscription) pkts)
  = map SinkOnNext pkts.
Proof. induction pkts as [ | pkt pkts IH ]; [ done | ]. simpl. by rewrite IH. Qed.

(** X19.  A stream ends at most once: over any sequence of signals and
    calls of [stop] that a newly constructed stream handles without a fatal
    check, the upstream subscription is cancelled at most once, and it is
    the one received in [on_subscribe]; the sink is completed at most once;
    and the done callback is invoked at most once, after the sink was
    completed and as the last thing the stream does. *)
Theorem video_stream_ends_once channel res cs v0 v :
  new channel res = Ok v0 → run cs v0 = Ok v →
  (count_events is_cancel v ≤ 1)%nat
  ∧ (count_events is_sink_complete v ≤ 1)%nat
  ∧ (count_events is_done v ≤ count_events is_sink_complete v)%nat
  ∧ (∀ s, Cancel s ∈ events v → SinkOnSubscribe s ∈ events v)
  ∧ (∀ ec, Done ec ∈ events v → last (events v) = Some (Done ec)).
Proof.
  intros Hnew Hrun. apply new_traced in Hnew.
  destruct (run_traced _ _ _ Hnew Hrun) as (o & body & Hev & Hcase).
  unfold count_events. rewrite Hev.
  destruct Hcase as [(_ & _ & ->) | [(s & pkts & _ & _ & ->)
                     | (_ & _ & [-> | (s & pkts & fin & -> & Hfin)])]].
  - simpl. split_and!; try lia.
    + intros s Hin. apply elem_of_cons in Hin as [Hin | Hin]; [ discriminate | ].
      by apply elem_of_nil in Hin.
    + intros ec Hin. apply elem_of_cons in Hin as [Hin | Hin]; [ discriminate | ].
      by apply elem_of_nil in Hin.
  - simpl. rewrite !filter_nexts by done. simpl. split_and!; try lia.
    + intros s0 Hin. repeat (apply elem_of_cons in Hin as [Hin | Hin]; [ discriminate | ]).
      apply list_elem_of_fmap in Hin as (pkt & Hpkt & _). discriminate.
    + intros ec Hin. repeat (apply elem_of_cons in Hin as [Hin | Hin]; [ discriminate | ]).
      apply list_elem_of_fmap in Hin as (pkt & Hpkt & _). discriminate.
  - simpl. split_and!; try lia.
    + intros s Hin. repeat (apply elem_of_cons in Hin as [Hin | Hin]; [ discriminate | ]).
      by apply elem_of_nil in Hin.
    + intros ec Hin. repeat (apply elem_of_cons in Hin as [Hin | Hin]; [ discriminate | ]).
      by apply elem_of_nil in Hin.
  - simpl. rewrite !List.filter_app, !filter_nexts by done.
    assert (∀ e, e ∈ Subscribe o :: SinkOnSubscribe s :: map SinkOnNext pkts
                       ++ [Cancel s; SinkOnComplete] ++ fin →
                 e = Subscribe o ∨ e = SinkOnSubscribe s ∨ (∃ pkt, e = SinkOnNext pkt)
                 ∨ e = Cancel s ∨ e = SinkOnComplete ∨ e ∈ fin) as Hmem.
    { intros e Hin. apply elem_of_cons in Hin as [-> | Hin]; [ by left | ].
      apply elem_of_cons in Hin as [-> | Hin]; [ by right; left | ].
      apply elem_of_app in Hin as [Hin | Hin].
      - apply list_elem_of_fmap in Hin as (pkt & -> & _). right. right. left. eauto.
      - apply elem_of_cons in Hin as [-> | Hin]; [ by do 3 right; left | ].
        apply elem_of_cons in Hin as [-> | Hin]; [ by do 4 right; left | ].
        by do 5 right. }
    destruct Hfin as [-> | [ec0 ->]]; simpl; split_and!; try lia.
    + intros s0 Hin. apply Hmem in Hin
        as [? | [? | [[? ?] | [Heq | [? | Hin]]]]]; try discriminate.
      * injection Heq as ->. right. by left.
      * by apply elem_of_nil in Hin.
    + intros ec Hin. apply Hmem in Hin
        as [? | [? | [[? ?] | [? | [? | Hin]]]]]; try discriminate.
      by apply elem_of_nil in Hin.
    + intros s0 Hin. apply Hmem in Hin
        as [? | [? | [[? ?] | [Heq | [? | Hin]]]]]; try discriminate.
      * injection Heq as ->. right. by left.
      * apply elem_of_cons in Hin as [? | Hin]; [ discriminate | ].
        by apply elem_of_nil in Hin.
    + intros ec Hin. apply Hmem in Hin
        as [? | [? | [[? ?] | [? | [? | Hin]]]]]; try discriminate.
      apply elem_of_cons in Hin as [[= ->] | Hin]; [ | by apply elem_of_nil in Hin ].
      rewrite !app_comm_cons, last_app. reflexivity.
Qed.

(** X20.  The sink is driven by the protocol of a subscriber: over any
    sequence a newly constructed stream handles without a fatal check, the
    sink sees [on_subscribe] before any [on_next], only packets after it,
    and at most one [on_complete], after which it sees nothing. *)
Theorem video_stream_sink_protocol channel res cs v0 v :
  new channel res = Ok v0 → run cs v0 = Ok v →
  ∃ before after,
    List.filter is_sink_event (events v) = before ++ after
    ∧ (before = [] ∨ ∃ s pkts, before = SinkOnSubscribe s :: map SinkOnNext pkts)
    ∧ (after = [] ∨ after = [SinkOnComplete]).
Proof.
  intros Hnew Hrun. apply new_traced in Hnew.
  destruct (run_traced _ _ _ Hnew Hrun) as (o & body & Hev & Hcase).
  rewrite Hev.
  destruct Hcase as [(_ & _ & ->) | [(s & pkts & _ & _ & ->)
                     | (_ & _ & [-> | (s & pkts & fin & -> & Hfin)])]].
  - exists [], []. split_and!; auto.
  - exists (SinkOnSubscribe s :: map SinkOnNext pkts), []. simpl.
    rewrite filter_sink_nexts, app_nil_r. split_and!; eauto.
  - exists [], [SinkOnComplete]. split_and!; auto.
  - exists (SinkOnSubscribe s :: map SinkOnNext pkts), [SinkOnComplete]. simpl.
    rewrite List.filter_app, filter_sink_nexts.
    split_and!; [ | eauto | auto ].
    by destruct Hfin as [-> | [ec ->]].
Qed.

(** X21.  Stopping is final: once a stream has handled [stop], [on_error]
    or [on_complete], every further signal of the upstream, [on_subscribe]
    included, fails a check, and a further [stop] does nothing at all. *)
Theorem video_stream_stop_is_final c v v' c' :
  (c = Stop ∨ c = OnComplete ∨ ∃ ec, c = OnError ec) →
  handle c v = Ok v' →
  handle c' v' = match c' with Stop => Ok v' | _ => Fatal CheckFailed end.
Proof.
  intros Hc H. apply handle_stopped.
  - destruct Hc as [-> | [-> | [ec ->]]]; simpl in H.
    + injection H as <-. apply stop_stopped.
    + unfold on_complete in H. apply bind_ok in H as (s & _ & [= <-]).
      apply stop_stopped.
    + unfold on_error in H. apply bind_ok in H as (s & _ & [= <-]).
      apply stop_stopped.
  - destruct Hc as [-> | [-> | [ec ->]]]; simpl in H.
    + injection H as <-. apply stop_stopped.
    + unfold on_complete in H. apply bind_ok in H as (s & _ & [= <-]).
      apply stop_stopped.
    + unfold on_error in H. apply bind_ok in H as (s & _ & [= <-]).
      apply stop_stopped.
Qed.

End VideoStreamFacts.

End recorder_facts.

Section RecorderExamples.

Import recorder recorder_notions recorder_facts.
Local Open Scope string_scope.

Lemma escape_slashes_leaves_no_slash_witness :
  escape_slashes "video/cam/1" = Some "video{slash}cam{slash}1"
  ∧ ("/"%char ∉ list_ascii_of_string "video{slash}cam{slash}1")
  ∧ String.length "video{slash}cam{slash}1"
    = (String.length "video/cam/1" + 6 * slashes (list_ascii_of_string "video/cam/1"))%nat.
Proof.
  assert (escape_slashes "video/cam/1" = Some "video{slash}cam{slash}1") as H
    by (vm_compute; reflexivity).
  split; [ exact H | ]. exact (escape_slashes_leaves_no_slash _ _ H).
Defined.

Lemma escape_slashes_fixed_points_witness :
  ("/"%char ∉ list_ascii_of_string "video")
  ∧ escape_slashes "video" = Some "video"
  ∧ escape_slashes "a{slash}b" = Some "a{slash}b".
Proof.
  assert ("/"%char ∉ list_ascii_of_string "video") as Hno.
  { intros Hin. repeat (apply elem_of_cons in Hin as [Hin | Hin]; [ discriminate | ]).
    by apply elem_of_nil in Hin. }
  split; [ exact Hno | ]. split.
  - destruct (escape_slashes_fixed_points "video") as [[_ Hfix] _]. by apply Hfix.
  - destruct (escape_slashes_fixed_points "a/b") as [_ Htwice].
    apply Htwice. vm_compute. reflexivity.
Defined.

(** A stream that is subscribed, forwards two packets, and completes; the
    destructor stops it once more. *)
Lemma video_stream_ends_once_witness :
  ∃ v0 v : video_stream nat unit nat,
    new (Some "video") "original" = Ok v0
    ∧ run [OnSubscribe 5%nat; OnNext 1%nat; OnNext 2%nat; OnComplete; Stop] v0 = Ok v
    ∧ events v = [Subscribe true; SinkOnSubscribe 5%nat; SinkOnNext 1%nat;
                  SinkOnNext 2%nat; Cancel 5%nat; SinkOnComplete; Done None]
    ∧ (count_events is_cancel v ≤ 1)%nat
    ∧ (count_events is_sink_complete v ≤ 1)%nat
    ∧ (count_events is_done v ≤ count_events is_sink_complete v)%nat.
Proof.
  eexists _, _. split; [ reflexivity | ]. split; [ reflexivity | ].
  split; [ reflexivity | ].
  destruct (video_stream_ends_once (packet := nat) (error := unit) (subscription := nat)
              (Some "video") "original"
              [OnSubscribe 5%nat; OnNext 1%nat; OnNext 2%nat; OnComplete; Stop]
              _ _ eq_refl eq_refl) as (H1 & H2 & H3 & _).
  by split_and!.
Defined.

(** A stream whose upstream fails after one packet. *)
Lemma video_stream_sink_protocol_witness :
  ∃ (v0 v : video_stream nat unit nat) before after,
    new (Some "video") "720p" = Ok v0
    ∧ run [OnSubscribe 5%nat; OnNext 1%nat; OnError tt] v0 = Ok v
    ∧ List.filter is_sink_event (events v) = (before ++ after)%list
    ∧ (before = [] ∨ ∃ s pkts, before = SinkOnSubscribe s :: map SinkOnNext pkts)
    ∧ (after = [] ∨ after = [SinkOnComplete]).
Proof.
  destruct (video_stream_sink_protocol (packet := nat) (error := unit) (subscription := nat)
              (Some "video") "720p" [OnSubscribe 5%nat; OnNext 1%nat; OnError tt]
              _ _ eq_refl eq_refl) as (before & after & H).
  eexists _, _, before, after. split; [ reflexivity | ]. split; [ reflexivity | ].
  exact H.
Defined.

(** After [on_complete], a packet is refused. *)
Lemma video_stream_stop_is_final_witness :
  let v1 : video_stream nat unit nat :=
    mk_video_stream (Some "video") "original" (Some 5%nat) true
      [Subscribe true; SinkOnSubscribe 5%nat] in
  let v2 : video_stream nat unit nat :=
    mk_video_stream (Some "video") "original" None false
      [Subscribe true; SinkOnSubscribe 5%nat; Cancel 5%nat; SinkOnComplete; Done None] in
  handle OnComplete v1 = Ok v2
  ∧ handle (OnNext 1%nat) v2 = Fatal CheckFailed
  ∧ handle Stop v2 = Ok v2.
Proof.
  intros v1 v2.
  assert (handle OnComplete v1 = Ok v2) as H by reflexivity.
  split; [ exact H | ]. split.
  - exact (video_stream_stop_is_final OnComplete v1 v2 (OnNext 1%nat)
             (or_intror (or_introl eq_refl)) H).
  - exact (video_stream_stop_is_final OnComplete v1 v2 Stop
             (or_intror (or_introl eq_refl)) H).
Defined.

End RecorderExamples.
